(** * Feather wallet: the main window's update check, balance label and
      recently-opened list

    A shallow embedding of the handlers of [MainWindow] (MainWindow.cpp)
    that take part in the update-verification flow
    ([onUpdatesAvailable], [onSignedHashesReceived],
    [onCheckUpdatesComplete], [onShowUpdateCheck], [getPlatformTag]),
    of [onBalanceUpdated] and of [addToRecentlyOpened].

    Widgets and process-wide singletons are fields of an explicit [World]
    record that every handler transforms; what a handler does to the
    outside (log lines, network requests, verifier runs, dialogs) is
    appended to the world's [trace] in the order the C++ performs it. *)

From Stdlib Require Import List String Ascii Bool ZArith NArith Lia.
From Stdlib.Strings Require Import Byte.
Import ListNotations.
Local Open Scope string_scope.
Local Open Scope list_scope.

(** ** The Qt value types the handlers use *)

Module Qt.

Abbreviation QString := string (only parsing).
Abbreviation QByteArray := (list byte) (only parsing).

(** [QString::isEmpty]. *)
Definition isEmpty (s : QString) : bool :=
  match s with EmptyString => true | String _ _ => false end.

(** [QByteArray::isEmpty]. *)
Definition ba_isEmpty (b : QByteArray) : bool :=
  match b with [] => true | _ :: _ => false end.

(** The place marker digit of [%1] .. [%9]: its argument index from 0. *)
Definition markerIndex (c : ascii) : option nat :=
  let n := N_of_ascii c in
  if ((49 <=? n) && (n <=? 57))%N then Some (N.to_nat (n - 49)) else None.

(** [QString::arg] in its one-pass, several-argument form: the template is
    scanned once and every marker [%k] is replaced by the k-th argument;
    the arguments themselves are never rescanned.  A marker without an
    argument stays as it is.  The templates of MainWindow.cpp number their
    markers 1, 2 and follow each by a character that is no digit, which is
    the case this function covers. *)
Fixpoint arg (tmpl : QString) (args : list QString) : QString :=
  match tmpl with
  | EmptyString => EmptyString
  | String c tl =>
      if Ascii.eqb c "%" then
        match tl with
        | EmptyString => String c EmptyString
        | String d rest =>
            match markerIndex d with
            | Some k =>
                match nth_error args k with
                | Some a => (a ++ arg rest args)%string
                | None => String c (String d (arg rest args))
                end
            | None => String c (arg tl args)
            end
        end
      else String c (arg tl args)
  end.

(** [QString::replace(before, after)]: every occurrence of [before],
    found left to right without overlap, becomes [after].  [skip] counts
    the characters of an occurrence already replaced.  An empty [before],
    which the window never passes, leaves the string as it is. *)
Fixpoint replace_from (skip : nat) (before after s : QString) : QString :=
  match s with
  | EmptyString => EmptyString
  | String c tl =>
      match skip with
      | S k => replace_from k before after tl
      | O =>
          if isEmpty before then String c (replace_from O before after tl)
          else if String.prefix before s
          then (after ++ replace_from (String.length before - 1) before after tl)%string
          else String c (replace_from O before after tl)
      end
  end.

Definition replace (before after s : QString) : QString :=
  replace_from O before after s.

(** One lower-case hexadecimal digit, as [QByteArray::toHex] writes it. *)
Definition hexDigit (n : N) : ascii :=
  if (n <? 10)%N then ascii_of_N (48 + n) else ascii_of_N (87 + n).

(** [QByteArray::toHex], read as a [QString]: two digits per byte, the
    high nibble first. *)
Fixpoint toHex (b : QByteArray) : QString :=
  match b with
  | [] => EmptyString
  | x :: tl =>
      let n := Byte.to_N x in
      String (hexDigit (n / 16)) (String (hexDigit (n mod 16)) (toHex tl))
  end.

(** The value of a hexadecimal digit, for reading [toHex] back. *)
Definition hexValue (c : ascii) : option N :=
  let n := N_of_ascii c in
  if ((48 <=? n) && (n <=? 57))%N then Some (n - 48)%N
  else if ((97 <=? n) && (n <=? 102))%N then Some (n - 87)%N
  else None.

(** [QByteArray::fromHex] on well-formed input (an even number of
    lower-case digits); [None] otherwise. *)
Fixpoint fromHex (s : QString) : option QByteArray :=
  match s with
  | EmptyString => Some []
  | String hi (String lo tl) =>
      match hexValue hi, hexValue lo, fromHex tl with
      | Some h, Some l, Some r =>
          match Byte.of_N (16 * h + l) with
          | Some x => Some (x :: r)
          | None => None
          end
      | _, _, _ => None
      end
  | String _ EmptyString => None
  end.

(** [QJsonValue]; an object's members are kept in key order of arrival
    and read by the first match, a key occurring once as in Qt.  The
    window reads no number, so a number's value is kept as an integer. *)
#[warnings="-register-all"] Inductive QJsonValue : Type :=
| Undefined
| Null
| JBool (b : bool)
| JDouble (d : Z)
| JString (s : QString)
| JArray (a : list QJsonValue)
| JObject (o : list (QString * QJsonValue)).

Definition QJsonObject := list (QString * QJsonValue).

(** [QJsonObject::operator[]] (const): the member, or [Undefined]. *)
Fixpoint value (o : QJsonObject) (key : QString) : QJsonValue :=
  match o with
  | [] => Undefined
  | (k, v) :: tl => if String.eqb k key then v else value tl key
  end.

(** [QJsonValue::toObject]: the object, or an empty one. *)
Definition toObject (v : QJsonValue) : QJsonObject :=
  match v with JObject o => o | _ => [] end.

(** [QJsonValue::toString]: the string, or a null string. *)
Definition toString (v : QJsonValue) : QString :=
  match v with JString s => s | _ => EmptyString end.

(** [QJsonObject::isEmpty]. *)
Definition obj_isEmpty (o : QJsonObject) : bool :=
  match o with [] => true | _ :: _ => false end.

(** [QList::contains]. *)
Definition contains (l : list QString) (x : QString) : bool :=
  existsb (String.eqb x) l.

(** [QList::removeOne]: drops the first element equal to [x]. *)
Fixpoint removeOne (x : QString) (l : list QString) : list QString :=
  match l with
  | [] => []
  | y :: tl => if String.eqb y x then tl else y :: removeOne x tl
  end.

End Qt.
Import Qt.

(** ** Semantic versions *)

Module SemanticVersion.

(** Modelled from the spec: utils/SemanticVersion.h is not among the sources
    at hand, only its use in [onUpdatesAvailable] is.  The spec gives a
    version as major.minor.patch with an optional pre-release tag, ordered
    by the numeric fields and then lexically by the tag, and asks that a
    string that does not parse be treated as not newer: [Invalid] is below
    every version. *)
Inductive t : Type :=
| Invalid
| Version (major minor patch : N) (tag : QString).

(** Modelled from the spec: the numeric fields of a version.  The decimal
    value of a run of digits, [None] on any other character. *)
Fixpoint digits (acc : N) (s : QString) : option N :=
  match s with
  | EmptyString => Some acc
  | String c tl =>
      let n := N_of_ascii c in
      if ((48 <=? n) && (n <=? 57))%N then digits (10 * acc + (n - 48)) tl
      else None
  end.

Definition number (s : QString) : option N :=
  match s with EmptyString => None | String _ _ => digits 0 s end.

(** Modelled from the spec: the fields of a version are cut at the dots
    and the tag at the first dash.  The text before the first [sep], and
    the text after it when there is one. *)
Fixpoint split (sep : ascii) (s : QString) : QString * option QString :=
  match s with
  | EmptyString => (EmptyString, None)
  | String c tl =>
      if Ascii.eqb c sep then (EmptyString, Some tl)
      else let (hd, rest) := split sep tl in (String c hd, rest)
  end.

(** Modelled from the spec: [SemanticVersion::fromString], reading
    [major.minor.patch] or [major.minor.patch-tag]. *)
Definition fromString (ver : QString) : t :=
  let (core, pre) := split "-" ver in
  let tag := match pre with Some g => g | None => EmptyString end in
  match split "." core with
  | (major, Some rest) =>
      match split "." rest with
      | (minor, Some patch) =>
          match number major, number minor, number patch with
          | Some a, Some b, Some c => Version a b c tag
          | _, _, _ => Invalid
          end
      | (_, None) => Invalid
      end
  | (_, None) => Invalid
  end.

(** Modelled from the spec: the comparison of two versions, numeric fields
    first, the tag lexically after them. *)
Definition compare (a b : t) : comparison :=
  match a, b with
  | Invalid, Invalid => Eq
  | Invalid, Version _ _ _ _ => Lt
  | Version _ _ _ _, Invalid => Gt
  | Version a1 a2 a3 g, Version b1 b2 b3 h =>
      match N.compare a1 b1 with
      | Eq =>
          match N.compare a2 b2 with
          | Eq =>
              match N.compare a3 b3 with
              | Eq => String.compare g h
              | c => c
              end
          | c => c
          end
      | c => c
      end
  end.

(** Modelled from the spec: [operator<=] of two versions. *)
Definition le (a b : t) : bool :=
  match compare a b with Gt => false | _ => true end.

(** Modelled from the spec: [isNewer].  The guard of [onUpdatesAvailable]
    lets a candidate [a] through exactly when [a <= b] is false. *)
Definition isNewer (a b : t) : bool := negb (le a b).

(** Modelled from the spec: the lexical order on tags, character by
    character. *)
Inductive lex_lt : QString -> QString -> Prop :=
| lex_nil c s : lex_lt EmptyString (String c s)
| lex_head c d s u : (N_of_ascii c < N_of_ascii d)%N ->
    lex_lt (String c s) (String d u)
| lex_tail c s u : lex_lt s u -> lex_lt (String c s) (String c u).

(** Modelled from the spec: the ordering the spec defines, as a relation;
    [greater a b] when [a] is the later version. *)
Inductive greater : t -> t -> Prop :=
| greater_invalid a1 a2 a3 g : greater (Version a1 a2 a3 g) Invalid
| greater_major a1 a2 a3 g b1 b2 b3 h : (b1 < a1)%N ->
    greater (Version a1 a2 a3 g) (Version b1 b2 b3 h)
| greater_minor a1 a2 a3 g b2 b3 h : (b2 < a2)%N ->
    greater (Version a1 a2 a3 g) (Version a1 b2 b3 h)
| greater_patch a1 a2 a3 g b3 h : (b3 < a3)%N ->
    greater (Version a1 a2 a3 g) (Version a1 a2 b3 h)
| greater_tag a1 a2 a3 g h : lex_lt h g ->
    greater (Version a1 a2 a3 g) (Version a1 a2 a3 h).

End SemanticVersion.

(** ** What lies outside MainWindow.cpp *)

(** How a run of [Updater().verifyParseSignedHashes(armored, filename,
    signer)] ends: with an exception, or with the hash it returns; either
    way [signer], passed by reference, holds what the verifier left in it. *)
Inductive VerifyOutcome : Type :=
| Throws (what signer : QString)
| Returns (signedHash : QByteArray) (signer : QString).

(** The build target that the preprocessor branches of [getPlatformTag]
    select, and the APPIMAGE environment variable read on Linux. *)
Inductive OS : Type := Q_OS_MACOS | Q_OS_WIN | Q_OS_LINUX | Q_OS_OTHER.

Record Platform : Type := {
  os : OS;
  PLATFORM_INSTALLER : bool;
  APPIMAGE : QString
}.

(** The collaborators and constants that MainWindow.cpp includes from
    headers outside the sources at hand.  Every handler below is stated
    for an arbitrary choice of them. *)
Record Externals : Type := {
  FEATHER_VERSION : QString;
  websiteUrl : QString;
  platform : Platform;
  SemVer : Type;
  fromString : QString -> SemVer;
  le : SemVer -> SemVer -> bool;
  verifyParseSignedHashes : QByteArray -> QString -> VerifyOutcome;
  fileExists : QString -> bool;
  displayAmount : Z -> bool -> Z -> QString;
  totalBalance : Z;
  spendablePlusUnconfirmed : Z;
  spendable : Z
}.

(** ** The main window *)

Module MainWindow.

(** The closure connected to the update button: it captures the four
    strings by value and calls [onShowUpdateCheck] with them. *)
Inductive Slot : Type :=
| ShowUpdateCheck (version binaryFilename hash signer : QString).

Record QPushButton : Type := {
  text : QString;
  toolTip : QString;
  visible : bool;
  clicked : list Slot
}.

Record ClickableLabel : Type := {
  label_text : QString;
  label_toolTip : QString
}.

Record Config : Type := {
  hideBalance : bool;
  balanceDisplay : Z;
  amountPrecision : Z;
  recentlyOpenedWallets : list QString
}.

(** A reply in flight, with the arguments [std::bind] fixed for its
    [finished] signal. *)
Record Connection : Type := {
  request_url : QString;
  bound_platformTag : QString;
  bound_version : QString
}.

Record QNetworkReply : Type := {
  error : Z;
  errorString : QString;
  readAll : QByteArray
}.

Definition NoError : Z := 0.

Inductive MenuItem : Type :=
| Action (fileName walletPath : QString)
| Separator
| ClearRecentlyOpenAction.

(** What the handlers do to the outside, in order. *)
Inductive Event : Type :=
| qWarning (msg : list QString)
| qInfo (msg : list QString)
| NetworkGet (url : QString)
| VerifyRun (armoredSignedHashes : QByteArray) (binaryFilename : QString)
| CheckUpdatesComplete (version binaryFilename hash signer : QString)
| UpdateDialogExec (version downloadUrl hash signer platformTag : QString).

Record World : Type := {
  m_statusUpdateAvailable : QPushButton;
  m_statusLabelBalance : ClickableLabel;
  m_balanceTickerWidget_hidden : bool;
  config : Config;
  menuRecently_open : list MenuItem;
  replies : list Connection;
  trace : list Event
}.

Definition set_button (b : QPushButton) (w : World) : World :=
  {| m_statusUpdateAvailable := b;
     m_statusLabelBalance := m_statusLabelBalance w;
     m_balanceTickerWidget_hidden := m_balanceTickerWidget_hidden w;
     config := config w;
     menuRecently_open := menuRecently_open w;
     replies := replies w;
     trace := trace w |}.

Definition set_balance (l : ClickableLabel) (hidden : bool) (w : World)
  : World :=
  {| m_statusUpdateAvailable := m_statusUpdateAvailable w;
     m_statusLabelBalance := l;
     m_balanceTickerWidget_hidden := hidden;
     config := config w;
     menuRecently_open := menuRecently_open w;
     replies := replies w;
     trace := trace w |}.

Definition set_recent (r : list QString) (w : World) : World :=
  {| m_statusUpdateAvailable := m_statusUpdateAvailable w;
     m_statusLabelBalance := m_statusLabelBalance w;
     m_balanceTickerWidget_hidden := m_balanceTickerWidget_hidden w;
     config := {| hideBalance := hideBalance (config w);
                  balanceDisplay := balanceDisplay (config w);
                  amountPrecision := amountPrecision (config w);
                  recentlyOpenedWallets := r |};
     menuRecently_open := menuRecently_open w;
     replies := replies w;
     trace := trace w |}.

Definition set_menu (m : list MenuItem) (w : World) : World :=
  {| m_statusUpdateAvailable := m_statusUpdateAvailable w;
     m_statusLabelBalance := m_statusLabelBalance w;
     m_balanceTickerWidget_hidden := m_balanceTickerWidget_hidden w;
     config := config w;
     menuRecently_open := m;
     replies := replies w;
     trace := trace w |}.

Definition set_replies (r : list Connection) (w : World) : World :=
  {| m_statusUpdateAvailable := m_statusUpdateAvailable w;
     m_statusLabelBalance := m_statusLabelBalance w;
     m_balanceTickerWidget_hidden := m_balanceTickerWidget_hidden w;
     config := config w;
     menuRecently_open := menuRecently_open w;
     replies := r;
     trace := trace w |}.

(** Appends one event to the trace. *)
Definition emit (e : Event) (w : World) : World :=
  {| m_statusUpdateAvailable := m_statusUpdateAvailable w;
     m_statusLabelBalance := m_statusLabelBalance w;
     m_balanceTickerWidget_hidden := m_balanceTickerWidget_hidden w;
     config := config w;
     menuRecently_open := menuRecently_open w;
     replies := replies w;
     trace := trace w ++ [e] |}.

Section Handlers.

Variable X : Externals.

(** [MainWindow::getPlatformTag]. *)
Definition getPlatformTag : QString :=
  match os (platform X) with
  | Q_OS_MACOS => "mac"
  | Q_OS_WIN => if PLATFORM_INSTALLER (platform X) then "win-installer" else "win"
  | Q_OS_LINUX =>
      if negb (isEmpty (APPIMAGE (platform X))) then "linux-appimage"
      else "linux"
  | Q_OS_OTHER => ""
  end.

(** [MainWindow::onShowUpdateCheck]: builds the download URL and runs the
    update dialog on it.  What the dialog does once open, its
    [restartWallet] signal included, is the dialog's own. *)
Definition onShowUpdateCheck (w : World)
    (version binaryFilename hash signer : QString) : World :=
  let platformTag := getPlatformTag in
  let downloadUrl :=
    arg "https://featherwallet.org/files/releases/%1/%2"
        [platformTag; binaryFilename] in
  emit (UpdateDialogExec version downloadUrl hash signer platformTag) w.

Definition runSlot (w : World) (s : Slot) : World :=
  match s with
  | ShowUpdateCheck version binaryFilename hash signer =>
      onShowUpdateCheck w version binaryFilename hash signer
  end.

(** The user clicks the update button: every slot connected to its
    [clicked] signal runs, in connection order. *)
Definition click (w : World) : World :=
  fold_left runSlot (clicked (m_statusUpdateAvailable w)) w.

(** [MainWindow::onCheckUpdatesComplete]: the notification boundary.  The
    button is labelled and shown, [disconnect()] drops every connection of
    its signals, and one new slot is connected. *)
Definition onCheckUpdatesComplete (w : World)
    (version binaryFilename hash signer : QString) : World :=
  let w := emit (CheckUpdatesComplete version binaryFilename hash signer) w in
  let versionDisplay := replace "beta" "Beta" version in
  let updateText := arg "Update to Feather %1 is available" [versionDisplay] in
  let b := m_statusUpdateAvailable w in
  let b := {| text := updateText; toolTip := toolTip b;
              visible := visible b; clicked := clicked b |} in
  let b := {| text := text b; toolTip := "Click to Download update.";
              visible := visible b; clicked := clicked b |} in
  let b := {| text := text b; toolTip := toolTip b;
              visible := true; clicked := clicked b |} in
  let b := {| text := text b; toolTip := toolTip b;
              visible := visible b; clicked := [] |} in
  let b := {| text := text b; toolTip := toolTip b; visible := visible b;
              clicked := clicked b
                         ++ [ShowUpdateCheck version binaryFilename hash signer] |} in
  set_button b w.

(** [MainWindow::onSignedHashesReceived]: the slot bound to a reply's
    [finished] signal.  [AsyncTask::runAndWaitForFuture] waits for the
    closure it is given and returns its result, so the verifier is called
    in place; [catch] turns an exception into an empty array. *)
Definition onSignedHashesReceived (w : World) (reply : QNetworkReply)
    (platformTag version : QString) : World :=
  if negb (error reply =? NoError)%Z then
    emit (qWarning ["Unable to fetch signed hashes: "; errorString reply]) w
  else
    let armoredSignedHashes := readAll reply in
    let binaryFilename := arg "feather-%1-%2.zip" [version; platformTag] in
    let w := emit (VerifyRun armoredSignedHashes binaryFilename) w in
    let '(w, signedHash, signer) :=
      match verifyParseSignedHashes X armoredSignedHashes binaryFilename with
      | Returns h s => (w, h, s)
      | Throws what s =>
          (emit (qWarning ["Failed to fetch and verify signed hash: "; what]) w,
           @nil byte, s)
      end in
    if ba_isEmpty signedHash then w
    else
      let hash := toHex signedHash in
      let w := emit (qInfo ["Update found: "; binaryFilename; hash;
                           "signed by:"; signer]) w in
      onCheckUpdatesComplete w version binaryFilename hash signer.

(** [UtilsNetworking::get] followed by [connect(reply, finished, ...)]:
    the request goes out and its reply waits with the bound arguments. *)
Definition network_get (w : World) (url platformTag version : QString)
  : World :=
  let w := emit (NetworkGet url) w in
  set_replies (replies w ++ [{| request_url := url;
                                bound_platformTag := platformTag;
                                bound_version := version |}]) w.

(** [MainWindow::onUpdatesAvailable]. *)
Definition onUpdatesAvailable (w : World) (updates : QJsonObject) : World :=
  let featherVersionStr := FEATHER_VERSION X in
  let featherVersion := fromString X featherVersionStr in
  let platformTag := getPlatformTag in
  if isEmpty platformTag then
    emit (qWarning ["Unsupported platform, unable to fetch update"]) w
  else
    let platformData :=
      toObject (value (toObject (value updates "platform")) platformTag) in
    if obj_isEmpty platformData then
      emit (qWarning ["Unable to find current platform in updates data"]) w
    else
      let newVersion := toString (value platformData "version") in
      if le X (fromString X newVersion) featherVersion then w
      else
        let hashesUrl :=
          arg "%1/files/releases/hashes-%2-plain.txt"
              [websiteUrl X; newVersion] in
        network_get w hashesUrl platformTag newVersion.

(** The replies in flight finish, oldest first; [net] is what the network
    answers to a URL.  Each reply runs the slot bound to it once. *)
Fixpoint finishAll (net : QString -> QNetworkReply) (cs : list Connection)
    (w : World) : World :=
  match cs with
  | [] => w
  | c :: rest =>
      finishAll net rest
        (onSignedHashesReceived w (net (request_url c))
           (bound_platformTag c) (bound_version c))
  end.

(** One update check from the feed to its end: the handler of the feed,
    then the completion of every request it left in flight. *)
Definition updateCheck (net : QString -> QNetworkReply) (w : World)
    (updates : QJsonObject) : World :=
  let w := onUpdatesAvailable w updates in
  finishAll net (replies w) (set_replies [] w).

(** [MainWindow::onBalanceUpdated]; [balance] and [spendable] are
    [quint64]. *)
Definition onBalanceUpdated (w : World) (balance spendable_ : Z) : World :=
  let hide := hideBalance (config w) in
  let displaySetting := balanceDisplay (config w) in
  let decimals := amountPrecision (config w) in
  let balance_str := "Balance: " in
  let balance_str :=
    if hide then (balance_str ++ "HIDDEN")%string
    else if (displaySetting =? totalBalance X)%Z then
      (balance_str
       ++ arg "%1 XMR" [displayAmount X balance false decimals])%string
    else if ((displaySetting =? spendable X)
             || (displaySetting =? spendablePlusUnconfirmed X))%Z then
      let balance_str :=
        (balance_str
         ++ arg "%1 XMR" [displayAmount X spendable_ false decimals])%string in
      if ((displaySetting =? spendablePlusUnconfirmed X)
          && (spendable_ <? balance))%Z
      then (balance_str
            ++ arg " (+%1 XMR unconfirmed)"
                   [displayAmount X ((balance - spendable_) mod 2 ^ 64)
                      false decimals])%string
      else balance_str
    else balance_str in
  let l := m_statusLabelBalance w in
  let l := {| label_text := label_text l;
              label_toolTip := "Click for details" |} in
  let l := {| label_text := balance_str; label_toolTip := label_toolTip l |} in
  set_balance l hide w.

(** The loop of [addToRecentlyOpened]: [recent_] collects the files that
    exist, [count] counts them, and the loop breaks at five. *)
Fixpoint collect (files recent_ : list QString) (count : Z) : list QString :=
  match files with
  | [] => recent_
  | file :: rest =>
      let '(recent_, count) :=
        if fileExists X file then (recent_ ++ [file], (count + 1)%Z)
        else (recent_, count) in
      if (5 <=? count)%Z then recent_ else collect rest recent_ count
  end.

(** [QFileInfo::fileName]: the text after the last slash. *)
Fixpoint fileName_from (acc s : QString) : QString :=
  match s with
  | EmptyString => acc
  | String c tl =>
      if Ascii.eqb c "/" then fileName_from EmptyString tl
      else fileName_from (acc ++ String c EmptyString)%string tl
  end.

(** [MainWindow::updateRecentlyOpenedMenu]. *)
Definition updateRecentlyOpenedMenu (w : World) : World :=
  let recentWallets := recentlyOpenedWallets (config w) in
  set_menu
    (map (fun walletPath =>
            Action (fileName_from EmptyString walletPath) walletPath)
         recentWallets
     ++ [Separator; ClearRecentlyOpenAction]) w.

(** [MainWindow::addToRecentlyOpened]. *)
Definition addToRecentlyOpened (w : World) (keysFile : QString) : World :=
  let recent := recentlyOpenedWallets (config w) in
  let recent :=
    if contains recent keysFile then removeOne keysFile recent else recent in
  let recent := keysFile :: recent in
  let recent_ := collect recent [] 0%Z in
  updateRecentlyOpenedMenu (set_recent recent_ w).

(** The [i]-th reply in flight finishes: its slot runs once with the
    arguments bound to it, and the reply leaves the ones in flight. *)
Definition replyFinished (w : World) (i : nat) (reply : QNetworkReply)
  : World :=
  match nth_error (replies w) i with
  | None => w
  | Some c =>
      onSignedHashesReceived
        (set_replies (firstn i (replies w) ++ skipn (S i) (replies w)) w)
        reply (bound_platformTag c) (bound_version c)
  end.

(** The signals the event loop delivers to the window. *)
Inductive Input : Type :=
| UpdatesReceived (updates : QJsonObject)
| ReplyFinished (i : nat) (reply : QNetworkReply)
| ButtonClicked
| BalanceUpdated (balance spendable_ : Z)
| WalletOpened (keysFile : QString).

Definition handle (w : World) (i : Input) : World :=
  match i with
  | UpdatesReceived updates => onUpdatesAvailable w updates
  | ReplyFinished k reply => replyFinished w k reply
  | ButtonClicked => click w
  | BalanceUpdated balance spendable_ => onBalanceUpdated w balance spendable_
  | WalletOpened keysFile => addToRecentlyOpened w keysFile
  end.

(** The window after a sequence of signals, handled one at a time. *)
Definition run (w : World) (inputs : list Input) : World :=
  fold_left handle inputs w.

End Handlers.

(** What a successful check hands to the notification boundary. *)
Record VerifiedUpdate : Type := {
  vu_version : QString;
  vu_binaryFilename : QString;
  vu_hash : QString;
  vu_signer : QString
}.

(** The verified updates a trace hands to the notification boundary. *)
Fixpoint notified (t : list Event) : list VerifiedUpdate :=
  match t with
  | [] => []
  | CheckUpdatesComplete v b h s :: tl =>
      {| vu_version := v; vu_binaryFilename := b;
         vu_hash := h; vu_signer := s |} :: notified tl
  | _ :: tl => notified tl
  end.

(** The URLs a trace requests from the network. *)
Fixpoint fetched (t : list Event) : list QString :=
  match t with
  | [] => []
  | NetworkGet url :: tl => url :: fetched tl
  | _ :: tl => fetched tl
  end.

(** The verifier runs of a trace. *)
Fixpoint verified (t : list Event) : list (QByteArray * QString) :=
  match t with
  | [] => []
  | VerifyRun a b :: tl => (a, b) :: verified tl
  | _ :: tl => verified tl
  end.

(** The dialogs a trace shows to the user. *)
Fixpoint dialogs (t : list Event)
  : list (QString * QString * QString * QString * QString) :=
  match t with
  | [] => []
  | UpdateDialogExec v u h s p :: tl => (v, u, h, s, p) :: dialogs tl
  | _ :: tl => dialogs tl
  end.

(** The last element of a list, if there is one. *)
Definition latest {A : Type} (l : list A) : option A :=
  match rev l with [] => None | x :: _ => Some x end.

(** The slot a verified update leaves on the button. *)
Definition slotOf (u : VerifiedUpdate) : Slot :=
  ShowUpdateCheck (vu_version u) (vu_binaryFilename u) (vu_hash u)
    (vu_signer u).

(** The button's slots are current: none before the first verified update,
    afterwards the one slot of the latest. *)
Definition handlers_current (w : World) : Prop :=
  clicked (m_statusUpdateAvailable w)
  = match latest (notified (trace w)) with
    | None => []
    | Some u => [slotOf u]
    end.

(** [w'] shows the same slots and the same verified updates as [w]. *)
Definition same_notice (w w' : World) : Prop :=
  clicked (m_statusUpdateAvailable w') = clicked (m_statusUpdateAvailable w)
  /\ notified (trace w') = notified (trace w).

End MainWindow.
Import MainWindow.

(** ** The verifier *)

Module Updater.

(** Modelled from the spec: a content hash, the digest of an artifact.  A
    digest has at least one byte: text that gives a file name no hash is no
    manifest, and the spec files a malformed manifest under verification
    failure. *)
Record Hash : Type := {
  first : byte;
  rest : QByteArray
}.

Definition bytes (h : Hash) : QByteArray := first h :: rest h.

(** Modelled from the spec: utils/Updater.h is not among the sources at
    hand.  The spec's signed hash manifest maps artifact file names to
    content hashes; [signature] names the key whose signature over the text
    checks out, if there is one. *)
Record SignedHashManifest : Type := {
  signature : option QString;
  entries : list (QString * Hash)
}.

Fixpoint entry (es : list (QString * Hash)) (name : QString)
  : option Hash :=
  match es with
  | [] => None
  | (k, h) :: tl => if String.eqb k name then Some h else entry tl name
  end.

(** Modelled from the spec: [Updater::verifyParseSignedHashes].  The
    signature is checked against the trusted keyring, the signer's identity
    is stored, and the hash entry of [binaryFilename] is returned; a
    manifest that does not decode, a signature that does not check against
    a trusted key and a missing entry all throw.  [decode] stands for the
    OpenPGP layer. *)
Definition verifyParseSignedHashes
    (decode : QByteArray -> option SignedHashManifest)
    (keyring : list QString)
    (armoredSignedHashes : QByteArray) (binaryFilename : QString)
  : VerifyOutcome :=
  match decode armoredSignedHashes with
  | None => Throws "malformed manifest" EmptyString
  | Some m =>
      match signature m with
      | None => Throws "bad signature" EmptyString
      | Some signer =>
          if contains keyring signer then
            match entry (entries m) binaryFilename with
            | Some h => Returns (bytes h) signer
            | None => Throws "hash not found" signer
            end
          else Throws "unknown signer" EmptyString
      end
  end.

End Updater.

(** [X] with the spec's semantic versions in the place of its own. *)
Definition withSemanticVersion (X : Externals) : Externals :=
  {| FEATHER_VERSION := FEATHER_VERSION X;
     websiteUrl := websiteUrl X;
     platform := platform X;
     SemVer := SemanticVersion.t;
     fromString := SemanticVersion.fromString;
     le := SemanticVersion.le;
     verifyParseSignedHashes := verifyParseSignedHashes X;
     fileExists := fileExists X;
     displayAmount := displayAmount X;
     totalBalance := totalBalance X;
     spendablePlusUnconfirmed := spendablePlusUnconfirmed X;
     spendable := spendable X |}.

(** ** A concrete installation, for running the handlers *)

Module Demo.

(** The raw bytes stand for their own decoding: a manifest signed by
    [featherwallet] that gives the Linux archives of 1.3.0-beta and of
    1.4.0 the received bytes as their hash; no bytes at all do not
    decode. *)
Definition decode (armored : QByteArray) : option Updater.SignedHashManifest :=
  match armored with
  | [] => None
  | b :: bs =>
      let h := {| Updater.first := b; Updater.rest := bs |} in
      Some {| Updater.signature := Some "featherwallet";
              Updater.entries := [("feather-1.3.0-beta-linux.zip", h);
                                  ("feather-1.4.0-linux.zip", h)] |}
  end.

Definition linux : Platform :=
  {| os := Q_OS_LINUX; PLATFORM_INSTALLER := false; APPIMAGE := EmptyString |}.

Definition unsupported : Platform :=
  {| os := Q_OS_OTHER; PLATFORM_INSTALLER := false; APPIMAGE := EmptyString |}.

(** Feather 1.2.0 with [featherwallet] as its only trusted signer; every
    file exists but [/gone.keys]. *)
Definition Xwith (p : Platform)
    (decode : QByteArray -> option Updater.SignedHashManifest) : Externals :=
  {| FEATHER_VERSION := "1.2.0";
     websiteUrl := "https://featherwallet.org";
     platform := p;
     SemVer := SemanticVersion.t;
     fromString := SemanticVersion.fromString;
     le := SemanticVersion.le;
     verifyParseSignedHashes :=
       Updater.verifyParseSignedHashes decode ["featherwallet"];
     fileExists := fun f => negb (String.eqb f "/gone.keys");
     displayAmount := fun _ _ _ => "1.000";
     totalBalance := 0;
     spendablePlusUnconfirmed := 1;
     spendable := 2 |}.

Definition X : Externals := Xwith linux decode.

Definition button0 : QPushButton :=
  {| text := EmptyString; toolTip := EmptyString;
     visible := false; clicked := [] |}.

(** The window as [initStatusBar] leaves it, nothing in flight. *)
Definition w0 : World :=
  {| m_statusUpdateAvailable := button0;
     m_statusLabelBalance :=
       {| label_text := "Balance: 0 XMR"; label_toolTip := EmptyString |};
     m_balanceTickerWidget_hidden := false;
     config := {| hideBalance := true; balanceDisplay := 0;
                  amountPrecision := 4; recentlyOpenedWallets := [] |};
     menuRecently_open := [];
     replies := [];
     trace := [] |}.

(** A feed advertising [version] for Linux. *)
Definition feedOf (version : QString) : QJsonObject :=
  [("platform",
    JObject [("linux", JObject [("version", JString version)])])].

(** The feed advertising 1.3.0-beta for Linux. *)
Definition feed : QJsonObject := feedOf "1.3.0-beta".

(** A feed that knows only the Windows build. *)
Definition windowsFeed : QJsonObject :=
  [("platform",
    JObject [("win", JObject [("version", JString "1.3.0-beta")])])].

Definition ok (body : QByteArray) : QNetworkReply :=
  {| error := NoError; errorString := EmptyString; readAll := body |}.

Definition failed : QNetworkReply :=
  {| error := 203; errorString := "Not Found"; readAll := [] |}.

End Demo.

(** * More of the main window *)

(** ** Replies in flight *)



(** ** C++ integers and more of Qt's strings *)

From Stdlib Require DecimalString DecimalPos DecimalZ.

Module Cxx.

(** A value brought back into the range of a 32-bit [int]. *)
Definition int (z : Z) : Z := ((z + 2 ^ 31) mod 2 ^ 32 - 2 ^ 31)%Z.

(** [a % b] on [int]: the remainder has the sign of [a]. *)
Definition rem (a b : Z) : Z := Z.rem a b.

End Cxx.

Module QtText.

(** The line feed that the C++ writes as a backslash and an n. *)
Definition nl : QString := String (ascii_of_nat 10) EmptyString.

(** [QString::repeated]: [times] copies, none when [times] is below 1. *)
Definition repeated (s : QString) (times : Z) : QString :=
  if (times <? 1)%Z then EmptyString
  else Nat.iter (Z.to_nat times) (String.append s) EmptyString.

(** [QString::number] of an [int], and [arg] of one: decimal digits, a
    minus sign before a negative number. *)
Definition number (n : Z) : QString :=
  DecimalString.NilZero.string_of_int (Z.to_int n).

(** [QString::contains], case sensitive: [sub] starts somewhere in [s]. *)
Fixpoint str_contains (s sub : QString) : bool :=
  if String.prefix sub s then true
  else match s with
       | EmptyString => false
       | String _ tl => str_contains tl sub
       end.

(** [QString::endsWith], case sensitive: some tail of [s] is [suffix]. *)
Fixpoint endsWith (s suffix : QString) : bool :=
  if String.eqb s suffix then true
  else match s with
       | EmptyString => false
       | String _ tl => endsWith tl suffix
       end.

(** The character [c] occurs in [s]. *)
Fixpoint has_char (c : ascii) (s : QString) : bool :=
  match s with
  | EmptyString => false
  | String d tl => Ascii.eqb d c || has_char c tl
  end.

(** Every character of [s] is a decimal digit. *)
Fixpoint allDigits (s : QString) : bool :=
  match s with
  | EmptyString => true
  | String c tl =>
      let n := N_of_ascii c in
      ((48 <=? n) && (n <=? 57))%N && allDigits tl
  end.

(** The integer that a decimal text stands for, read back from [number]. *)
Definition toInt (s : QString) : option Z :=
  option_map Z.of_int (DecimalString.NilZero.int_of_string s).

End QtText.

(** ** The status line *)

Module StatusLine.

Import QtText.

(** [Wallet::ConnectionStatus], with [OtherStatus] for the values the
    switch of [onConnectionStatusChanged] sends to [default]. *)
Inductive ConnectionStatus : Type :=
| ConnectionStatus_Disconnected
| ConnectionStatus_Connecting
| ConnectionStatus_WrongVersion
| ConnectionStatus_Synchronizing
| ConnectionStatus_Synchronized
| OtherStatus.

(** What [updateNetStats] reads from the wallet. *)
Record WalletNet : Type := {
  connectionStatus : ConnectionStatus;
  getBytesReceived : Z
}.

Record SplashDialog : Type := {
  splash_message : QString;
  splash_icon : QString;
  splash_visible : bool;
  splash_enabled : bool
}.

Record NetStatsLabel : Type := {
  netstats_text : QString;
  netstats_visible : bool
}.

(** The members of the window that the status line handlers read and
    write; [singleShots] are the timers of [QTimer::singleShot] that have
    not fired yet, each with its timeout. *)
Record Window : Type := {
  m_statusLabelStatus : QString;
  m_statusLabelNetStats : NetStatsLabel;
  m_statusBtnConnectionStatusIndicator : QString;
  m_statusText : QString;
  m_statusOverrideActive : bool;
  m_constructingTransaction : bool;
  m_statusDots : Z;
  m_txTimer : bool;
  singleShots : list Z;
  m_splashDialog : SplashDialog
}.

Definition set_label (t : QString) (w : Window) : Window :=
  {| m_statusLabelStatus := t;
     m_statusLabelNetStats := m_statusLabelNetStats w;
     m_statusBtnConnectionStatusIndicator :=
       m_statusBtnConnectionStatusIndicator w;
     m_statusText := m_statusText w;
     m_statusOverrideActive := m_statusOverrideActive w;
     m_constructingTransaction := m_constructingTransaction w;
     m_statusDots := m_statusDots w;
     m_txTimer := m_txTimer w;
     singleShots := singleShots w;
     m_splashDialog := m_splashDialog w |}.

Definition set_netStats (l : NetStatsLabel) (w : Window) : Window :=
  {| m_statusLabelStatus := m_statusLabelStatus w;
     m_statusLabelNetStats := l;
     m_statusBtnConnectionStatusIndicator :=
       m_statusBtnConnectionStatusIndicator w;
     m_statusText := m_statusText w;
     m_statusOverrideActive := m_statusOverrideActive w;
     m_constructingTransaction := m_constructingTransaction w;
     m_statusDots := m_statusDots w;
     m_txTimer := m_txTimer w;
     singleShots := singleShots w;
     m_splashDialog := m_splashDialog w |}.

Definition set_icon (icon : QString) (w : Window) : Window :=
  {| m_statusLabelStatus := m_statusLabelStatus w;
     m_statusLabelNetStats := m_statusLabelNetStats w;
     m_statusBtnConnectionStatusIndicator := icon;
     m_statusText := m_statusText w;
     m_statusOverrideActive := m_statusOverrideActive w;
     m_constructingTransaction := m_constructingTransaction w;
     m_statusDots := m_statusDots w;
     m_txTimer := m_txTimer w;
     singleShots := singleShots w;
     m_splashDialog := m_splashDialog w |}.

Definition set_statusText (t : QString) (w : Window) : Window :=
  {| m_statusLabelStatus := m_statusLabelStatus w;
     m_statusLabelNetStats := m_statusLabelNetStats w;
     m_statusBtnConnectionStatusIndicator :=
       m_statusBtnConnectionStatusIndicator w;
     m_statusText := t;
     m_statusOverrideActive := m_statusOverrideActive w;
     m_constructingTransaction := m_constructingTransaction w;
     m_statusDots := m_statusDots w;
     m_txTimer := m_txTimer w;
     singleShots := singleShots w;
     m_splashDialog := m_splashDialog w |}.

Definition set_override (b : bool) (w : Window) : Window :=
  {| m_statusLabelStatus := m_statusLabelStatus w;
     m_statusLabelNetStats := m_statusLabelNetStats w;
     m_statusBtnConnectionStatusIndicator :=
       m_statusBtnConnectionStatusIndicator w;
     m_statusText := m_statusText w;
     m_statusOverrideActive := b;
     m_constructingTransaction := m_constructingTransaction w;
     m_statusDots := m_statusDots w;
     m_txTimer := m_txTimer w;
     singleShots := singleShots w;
     m_splashDialog := m_splashDialog w |}.

Definition set_constructing (b : bool) (w : Window) : Window :=
  {| m_statusLabelStatus := m_statusLabelStatus w;
     m_statusLabelNetStats := m_statusLabelNetStats w;
     m_statusBtnConnectionStatusIndicator :=
       m_statusBtnConnectionStatusIndicator w;
     m_statusText := m_statusText w;
     m_statusOverrideActive := m_statusOverrideActive w;
     m_constructingTransaction := b;
     m_statusDots := m_statusDots w;
     m_txTimer := m_txTimer w;
     singleShots := singleShots w;
     m_splashDialog := m_splashDialog w |}.

Definition set_dots (d : Z) (w : Window) : Window :=
  {| m_statusLabelStatus := m_statusLabelStatus w;
     m_statusLabelNetStats := m_statusLabelNetStats w;
     m_statusBtnConnectionStatusIndicator :=
       m_statusBtnConnectionStatusIndicator w;
     m_statusText := m_statusText w;
     m_statusOverrideActive := m_statusOverrideActive w;
     m_constructingTransaction := m_constructingTransaction w;
     m_statusDots := d;
     m_txTimer := m_txTimer w;
     singleShots := singleShots w;
     m_splashDialog := m_splashDialog w |}.

Definition set_txTimer (b : bool) (w : Window) : Window :=
  {| m_statusLabelStatus := m_statusLabelStatus w;
     m_statusLabelNetStats := m_statusLabelNetStats w;
     m_statusBtnConnectionStatusIndicator :=
       m_statusBtnConnectionStatusIndicator w;
     m_statusText := m_statusText w;
     m_statusOverrideActive := m_statusOverrideActive w;
     m_constructingTransaction := m_constructingTransaction w;
     m_statusDots := m_statusDots w;
     m_txTimer := b;
     singleShots := singleShots w;
     m_splashDialog := m_splashDialog w |}.

Definition set_singleShots (l : list Z) (w : Window) : Window :=
  {| m_statusLabelStatus := m_statusLabelStatus w;
     m_statusLabelNetStats := m_statusLabelNetStats w;
     m_statusBtnConnectionStatusIndicator :=
       m_statusBtnConnectionStatusIndicator w;
     m_statusText := m_statusText w;
     m_statusOverrideActive := m_statusOverrideActive w;
     m_constructingTransaction := m_constructingTransaction w;
     m_statusDots := m_statusDots w;
     m_txTimer := m_txTimer w;
     singleShots := l;
     m_splashDialog := m_splashDialog w |}.

Definition set_splash (d : SplashDialog) (w : Window) : Window :=
  {| m_statusLabelStatus := m_statusLabelStatus w;
     m_statusLabelNetStats := m_statusLabelNetStats w;
     m_statusBtnConnectionStatusIndicator :=
       m_statusBtnConnectionStatusIndicator w;
     m_statusText := m_statusText w;
     m_statusOverrideActive := m_statusOverrideActive w;
     m_constructingTransaction := m_constructingTransaction w;
     m_statusDots := m_statusDots w;
     m_txTimer := m_txTimer w;
     singleShots := singleShots w;
     m_splashDialog := d |}.

(** [setMessage], [setIcon], [show] and [setEnabled(true)] on the splash
    dialog, in this order. *)
Definition splash_show (message icon : QString) (d : SplashDialog)
  : SplashDialog :=
  {| splash_message := message; splash_icon := icon;
     splash_visible := true; splash_enabled := true |}.

Definition splash_hide (d : SplashDialog) : SplashDialog :=
  {| splash_message := splash_message d; splash_icon := splash_icon d;
     splash_visible := false; splash_enabled := splash_enabled d |}.

Section Handlers.

(** What kind of wallet the window shows, and [Utils::formatBytes]. *)
Variable isHwBacked : bool.
Variable isTrezor : bool.
Variable formatBytes : Z -> QString.

(** The default arguments that the declaration of [setStatusText] in
    MainWindow.h gives [override] and [timeout]; a call with the text
    alone passes them. *)
Variable default_override : bool.
Variable default_timeout : Z.

(** [MainWindow::setStatusText], up to the closure it hands to
    [QTimer::singleShot], which is kept as a pending timer and runs as
    [overrideExpired] when it fires. *)
Definition setStatusText (w : Window) (text : QString) (override : bool)
    (timeout : Z) : Window :=
  if override then
    let w := set_override true w in
    let w := set_label text w in
    set_singleShots (singleShots w ++ [timeout]) w
  else
    let w := set_statusText text w in
    if negb (m_statusOverrideActive w) && negb (m_constructingTransaction w)
    then set_label text w
    else w.

(** The closure of the single-shot timer. *)
Definition overrideExpired (w : Window) : Window :=
  let w := set_override false w in
  setStatusText w (m_statusText w) default_override default_timeout.

(** [MainWindow::statusDots]: the counter after the call and the dots. *)
Definition statusDots (w : Window) : Window * QString :=
  let w := set_dots (Cxx.int (m_statusDots w + 1)) w in
  let w := set_dots (Cxx.rem (m_statusDots w) 4) w in
  (w, repeated "." (m_statusDots w)).

(** The closure connected to [m_txTimer]'s [timeout] in the constructor. *)
Definition txTimerTimeout (w : Window) : Window :=
  let '(w, dots) := statusDots w in
  set_label ("Constructing transaction" ++ dots)%string w.

(** [MainWindow::onInitiateTransaction]. *)
Definition onInitiateTransaction (w : Window) : Window :=
  let w := set_dots 0%Z w in
  let w := set_constructing true w in
  let w := set_txTimer true w in
  if isHwBacked then
    let message :=
      "Constructing transaction: action may be required on device." in
    set_splash (splash_show message ":/assets/images/unconfirmed.png"
                  (m_splashDialog w)) w
  else w.

(** [MainWindow::onEndTransaction]. *)
Definition onEndTransaction (w : Window) : Window :=
  let w := set_constructing false w in
  let w := set_txTimer false w in
  let w := setStatusText w (m_statusText w) default_override default_timeout in
  if isHwBacked then set_splash (splash_hide (m_splashDialog w)) w else w.

(** [MainWindow::updateNetStats]; [None] is a wallet pointer that is
    null. *)
Definition updateNetStats (w : Window) (wallet : option WalletNet) : Window :=
  let hide :=
    match wallet with
    | None => true
    | Some n =>
        match connectionStatus n with
        | ConnectionStatus_Disconnected | ConnectionStatus_Synchronized => true
        | _ => false
        end
    end in
  if hide then
    set_netStats {| netstats_text := netstats_text (m_statusLabelNetStats w);
                    netstats_visible := false |} w
  else
    let bytes := match wallet with Some n => getBytesReceived n | None => 0%Z end in
    set_netStats {| netstats_text := arg "(D: %1)" [formatBytes bytes];
                    netstats_visible := true |} w.

(** [MainWindow::onSynchronized]. *)
Definition onSynchronized (w : Window) (wallet : option WalletNet) : Window :=
  let w := updateNetStats w wallet in
  setStatusText w "Synchronized" default_override default_timeout.

(** The text of [onBlockchainSync] and [onRefreshSync] for the blocks that
    remain; [height] and [target] are [int]. *)
Definition blocksRemaining (height target : Z) : QString :=
  if (height <=? target)%Z then number (Cxx.int (target - height)) else "?".

(** [MainWindow::onBlockchainSync]. *)
Definition onBlockchainSync (w : Window) (height target : Z) : Window :=
  let blocks := blocksRemaining height target in
  let heightText := arg "Blockchain sync: %1 blocks remaining" [blocks] in
  setStatusText w heightText default_override default_timeout.

(** [MainWindow::onRefreshSync]. *)
Definition onRefreshSync (w : Window) (height target : Z) : Window :=
  let blocks := blocksRemaining height target in
  let heightText := arg "Wallet sync: %1 blocks remaining" [blocks] in
  setStatusText w heightText default_override default_timeout.

(** [MainWindow::onConnectionStatusChanged]. *)
Definition onConnectionStatusChanged (w : Window) (status : ConnectionStatus)
  : Window :=
  let '(icon, w) :=
    match status with
    | ConnectionStatus_Disconnected =>
        ("status_disconnected.svg", setStatusText w "Disconnected" default_override default_timeout)
    | ConnectionStatus_Connecting =>
        ("status_lagging.svg", setStatusText w "Connecting to node" default_override default_timeout)
    | ConnectionStatus_WrongVersion =>
        ("status_disconnected.svg", setStatusText w "Incompatible node" default_override default_timeout)
    | ConnectionStatus_Synchronizing => ("status_waiting.svg", w)
    | ConnectionStatus_Synchronized => ("status_connected.svg", w)
    | OtherStatus => ("status_disconnected.svg", w)
    end in
  set_icon icon w.

(** [MainWindow::onDeviceButtonRequest]; [code] is a [quint64]. *)
Definition onDeviceButtonRequest (w : Window) (code : Z) : Window :=
  if isTrezor then
    if (code =? 1)%Z then
      set_splash (splash_show
                    "Action required on device: Enter your PIN to continue"
                    ":/assets/images/key.png" (m_splashDialog w)) w
    else if m_constructingTransaction w then w
    else
      set_splash (splash_show "Confirm action on device to proceed"
                    ":/assets/images/confirmed.png" (m_splashDialog w)) w
  else w.

(** [MainWindow::onDeviceButtonPressed]. *)
Definition onDeviceButtonPressed (w : Window) : Window :=
  if m_constructingTransaction w then w
  else set_splash (splash_hide (m_splashDialog w)) w.

(** The signals that reach the status line. *)
Inductive Signal : Type :=
| SetStatusText (text : QString) (override : bool) (timeout : Z)
| SingleShotTimeout (i : nat)
| TxTimerTimeout
| InitiateTransaction
| EndTransaction
| Synchronized (wallet : option WalletNet)
| UpdateBytesTimeout (wallet : option WalletNet)
| BlockchainSync (height target : Z)
| RefreshSync (height target : Z)
| ConnectionStatusChanged (status : ConnectionStatus)
| DeviceButtonRequest (code : Z)
| DeviceButtonPressed.

(** One signal handled.  A single-shot timer fires once and is gone; the
    transaction timer fires only while it runs. *)
Definition handle (w : Window) (s : Signal) : Window :=
  match s with
  | SetStatusText text override timeout => setStatusText w text override timeout
  | SingleShotTimeout i =>
      match nth_error (singleShots w) i with
      | None => w
      | Some _ =>
          overrideExpired
            (set_singleShots (firstn i (singleShots w)
                              ++ skipn (S i) (singleShots w)) w)
      end
  | TxTimerTimeout => if m_txTimer w then txTimerTimeout w else w
  | InitiateTransaction => onInitiateTransaction w
  | EndTransaction => onEndTransaction w
  | Synchronized wallet => onSynchronized w wallet
  | UpdateBytesTimeout wallet => updateNetStats w wallet
  | BlockchainSync height target => onBlockchainSync w height target
  | RefreshSync height target => onRefreshSync w height target
  | ConnectionStatusChanged status => onConnectionStatusChanged w status
  | DeviceButtonRequest code => onDeviceButtonRequest w code
  | DeviceButtonPressed => onDeviceButtonPressed w
  end.

Definition run (w : Window) (signals : list Signal) : Window :=
  fold_left handle signals w.

End Handlers.

(** The message [onInitiateTransaction] puts on the splash dialog. *)
Definition constructingMessage : QString :=
  "Constructing transaction: action may be required on device.".

(** The status text the last of [signals] asked for without override,
    [start] when none did; the handlers that pass the text alone count as
    asking without override. *)
Fixpoint requested (start : QString) (signals : list Signal) : QString :=
  match signals with
  | [] => start
  | s :: tl =>
      requested
        match s with
        | SetStatusText text false _ => text
        | Synchronized _ => "Synchronized"
        | BlockchainSync height target =>
            arg "Blockchain sync: %1 blocks remaining"
                [blocksRemaining height target]
        | RefreshSync height target =>
            arg "Wallet sync: %1 blocks remaining"
                [blocksRemaining height target]
        | ConnectionStatusChanged ConnectionStatus_Disconnected => "Disconnected"
        | ConnectionStatusChanged ConnectionStatus_Connecting =>
            "Connecting to node"
        | ConnectionStatusChanged ConnectionStatus_WrongVersion =>
            "Incompatible node"
        | _ => start
        end tl
  end.

(** The label is free: no override holds it and no transaction is being
    constructed. *)
Definition label_free (w : Window) : Prop :=
  m_statusOverrideActive w = false /\ m_constructingTransaction w = false.

(** The window is settled: the transaction timer runs only during a
    construction, and a free label shows the status text. *)
Definition settled (w : Window) : Prop :=
  (m_txTimer w = true -> m_constructingTransaction w = true)
  /\ (label_free w -> m_statusLabelStatus w = m_statusText w).

(** A window before its first signal: the label reads [Idle] as
    [initStatusBar] sets it, the status text is empty, no flag is set and
    nothing is pending. *)
Definition initial : Window :=
  {| m_statusLabelStatus := "Idle";
     m_statusLabelNetStats :=
       {| netstats_text := EmptyString; netstats_visible := true |};
     m_statusBtnConnectionStatusIndicator := "status_disconnected.svg";
     m_statusText := EmptyString;
     m_statusOverrideActive := false;
     m_constructingTransaction := false;
     m_statusDots := 0%Z;
     m_txTimer := false;
     singleShots := [];
     m_splashDialog :=
       {| splash_message := EmptyString; splash_icon := EmptyString;
          splash_visible := false; splash_enabled := true |} |}.

End StatusLine.

(** ** Transactions that were constructed *)

Module Transactions.

Import QtText.

(** [tx->status()], which the window compares with [Status_Ok] only. *)
Inductive Status : Type := Status_Ok | Status_NotOk.

(** What the window reads from a [PendingTransaction]; [outputs] are the
    addresses of the outputs of [tx->transaction(0)] once [tx->refresh()]
    has run, [txid] the list [tx->txid()]. *)
Record PendingTransaction : Type := {
  status : Status;
  errorString : QString;
  txCount : N;
  outputs : list QString;
  txid : list QString;
  signedTxToHex0 : QString
}.

(** What the window reads from the wallet and the node list. *)
Record Context : Type := {
  connectionStatus : StatusLine.ConnectionStatus;
  viewOnly : bool;
  currentNode : QString;
  tmpTxDescription : QString
}.

(** How the confirmation dialog ends: the code [exec] returns and the
    dialog's [showAdvanced]. *)
Record TxConfResult : Type := {
  code : Z;
  showAdvanced : bool
}.

Definition Rejected : Z := 0.
Definition Accepted : Z := 1.

(** What the handlers do to the outside.  [indexOutOfRange] marks an
    [operator[]] on a list that has no such element: the C++ is undefined
    from there on (Qt asserts), and the run of the handler ends at it. *)
Inductive Event : Type :=
| qCritical (msg : QString)
| qDebug (msg : QString)
| QMessageBox_warning (title text : QString)
| disposeTransaction
| refresh
| addCacheTransaction (txid0 : QString) (txHex : QString)
| TxConfAdvDialog_exec (description : QString) (setTransactionFlag : option bool)
| TxConfDialog_exec (address0 : QString) (description : QString)
| onCancelTransaction
| commitTransaction (description : QString)
| indexOutOfRange (expression : QString).

Definition hintNoDevice : QString :=
  (nl ++ nl
   ++ "This wallet is backed by a hardware device. Make sure the Monero app is opened on the device."
   ++ nl
   ++ "You may need to restart Feather before the device can get detected.")%string.

Definition hintInUse : QString :=
  (nl ++ nl ++ "The device might be in use by a different application.")%string.

Definition hintUpgrade : QString :=
  (nl ++ nl
   ++ "Incompatible version: you may need to upgrade the Monero app on the Ledger device to the latest version.")%string.

Definition hintUnlock : QString :=
  (nl ++ nl ++ "The device may need to be unlocked.")%string.

Definition hintRestart : QString :=
  (nl ++ nl ++ "Restart the hardware device and try again.")%string.

(** The text that [displayWalletErrorMsg] builds from [err]. *)
Definition walletErrorMsg (err : QString) : QString :=
  let errMsg := err in
  let errMsg :=
    if str_contains err "No device found" then (errMsg ++ hintNoDevice)%string
    else errMsg in
  let errMsg :=
    if str_contains errMsg "Unable to open device"
    then (errMsg ++ hintInUse)%string
    else errMsg in
  if str_contains errMsg "SW_CLIENT_NOT_SUPPORTED"
  then (errMsg ++ hintUpgrade)%string
  else if str_contains errMsg "Wrong Device Status"
  then (errMsg ++ hintUnlock)%string
  else if str_contains errMsg "Wrong Channel"
  then (errMsg ++ hintRestart)%string
  else errMsg.

(** [MainWindow::displayWalletErrorMsg]. *)
Definition displayWalletErrorMsg (err : QString) : list Event :=
  [QMessageBox_warning "Wallet error" (walletErrorMsg err)].

Definition hintTooManyInputs : QString :=
  (nl ++ nl
   ++ "Your transaction has too many inputs. Try sending a lower amount.")%string.

(** [MainWindow::onCreateTransactionError]. *)
Definition onCreateTransactionError (message : QString) : list Event :=
  let msg := arg "Error while creating transaction: %1" [message] in
  let msg :=
    if str_contains msg "failed to get random outs"
    then (msg ++ hintTooManyInputs)%string
    else msg in
  [QMessageBox_warning "Transaction failed" msg].

Definition maliciousNodeTemplate : QString :=
  (nl ++ "You are currently connected to: %1" ++ nl ++ nl
   ++ "This node may be acting maliciously. You are strongly recommended to disconnect from this node."
   ++ "Please report this incident to dev@featherwallet.org, #feather on OFTC or /r/FeatherWallet.")%string.

(** [QSet::contains(other)]: every element of [other] is in the set. *)
Definition set_contains (set other : list QString) : bool :=
  forallb (fun x => existsb (String.eqb x) set) other.

Section Handlers.

(** [WalletManager::baseAddressFromIntegratedAddress] at the network type
    of the build. *)
Variable baseAddress : QString -> QString.

(** The three ways [onCreateTransactionSuccess] gives a transaction up:
    the text is logged and shown, the transaction disposed of. *)
Definition giveUp (err : QString) : list Event :=
  [qDebug err] ++ displayWalletErrorMsg err ++ [disposeTransaction].

(** [MainWindow::onCreateTransactionSuccess]; [dialog] is how the
    confirmation dialog ends if it is opened. *)
Definition onCreateTransactionSuccess (ctx : Context) (dialog : TxConfResult)
    (tx : PendingTransaction) (address : list QString) : list Event :=
  let err := "Can't create transaction: " in
  match status tx with
  | Status_NotOk =>
      let tx_err := errorString tx in
      let err :=
        match connectionStatus ctx with
        | StatusLine.ConnectionStatus_WrongVersion =>
            arg "%1 Wrong node version: %2" [err; tx_err]
        | _ => arg "%1 %2" [err; tx_err]
        end in
      let err :=
        if str_contains tx_err
             "Node response did not include the requested real output"
        then (err ++ arg maliciousNodeTemplate [currentNode ctx])%string
        else err in
      [qCritical tx_err] ++ giveUp err
  | Status_Ok =>
      if (txCount tx =? 0)%N then
        giveUp (arg "%1 %2" [err; "No unmixable outputs to sweep."])
      else if (1 <? txCount tx)%N then
        giveUp (arg "%1 %2"
                  [err; "Split transactions are not supported. Try sending a smaller amount."])
      else
        let outputAddresses := map baseAddress (outputs tx) in
        let destAddresses := map baseAddress address in
        if negb (set_contains outputAddresses destAddresses) then
          [refresh]
          ++ giveUp (arg "%1 %2"
                       [err; "Constructed transaction doesn't appear to send to (all) specified destination address(es). Try creating the transaction again."])
        else
          match txid tx with
          | [] => [refresh; indexOutOfRange "tx->txid()[0]"]
          | txid0 :: _ =>
              let cached :=
                [refresh; addCacheTransaction txid0 (signedTxToHex0 tx)] in
              if (1 <? List.length address)%nat || viewOnly ctx then
                cached
                ++ [TxConfAdvDialog_exec (tmpTxDescription ctx)
                      (Some (negb (viewOnly ctx)))]
              else
                match address with
                | [] => cached ++ [indexOutOfRange "address[0]"]
                | address0 :: _ =>
                    let shown :=
                      cached
                      ++ [TxConfDialog_exec address0 (tmpTxDescription ctx)] in
                    let shown :=
                      if (code dialog =? Rejected)%Z then
                        if negb (showAdvanced dialog)
                        then shown ++ [onCancelTransaction]
                        else shown
                      else if (code dialog =? Accepted)%Z then
                        shown ++ [commitTransaction (tmpTxDescription ctx)]
                      else shown in
                    if showAdvanced dialog then
                      shown
                      ++ [TxConfAdvDialog_exec (tmpTxDescription ctx) None]
                    else shown
                end
          end
  end.

End Handlers.

(** The events that act on the transaction beyond giving it up. *)
Definition proceeds (e : Event) : bool :=
  match e with
  | addCacheTransaction _ _ | TxConfAdvDialog_exec _ _ | TxConfDialog_exec _ _
  | onCancelTransaction | commitTransaction _ => true
  | _ => false
  end.


(** The hints [displayWalletErrorMsg] would add if every test were made
    on the text it was given. *)
Definition hintsFor (err : QString) : QString :=
  ((if str_contains err "No device found" then hintNoDevice else "")
   ++ (if str_contains err "Unable to open device" then hintInUse else "")
   ++ (if str_contains err "SW_CLIENT_NOT_SUPPORTED" then hintUpgrade
       else if str_contains err "Wrong Device Status" then hintUnlock
       else if str_contains err "Wrong Channel" then hintRestart
       else ""))%string.

End Transactions.

(** ** The donation reminder *)

Module Donation.

(** [NetworkType::Type]. *)
Inductive NetworkType : Type := MAINNET | TESTNET | STAGENET.

(** What [donationNag] reads from the context and the wallet;
    [balanceAll] is a [quint64]. *)
Record Context : Type := {
  networkType : NetworkType;
  viewOnly : bool;
  balanceAll : N
}.

(** [QMessageBox::Yes]. *)
Definition Yes : Z := 16384.

Inductive Event : Type :=
| QMessageBox_information (title text : QString)
| SendWidget_fill (address description : QString)
| TabWidget_setCurrentIndex_SEND.

Definition nagText : QString :=
  ("Feather is a 100% community-sponsored endeavor. Please consider supporting "
   ++ "the project financially. Get rid of this message by donating any amount.")%string.

Section Handlers.

(** [constants::donationBoundary] and [constants::donationAddress]. *)
Variable donationBoundary : Z.
Variable donationAddress : QString.

(** [MainWindow::donateButtonClicked]. *)
Definition donateButtonClicked : list Event :=
  [SendWidget_fill donationAddress "Donation to the Feather development team";
   TabWidget_setCurrentIndex_SEND].

(** [MainWindow::donationNag]: the value of [Config::donateBeg] after the
    call and what the user saw; [answer] is the button that closes the
    message box if it opens. *)
Definition donationNag (ctx : Context) (answer : Z) (donateBeg : Z)
  : Z * list Event :=
  match networkType ctx with
  | MAINNET =>
      if viewOnly ctx then (donateBeg, [])
      else if (balanceAll ctx =? 0)%N then (donateBeg, [])
      else
        let donationCounter := donateBeg in
        if (donationCounter =? -1)%Z then (donateBeg, [])
        else
          let donationCounter := Cxx.int (donationCounter + 1) in
          let events :=
            if (Cxx.rem donationCounter donationBoundary =? 0)%Z then
              QMessageBox_information "Donate to Feather" nagText
              :: (if (answer =? Yes)%Z then donateButtonClicked else [])
            else [] in
          (donationCounter, events)
  | _ => (donateBeg, [])
  end.

(** The window opened once for each of [answers], the stored counter
    carried from one opening to the next. *)
Fixpoint openings (ctx : Context) (answers : list Z) (donateBeg : Z)
  : Z * list Event :=
  match answers with
  | [] => (donateBeg, [])
  | answer :: tl =>
      let '(c, events) := donationNag ctx answer donateBeg in
      let '(c', events') := openings ctx tl c in
      (c', events ++ events')
  end.

End Handlers.

(** How often the reminder was shown. *)
Fixpoint reminders (events : list Event) : nat :=
  match events with
  | [] => 0
  | QMessageBox_information _ _ :: tl => S (reminders tl)
  | _ :: tl => reminders tl
  end.

(** A wallet the reminder applies to. *)
Definition eligible (ctx : Context) : Prop :=
  networkType ctx = MAINNET /\ viewOnly ctx = false /\ balanceAll ctx <> 0%N.

End Donation.

(** ** The inactivity lock *)

Module Lock.

(** How one password dialog ends: the code [exec] returns and the text
    in its field. *)
Record PasswordAttempt : Type := {
  ret : Z;
  password : QString
}.

(** [QDialog::Rejected]. *)
Definition Rejected : Z := 0.

Inductive Event : Type :=
| PasswordDialog_exec (walletName : QString) (incorrectPassword sensitive : bool)
| qInfo (msg : QString)
| processEvents.

Record Config : Type := {
  inactivityLockEnabled : bool;
  inactivityLockTimeout : Z
}.

(** The members and widgets the lock reads and writes; [closed] is set by
    [close()]. *)
Record Window : Type := {
  m_userLastActive : Z;
  m_checkUserActivity : bool;
  tabWidget_visible : bool;
  statusBar_visible : bool;
  menuBar_visible : bool;
  enabled : bool;
  closed : bool
}.

Section Handlers.

(** [walletName()] and [m_ctx->wallet->getPassword()]. *)
Variable walletName : QString.
Variable walletPassword : QString.

(** [MainWindow::verifyPassword], from the state of [incorrectPassword] on;
    [script] is how the dialogs end, one entry for each that opens.  The
    result is [None] when the script is used up while a dialog is still
    open; the events are the dialogs opened, the last component what is
    left of the script. *)
Fixpoint verifyPassword_from (incorrectPassword sensitive : bool)
    (script : list PasswordAttempt)
  : option bool * list Event * list PasswordAttempt :=
  match script with
  | [] => (None, [PasswordDialog_exec walletName incorrectPassword sensitive], [])
  | a :: rest =>
      if (ret a =? Rejected)%Z then
        (Some false,
         [PasswordDialog_exec walletName incorrectPassword sensitive], rest)
      else if negb (String.eqb (password a) walletPassword) then
        let '(r, events, rest') := verifyPassword_from true sensitive rest in
        (r, PasswordDialog_exec walletName incorrectPassword sensitive :: events,
         rest')
      else
        (Some true,
         [PasswordDialog_exec walletName incorrectPassword sensitive], rest)
  end.

(** [MainWindow::verifyPassword]. *)
Definition verifyPassword (sensitive : bool) (script : list PasswordAttempt)
  : option bool * list Event * list PasswordAttempt :=
  verifyPassword_from false sensitive script.

(** [MainWindow::userActivity] at the time [now]. *)
Definition userActivity (now : Z) (w : Window) : Window :=
  {| m_userLastActive := now;
     m_checkUserActivity := m_checkUserActivity w;
     tabWidget_visible := tabWidget_visible w;
     statusBar_visible := statusBar_visible w;
     menuBar_visible := menuBar_visible w;
     enabled := enabled w;
     closed := closed w |}.

(** The test of [checkUserActivity]: the last activity lies more than the
    timeout, in minutes, before [now].  The product is an [int]. *)
Definition inactive (cfg : Config) (now : Z) (w : Window) : bool :=
  (m_userLastActive w + Cxx.int (inactivityLockTimeout cfg * 60) <? now)%Z.

(** [MainWindow::checkUserActivity] at the time [now];
    [constructingTransaction] is [m_constructingTransaction]. *)
Definition checkUserActivity (cfg : Config) (constructingTransaction : bool)
    (now : Z) (script : list PasswordAttempt) (w : Window)
  : Window * list Event :=
  if negb (inactivityLockEnabled cfg) then (w, [])
  else if constructingTransaction then (w, [])
  else if inactive cfg now w then
    let '(r, dialogs, _) := verifyPassword false script in
    let events := qInfo "Locking wallet for inactivity" :: dialogs in
    match r with
    | Some true =>
        ({| m_userLastActive := m_userLastActive w;
            m_checkUserActivity := true;
            tabWidget_visible := true;
            statusBar_visible := true;
            menuBar_visible := true;
            enabled := enabled w;
            closed := closed w |}, events)
    | Some false =>
        ({| m_userLastActive := m_userLastActive w;
            m_checkUserActivity := false;
            tabWidget_visible := false;
            statusBar_visible := false;
            menuBar_visible := false;
            enabled := false;
            closed := true |}, events ++ [processEvents])
    | None =>
        ({| m_userLastActive := m_userLastActive w;
            m_checkUserActivity := false;
            tabWidget_visible := false;
            statusBar_visible := false;
            menuBar_visible := false;
            enabled := enabled w;
            closed := closed w |}, events)
    end
  else (w, []).

End Handlers.

(** An attempt that neither cancels nor gives the password. *)
Definition wrong (walletPassword : QString) (a : PasswordAttempt) : Prop :=
  ret a <> Rejected /\ password a <> walletPassword.

(** The [incorrectPassword] flags of the dialogs opened. *)
Fixpoint flags (events : list Event) : list bool :=
  match events with
  | [] => []
  | PasswordDialog_exec _ incorrect _ :: tl => incorrect :: flags tl
  | _ :: tl => flags tl
  end.

End Lock.

(** ** The menu of recently opened wallets *)

Module RecentMenu.

(** [MainWindow::menuClearHistoryClicked]: the stored list is removed
    from the configuration, which then answers with the default of the
    key, [defaultRecent]. *)
Definition menuClearHistoryClicked (defaultRecent : list QString) (w : World)
  : World :=
  updateRecentlyOpenedMenu (set_recent defaultRecent w).

(** The menu shows the stored list: one action for each stored wallet, in
    order, labelled with the file name, then the separator and the action
    that clears the history. *)
Definition mirrors (w : World) : Prop :=
  menuRecently_open w
  = map (fun walletPath =>
           Action (fileName_from EmptyString walletPath) walletPath)
      (recentlyOpenedWallets (config w))
    ++ [Separator; ClearRecentlyOpenAction].

(** The wallet paths that the actions of a menu open. *)
Fixpoint opens (menu : list MenuItem) : list QString :=
  match menu with
  | [] => []
  | Action _ walletPath :: tl => walletPath :: opens tl
  | _ :: tl => opens tl
  end.

(** What happens while the window is open.  The stored list is kept by
    [config()], which the windows of the process share: the history is
    cleared from this window's menu, one of the inputs of this window
    arrives, or another window writes the stored list, when it is
    constructed ([onWalletOpened] ends in [addToRecentlyOpened]) or when
    its history is cleared.  What another window does to its own menu is
    not this window's. *)
Inductive Step : Type :=
| ClearHistory
| Arrives (i : Input)
| OtherWindowOpened (keysFile : QString)
| OtherWindowCleared.

Definition step (X : Externals) (defaultRecent : list QString) (w : World)
    (s : Step) : World :=
  match s with
  | ClearHistory => menuClearHistoryClicked defaultRecent w
  | Arrives i => handle X w i
  | OtherWindowOpened keysFile =>
      set_recent
        (recentlyOpenedWallets (config (addToRecentlyOpened X w keysFile))) w
  | OtherWindowCleared => set_recent defaultRecent w
  end.

Definition steps (X : Externals) (defaultRecent : list QString) (w : World)
    (l : list Step) : World :=
  fold_left (step X defaultRecent) l w.

(** The steps in which this window rebuilds its menu. *)
Definition rebuilds (s : Step) : bool :=
  match s with
  | ClearHistory | Arrives (WalletOpened _) => true
  | _ => false
  end.

(** The steps of other windows. *)
Definition elsewhere (s : Step) : bool :=
  match s with
  | OtherWindowOpened _ | OtherWindowCleared => true
  | _ => false
  end.

End RecentMenu.

(** ** Qt's sorted map *)

Module QMap.

(** [key] comes before every key of [entries] in the order of
    [QString::operator<]. *)
Definition below (key : QString) (entries : list (QString * QString))
  : bool :=
  forallb (fun e => match String.compare key (fst e) with
                    | Lt => true
                    | _ => false
                    end) entries.

(** The keys go up from each entry to all that follow: no key twice. *)
Fixpoint ascending (entries : list (QString * QString)) : bool :=
  match entries with
  | [] => true
  | (key, _) :: tl => below key tl && ascending tl
  end.

(** [QMap<QString, QString>]: one value for each key, and the entries in
    the order in which an iterator walks them, by ascending key. *)
Record t : Type := {
  entries : list (QString * QString);
  ordered : ascending entries = true
}.

End QMap.

(** ** Exports and imports *)

Module Files.

Import QtText.

Inductive Event : Type :=
| QFileDialog_getSaveFileName (caption dir filter : QString)
| QFileDialog_getOpenFileName (caption dir filter : QString)
| History_writeCSV (fn : QString)
| Wallet_exportKeyImages (fn : QString) (all : bool)
| Wallet_exportOutputs (fn : QString) (all : bool)
| AddressBook_addRow (address description name : QString)
| QMessageBox_information (title text : QString)
| QMessageBox_warning (title text : QString).

(** [fn] with [suffix] added unless it ends with it. *)
Definition withSuffix (fn suffix : QString) : QString :=
  if negb (endsWith fn suffix) then (fn ++ suffix)%string else fn.

Section Handlers.

(** [QDir::homePath()]. *)
Variable homePath : QString.

(** [MainWindow::onExportHistoryCSV]; [hasWallet] is whether the wallet
    pointer is set, [chosen] what the file dialog returns. *)
Definition onExportHistoryCSV (hasWallet : bool) (chosen : QString)
  : list Event :=
  if negb hasWallet then []
  else
    let fn := chosen in
    let dialog :=
      QFileDialog_getSaveFileName "Save CSV file" homePath "CSV (*.csv)" in
    if isEmpty fn then [dialog]
    else
      let fn := withSuffix fn ".csv" in
      [dialog; History_writeCSV fn;
       QMessageBox_information "CSV export"
         (arg "Transaction history exported to %1" [fn])].

(** [MainWindow::exportKeyImages]; [now] is [currentSecsSinceEpoch()],
    [r] and [errorString] what the wallet answers. *)
Definition exportKeyImages (walletName : QString) (now : Z)
    (chosen : QString) (r : bool) (errorString : QString) : list Event :=
  let dialog :=
    QFileDialog_getSaveFileName "Save key images to file"
      (arg "%1/%2_%3" [homePath; walletName; number now])
      "Key Images (*_keyImages)" in
  let fn := chosen in
  if isEmpty fn then [dialog]
  else
    let fn := withSuffix fn "_keyImages" in
    [dialog; Wallet_exportKeyImages fn true;
     if negb r then
       QMessageBox_warning "Key image export"
         (arg ("Failed to export key images." ++ nl ++ "Reason: %1")
              [errorString])
     else
       QMessageBox_information "Key image export"
         "Successfully exported key images."].

(** [MainWindow::exportOutputs]. *)
Definition exportOutputs (walletName : QString) (now : Z)
    (chosen : QString) (r : bool) (errorString : QString) : list Event :=
  let dialog :=
    QFileDialog_getSaveFileName "Save outputs to file"
      (arg "%1/%2_%3" [homePath; walletName; number now])
      "Outputs (*_outputs)" in
  let fn := chosen in
  if isEmpty fn then [dialog]
  else
    let fn := withSuffix fn "_outputs" in
    [dialog; Wallet_exportOutputs fn true;
     if negb r then
       QMessageBox_warning "Outputs export"
         (arg ("Failed to export outputs." ++ nl ++ "Reason: %1")
              [errorString])
     else
       QMessageBox_information "Outputs export"
         "Successfully exported outputs."].

(** [WalletManager::addressValid] at the wallet's network type. *)
Variable addressValid : QString -> bool.

(** The loop of [importContacts] over the entries the iterator has not
    passed yet: the rows added and the count, an [int]. *)
Fixpoint importRows (rows : list (QString * QString)) (inserts : Z)
  : list Event * Z :=
  match rows with
  | [] => ([], inserts)
  | (key, value) :: tl =>
      if addressValid value then
        let '(events, n) := importRows tl (Cxx.int (inserts + 1)) in
        (AddressBook_addRow value EmptyString key :: events, n)
      else importRows tl inserts
  end.

(** [MainWindow::importContacts]; [contacts] is the map from names to
    addresses that [readCSV] returns for the chosen file.  What [readCSV]
    makes of the rows of a file is not in the sources at hand. *)
Definition importContacts (chosen : QString) (contacts : QMap.t)
  : list Event :=
  let dialog :=
    QFileDialog_getOpenFileName "Import CSV file" homePath
      "CSV Files (*.csv)" in
  if isEmpty chosen then [dialog]
  else
    let '(events, inserts) := importRows (QMap.entries contacts) 0%Z in
    dialog :: events
    ++ [QMessageBox_information "Contacts imported"
          (arg "Total contacts imported: %1" [number inserts])].

End Handlers.

(** The file names a list of events writes to. *)
Fixpoint written (events : list Event) : list QString :=
  match events with
  | [] => []
  | History_writeCSV fn :: tl => fn :: written tl
  | Wallet_exportKeyImages fn _ :: tl => fn :: written tl
  | Wallet_exportOutputs fn _ :: tl => fn :: written tl
  | _ :: tl => written tl
  end.

(** The rows a list of events adds to the address book, as
    (name, address). *)
Fixpoint added (events : list Event) : list (QString * QString) :=
  match events with
  | [] => []
  | AddressBook_addRow address _ name :: tl => (name, address) :: added tl
  | _ :: tl => added tl
  end.

(** The property of an exported file's name: it ends with [suffix], it is
    the chosen name or that name with the suffix added, and it is the
    chosen name if that ended with the suffix. *)
Definition suffixed (chosen suffix fn : QString) : Prop :=
  chosen <> EmptyString
  /\ (exists pre, fn = (pre ++ suffix)%string)
  /\ (fn = chosen \/ fn = (chosen ++ suffix)%string)
  /\ (endsWith chosen suffix = true -> fn = chosen)
  /\ withSuffix fn suffix = fn.

End Files.

(** ** The hardware device and the keys *)

Module Device.

(** [QMessageBox::Yes] and [QMessageBox::No]. *)
Definition Yes : Z := 16384.
Definition No : Z := 65536.

(** How one question about the lost connection ends: the button, and what
    [reconnectDevice] returns if it is tried. *)
Record Answer : Type := {
  button : Z;
  reconnects : bool
}.

Inductive Event : Type :=
| QMessageBox_question (title text : QString)
| QMessageBox_warning (title text : QString)
| Wallet_reconnectDevice
| Wallet_startRefresh
| menuWalletCloseClicked
| SendWidget_disableSendButton.

Record Window : Type := {
  m_showDeviceError : bool;
  m_statusBtnHwDevice_icon : QString;
  m_criticalWarningShown : bool
}.

Section Handlers.

(** What kind of device backs the wallet, and [ColorScheme::darkScheme]. *)
Variable isLedger : bool.
Variable isTrezor : bool.
Variable darkScheme : bool.

(** [MainWindow::hardwareDevicePairedIcon], as the name of the icon. *)
Definition hardwareDevicePairedIcon : QString :=
  if isLedger then "ledger.png"
  else if isTrezor then
    if darkScheme then "trezor_white.png" else "trezor.png"
  else EmptyString.

(** [MainWindow::hardwareDeviceUnpairedIcon]. *)
Definition hardwareDeviceUnpairedIcon : QString :=
  if isLedger then "ledger_unpaired.png"
  else if isTrezor then
    if darkScheme then "trezor_unpaired_white.png" else "trezor_unpaired.png"
  else EmptyString.

Definition set_deviceError (flag : bool) (icon : QString) (w : Window)
  : Window :=
  {| m_showDeviceError := flag;
     m_statusBtnHwDevice_icon := icon;
     m_criticalWarningShown := m_criticalWarningShown w |}.

(** The loop of [onDeviceError] over the answers that are left; the
    window it is entered with has the flag set and the unpaired icon. *)
Fixpoint reconnectLoop (script : list Answer) (w : Window)
  : Window * list Event :=
  let question :=
    QMessageBox_question "Hardware device"
      "Lost connection to hardware device. Attempt to reconnect?" in
  match script with
  | [] => (w, [question])
  | a :: rest =>
      if (button a =? Yes)%Z then
        if reconnects a then
          (set_deviceError false hardwareDevicePairedIcon w,
           [question; Wallet_reconnectDevice; Wallet_startRefresh])
        else
          let '(w', events) := reconnectLoop rest w in
          (w', question :: Wallet_reconnectDevice :: events)
      else if (button a =? No)%Z then
        (w, [question; menuWalletCloseClicked])
      else
        let '(w', events) := reconnectLoop rest w in
        (w', question :: events)
  end.

(** [MainWindow::onDeviceError]; [script] is how the questions end, one
    entry for each that is asked. *)
Definition onDeviceError (script : list Answer) (w : Window)
  : Window * list Event :=
  if m_showDeviceError w then (w, [])
  else reconnectLoop script (set_deviceError true hardwareDeviceUnpairedIcon w).

End Handlers.

(** An answer that ends the questions: a Yes whose reconnection succeeds,
    or a No. *)
Definition decisive (a : Answer) : bool :=
  ((button a =? Yes)%Z && reconnects a) || (button a =? No)%Z.

(** What one answer shows in the events: the question, and the attempt to
    reconnect after a Yes. *)
Definition asked (a : Answer) : list Event :=
  QMessageBox_question "Hardware device"
    "Lost connection to hardware device. Attempt to reconnect?"
  :: (if (button a =? Yes)%Z then [Wallet_reconnectDevice] else []).

Definition keysCorruptedText : QString :=
  ("WARNING!" ++ QtText.nl ++ QtText.nl ++ "The wallet keys are corrupted."
   ++ QtText.nl ++ QtText.nl
   ++ "To prevent LOSS OF FUNDS do NOT continue to use this wallet file."
   ++ QtText.nl ++ QtText.nl ++ "Restore your wallet from seed."
   ++ QtText.nl ++ QtText.nl
   ++ "Please report this incident to the Feather developers."
   ++ QtText.nl ++ QtText.nl ++ "WARNING!")%string.

(** [MainWindow::onKeysCorrupted]. *)
Definition onKeysCorrupted (w : Window) : Window * list Event :=
  if negb (m_criticalWarningShown w) then
    ({| m_showDeviceError := m_showDeviceError w;
        m_statusBtnHwDevice_icon := m_statusBtnHwDevice_icon w;
        m_criticalWarningShown := true |},
     [QMessageBox_warning "Critical error" keysCorruptedText;
      SendWidget_disableSendButton])
  else (w, []).

(** [n] signals that the keys are corrupted, one after the other. *)
Fixpoint keysCorruptedTimes (n : nat) (w : Window) : Window * list Event :=
  match n with
  | O => (w, [])
  | S k =>
      let '(w1, e1) := onKeysCorrupted w in
      let '(w2, e2) := keysCorruptedTimes k w1 in
      (w2, e1 ++ e2)
  end.

End Device.

(** ** A wallet at work *)

Module Scenario.

(** Byte counts written in plain bytes. *)
Definition formatBytes (n : Z) : QString := (QtText.number n ++ " B")%string.

(** The status line once the window has asked for its first text. *)
Definition connecting : StatusLine.Window :=
  StatusLine.setStatusText StatusLine.initial "Connecting to node" false 0%Z.


Definition inFlight (version : QString) : Connection :=
  {| request_url :=
       ("https://featherwallet.org/files/releases/hashes-" ++ version
        ++ "-plain.txt")%string;
     bound_platformTag := "linux";
     bound_version := version |}.


(** No address is an integrated address. *)
Definition baseAddress (a : QString) : QString := a.

Definition wallet : Transactions.Context :=
  {| Transactions.connectionStatus := StatusLine.ConnectionStatus_Synchronized;
     Transactions.viewOnly := false;
     Transactions.currentNode := "node.example:18081";
     Transactions.tmpTxDescription := "rent" |}.

Definition accepted : Transactions.TxConfResult :=
  {| Transactions.code := Transactions.Accepted;
     Transactions.showAdvanced := false |}.


(** The same payment split in two transactions. *)
Definition splitPayment : Transactions.PendingTransaction :=
  {| Transactions.status := Transactions.Status_Ok;
     Transactions.errorString := EmptyString;
     Transactions.txCount := 2%N;
     Transactions.outputs := ["4Dest"; "4Change"];
     Transactions.txid := ["abcd"; "ef01"];
     Transactions.signedTxToHex0 := "00ff" |}.

(** A main-net wallet with funds. *)
Definition funded : Donation.Context :=
  {| Donation.networkType := Donation.MAINNET;
     Donation.viewOnly := false;
     Donation.balanceAll := 5%N |}.

(** [QMessageBox::No]. *)
Definition No : Z := 65536.

(** The lock after ten minutes. *)
Definition lockAfterTen : Lock.Config :=
  {| Lock.inactivityLockEnabled := true; Lock.inactivityLockTimeout := 10 |}.

(** A window last used at second 1000. *)
Definition shown : Lock.Window :=
  {| Lock.m_userLastActive := 1000;
     Lock.m_checkUserActivity := true;
     Lock.tabWidget_visible := true;
     Lock.statusBar_visible := true;
     Lock.menuBar_visible := true;
     Lock.enabled := true;
     Lock.closed := false |}.

Definition typo : Lock.PasswordAttempt :=
  {| Lock.ret := 1; Lock.password := "hunter3" |}.

Definition right : Lock.PasswordAttempt :=
  {| Lock.ret := 1; Lock.password := "hunter2" |}.

(** The contacts read from a file: the address of bob is not valid. *)
Definition contacts : QMap.t :=
  {| QMap.entries := [("alice", "4A"); ("bob", "bad"); ("carol", "4C")];
     QMap.ordered := eq_refl |}.

Definition addressValid (address : QString) : bool :=
  String.prefix "4" address.

Definition yesFails : Device.Answer :=
  {| Device.button := Device.Yes; Device.reconnects := false |}.

Definition yesWorks : Device.Answer :=
  {| Device.button := Device.Yes; Device.reconnects := true |}.

Definition no : Device.Answer :=
  {| Device.button := Device.No; Device.reconnects := false |}.

(** A window whose Ledger is connected. *)
Definition paired : Device.Window :=
  {| Device.m_showDeviceError := false;
     Device.m_statusBtnHwDevice_icon := "ledger.png";
     Device.m_criticalWarningShown := false |}.

End Scenario.

(** * Properties *)

Create Rewrite HintDb trace.

(** Rewrites the four readings of a trace through appended events. *)
Ltac read_trace :=
  cbn [trace emit set_button set_replies set_balance set_recent set_menu
       m_statusUpdateAvailable replies config];
  autorewrite with trace;
  cbn [notified fetched verified dialogs app].

(** ** Strings and bytes *)

Example arg_hashes :
  arg "%1/files/releases/hashes-%2-plain.txt" ["https://h.org"; "1.3.0-beta"]
  = "https://h.org/files/releases/hashes-1.3.0-beta-plain.txt".
Proof. reflexivity. Qed.

Example replace_beta : replace "beta" "Beta" "1.3.0-beta" = "1.3.0-Beta".
Proof. reflexivity. Qed.

Example toHex_bytes : toHex [x00; xab; xff; x10] = "00abff10".
Proof. reflexivity. Qed.

(** The three templates of the update flow, whatever is substituted. *)
Lemma arg_hashesUrl (host version : QString) :
  arg "%1/files/releases/hashes-%2-plain.txt" [host; version]
  = (host ++ "/files/releases/hashes-" ++ version ++ "-plain.txt")%string.
Proof. reflexivity. Qed.

Lemma arg_binaryFilename (version platformTag : QString) :
  arg "feather-%1-%2.zip" [version; platformTag]
  = ("feather-" ++ version ++ "-" ++ platformTag ++ ".zip")%string.
Proof. reflexivity. Qed.

Lemma append_empty (s : QString) : (s ++ "")%string = s.
Proof. induction s as [|c s IH]; cbn; [reflexivity|now rewrite IH]. Qed.

Lemma arg_downloadUrl (platformTag binaryFilename : QString) :
  arg "https://featherwallet.org/files/releases/%1/%2"
      [platformTag; binaryFilename]
  = ("https://featherwallet.org/files/releases/" ++ platformTag ++ "/"
     ++ binaryFilename)%string.
Proof.
  rewrite <- (append_empty binaryFilename) at 2. reflexivity.
Qed.

Lemma fromHex_byte (x : byte) (s : QString) :
  fromHex (toHex [x] ++ s)
  = match fromHex s with Some r => Some (x :: r) | None => None end.
Proof. destruct x; cbn; destruct (fromHex s); reflexivity. Qed.

(** [toHex] loses nothing: the bytes are read back from the digits. *)
Lemma fromHex_toHex (b : QByteArray) : fromHex (toHex b) = Some b.
Proof.
  induction b as [|x b IH]; [reflexivity|].
  change (toHex (x :: b)) with (toHex [x] ++ toHex b)%string.
  rewrite fromHex_byte, IH. reflexivity.
Qed.

Lemma toHex_inj (a b : QByteArray) : toHex a = toHex b -> a = b.
Proof.
  intros H. assert (E : Some a = Some b)
    by (rewrite <- (fromHex_toHex a), <- (fromHex_toHex b), H; reflexivity).
  now inversion E.
Qed.

Lemma toHex_nonempty (b : QByteArray) :
  ba_isEmpty b = false -> isEmpty (toHex b) = false.
Proof. destruct b; [discriminate|reflexivity]. Qed.

(** ** The order of semantic versions *)

Section VersionOrder.

Import SemanticVersion.

Lemma lex_lt_compare (s u : QString) :
  lex_lt s u <-> String.compare s u = Lt.
Proof.
  split.
  - induction 1 as [c s|c d s u Hcd|c s u _ IH]; cbn.
    + reflexivity.
    + unfold Ascii.compare. apply N.compare_lt_iff in Hcd. now rewrite Hcd.
    + unfold Ascii.compare. now rewrite N.compare_refl.
  - revert u. induction s as [|c s IH]; intros [|d u]; cbn; try discriminate.
    + intros _. constructor.
    + unfold Ascii.compare.
      destruct (N.compare (N_of_ascii c) (N_of_ascii d)) eqn:E;
        try discriminate.
      * apply N.compare_eq_iff in E.
        assert (c = d) as ->.
        { rewrite <- (ascii_N_embedding c), <- (ascii_N_embedding d).
          now rewrite E. }
        intros H. apply lex_tail, IH, H.
      * intros _. apply lex_head. now apply N.compare_lt_iff.
Qed.

Lemma compare_antisym (a b : t) : compare b a = CompOpp (compare a b).
Proof.
  destruct a as [|a1 a2 a3 g], b as [|b1 b2 b3 h]; cbn; try reflexivity.
  rewrite (N.compare_antisym a1 b1), (N.compare_antisym a2 b2),
    (N.compare_antisym a3 b3), (String.compare_antisym h g).
  destruct (N.compare a1 b1), (N.compare a2 b2), (N.compare a3 b3);
    reflexivity.
Qed.

Lemma compare_eq (a b : t) : compare a b = Eq <-> a = b.
Proof.
  split.
  - destruct a as [|a1 a2 a3 g], b as [|b1 b2 b3 h]; cbn; try discriminate;
      [reflexivity|].
    destruct (N.compare a1 b1) eqn:E1; try discriminate.
    destruct (N.compare a2 b2) eqn:E2; try discriminate.
    destruct (N.compare a3 b3) eqn:E3; try discriminate.
    intros E4.
    apply N.compare_eq_iff in E1, E2, E3.
    apply String.compare_eq_iff in E4. now subst.
  - intros <-. destruct a as [|a1 a2 a3 g]; cbn; [reflexivity|].
    rewrite !N.compare_refl.
    induction g as [|c g IH]; cbn; [reflexivity|].
    unfold Ascii.compare. now rewrite N.compare_refl.
Qed.

(** The comparison the code runs decides the ordering the spec words. *)
Lemma greater_compare (a b : t) : greater a b <-> compare a b = Gt.
Proof.
  split.
  - destruct 1 as [| ? ? ? ? ? ? ? ? H|? ? ? ? ? ? ? H|? ? ? ? ? ? H|? ? ? ? ? H];
      cbn; rewrite ?N.compare_refl; try reflexivity.
    + apply N.compare_gt_iff in H. now rewrite H.
    + apply N.compare_gt_iff in H. now rewrite H.
    + apply N.compare_gt_iff in H. now rewrite H.
    + apply lex_lt_compare in H.
      rewrite String.compare_antisym, H. reflexivity.
  - destruct a as [|a1 a2 a3 g], b as [|b1 b2 b3 h]; cbn; try discriminate.
    + intros _. constructor.
    + destruct (N.compare a1 b1) eqn:E1; try discriminate.
      * apply N.compare_eq_iff in E1. subst b1.
        destruct (N.compare a2 b2) eqn:E2; try discriminate.
        -- apply N.compare_eq_iff in E2. subst b2.
           destruct (N.compare a3 b3) eqn:E3; try discriminate.
           ++ apply N.compare_eq_iff in E3. subst b3.
              intros H. apply greater_tag, lex_lt_compare.
              rewrite String.compare_antisym, H. reflexivity.
           ++ intros _. apply greater_patch. now apply N.compare_gt_iff.
        -- intros _. apply greater_minor. now apply N.compare_gt_iff.
      * intros _. apply greater_major. now apply N.compare_gt_iff.
Qed.

(** The ordering is total: of two versions one is the later, or they are
    the same. *)
Lemma greater_total (a b : t) : greater a b \/ a = b \/ greater b a.
Proof.
  destruct (compare a b) eqn:E.
  - right; left. now apply compare_eq.
  - right; right. apply greater_compare.
    rewrite compare_antisym, E. reflexivity.
  - left. now apply greater_compare.
Qed.

Lemma isNewer_greater (a b : t) : isNewer a b = true <-> greater a b.
Proof.
  rewrite greater_compare. unfold isNewer, le.
  destruct (compare a b); cbn; split; congruence.
Qed.

Lemma isNewer_irrefl (a : t) : isNewer a a = false.
Proof.
  unfold isNewer, le. now rewrite (proj2 (compare_eq a a) eq_refl).
Qed.

Lemma isNewer_asym (a b : t) : isNewer a b = true -> isNewer b a = false.
Proof.
  unfold isNewer, le. rewrite (compare_antisym a b).
  destruct (compare a b); cbn; congruence.
Qed.

Lemma lex_lt_trans (s u v : QString) :
  lex_lt s u -> lex_lt u v -> lex_lt s v.
Proof.
  intros H. revert v.
  induction H as [c s|c d s u Hcd|c s u _ IH]; intros v Hv;
    inversion Hv; subst.
  - constructor.
  - constructor.
  - apply lex_head. lia.
  - now apply lex_head.
  - now apply lex_head.
  - apply lex_tail. now apply IH.
Qed.

(** The ordering is transitive, so with [greater_total] and
    [isNewer_irrefl] it is a strict total order. *)
Lemma greater_trans (a b c : t) : greater a b -> greater b c -> greater a c.
Proof.
  intros Hab Hbc.
  inversion Hab; subst; inversion Hbc; subst;
    try (constructor; lia);
    try (constructor; assumption).
  apply greater_tag. eapply lex_lt_trans; eassumption.
Qed.

(** A string that does not parse is never newer. *)
Lemma isNewer_Invalid (b : t) : isNewer Invalid b = false.
Proof. destruct b; reflexivity. Qed.

Example fromString_beta :
  fromString "1.3.0-beta" = Version 1 3 0 "beta".
Proof. reflexivity. Qed.

Example fromString_garbage : fromString "latest" = Invalid.
Proof. reflexivity. Qed.

Example isNewer_scenario :
  isNewer (fromString "1.3.0-beta") (fromString "1.2.0") = true.
Proof. reflexivity. Qed.

End VersionOrder.

(** ** Reading a trace *)

Lemma notified_app (t u : list Event) :
  notified (t ++ u) = notified t ++ notified u.
Proof.
  induction t as [|e t IH]; [reflexivity|].
  destruct e; cbn; rewrite IH; reflexivity.
Qed.

Lemma fetched_app (t u : list Event) :
  fetched (t ++ u) = fetched t ++ fetched u.
Proof.
  induction t as [|e t IH]; [reflexivity|].
  destruct e; cbn; rewrite IH; reflexivity.
Qed.

Lemma verified_app (t u : list Event) :
  verified (t ++ u) = verified t ++ verified u.
Proof.
  induction t as [|e t IH]; [reflexivity|].
  destruct e; cbn; rewrite IH; reflexivity.
Qed.

Lemma dialogs_app (t u : list Event) :
  dialogs (t ++ u) = dialogs t ++ dialogs u.
Proof.
  induction t as [|e t IH]; [reflexivity|].
  destruct e; cbn; rewrite IH; reflexivity.
Qed.

#[local] Hint Rewrite notified_app fetched_app verified_app dialogs_app
  app_nil_r : trace.

(** ** The handlers, case by case *)

Section HandlerCases.

Variable X : Externals.

Lemma set_replies_same (w : World) : set_replies (replies w) w = w.
Proof. destruct w; reflexivity. Qed.

(** A failed fetch: one warning, nothing else. *)
Lemma onSignedHashesReceived_error w reply platformTag version :
  error reply <> NoError ->
  onSignedHashesReceived X w reply platformTag version
  = emit (qWarning ["Unable to fetch signed hashes: "; errorString reply]) w.
Proof.
  intros H. unfold onSignedHashesReceived.
  destruct (Z.eqb_spec (error reply) NoError) as [E|_]; [contradiction|].
  reflexivity.
Qed.

(** The verifier throws: its run and one warning, nothing else. *)
Lemma onSignedHashesReceived_throws w reply platformTag version what s :
  error reply = NoError ->
  verifyParseSignedHashes X (readAll reply)
    (arg "feather-%1-%2.zip" [version; platformTag]) = Throws what s ->
  onSignedHashesReceived X w reply platformTag version
  = emit (qWarning ["Failed to fetch and verify signed hash: "; what])
      (emit (VerifyRun (readAll reply)
               (arg "feather-%1-%2.zip" [version; platformTag])) w).
Proof.
  intros E H. unfold onSignedHashesReceived.
  rewrite E, H. reflexivity.
Qed.

(** The verifier returns no bytes: its run, nothing else. *)
Lemma onSignedHashesReceived_empty w reply platformTag version s :
  error reply = NoError ->
  verifyParseSignedHashes X (readAll reply)
    (arg "feather-%1-%2.zip" [version; platformTag]) = Returns [] s ->
  onSignedHashesReceived X w reply platformTag version
  = emit (VerifyRun (readAll reply)
            (arg "feather-%1-%2.zip" [version; platformTag])) w.
Proof.
  intros E H. unfold onSignedHashesReceived.
  rewrite E, H. reflexivity.
Qed.

(** The verifier returns a hash: the notification boundary is reached. *)
Lemma onSignedHashesReceived_hash w reply platformTag version h s :
  error reply = NoError ->
  verifyParseSignedHashes X (readAll reply)
    (arg "feather-%1-%2.zip" [version; platformTag]) = Returns h s ->
  ba_isEmpty h = false ->
  onSignedHashesReceived X w reply platformTag version
  = onCheckUpdatesComplete
      (emit (qInfo ["Update found: ";
                    arg "feather-%1-%2.zip" [version; platformTag];
                    toHex h; "signed by:"; s])
         (emit (VerifyRun (readAll reply)
                  (arg "feather-%1-%2.zip" [version; platformTag])) w))
      version (arg "feather-%1-%2.zip" [version; platformTag]) (toHex h) s.
Proof.
  intros E H Hh. unfold onSignedHashesReceived.
  rewrite E, H. cbn [Z.eqb negb]. rewrite Z.eqb_refl. cbn [negb].
  rewrite Hh. reflexivity.
Qed.

(** The slot never touches the replies in flight. *)
Lemma onSignedHashesReceived_replies w reply platformTag version :
  replies (onSignedHashesReceived X w reply platformTag version) = replies w.
Proof.
  unfold onSignedHashesReceived.
  destruct (negb _); [reflexivity|].
  destruct (verifyParseSignedHashes X _ _) as [what s|h s].
  - reflexivity.
  - destruct (ba_isEmpty h); reflexivity.
Qed.

(** What [onCheckUpdatesComplete] leaves behind. *)
Lemma onCheckUpdatesComplete_spec w version binaryFilename hash signer :
  let w' := onCheckUpdatesComplete w version binaryFilename hash signer in
  trace w' = trace w ++ [CheckUpdatesComplete version binaryFilename hash signer]
  /\ m_statusUpdateAvailable w'
     = {| text := arg "Update to Feather %1 is available"
                      [replace "beta" "Beta" version];
          toolTip := "Click to Download update.";
          visible := true;
          clicked := [ShowUpdateCheck version binaryFilename hash signer] |}
  /\ replies w' = replies w.
Proof. repeat split. Qed.

(** A feed that announces a newer version for this platform. *)
Lemma onUpdatesAvailable_newer w updates newVersion :
  isEmpty (getPlatformTag X) = false ->
  value (toObject (value (toObject (value updates "platform"))
                     (getPlatformTag X))) "version" = JString newVersion ->
  le X (fromString X newVersion) (fromString X (FEATHER_VERSION X)) = false ->
  onUpdatesAvailable X w updates
  = network_get w
      (arg "%1/files/releases/hashes-%2-plain.txt" [websiteUrl X; newVersion])
      (getPlatformTag X) newVersion.
Proof.
  intros Htag Hver Hle. unfold onUpdatesAvailable.
  rewrite Htag.
  destruct (toObject (value (toObject (value updates "platform"))
                        (getPlatformTag X))) as [|kv o] eqn:Eo.
  - discriminate Hver.
  - cbn [obj_isEmpty]. rewrite Hver. cbn [toString]. rewrite Hle. reflexivity.
Qed.

(** A feed whose version is not newer: the handler returns at once. *)
Lemma onUpdatesAvailable_not_newer w updates :
  le X (fromString X
          (toString (value (toObject (value (toObject (value updates "platform"))
                                        (getPlatformTag X))) "version")))
       (fromString X (FEATHER_VERSION X)) = true ->
  onUpdatesAvailable X w updates = w
  \/ exists msg, onUpdatesAvailable X w updates = emit (qWarning msg) w.
Proof.
  intros Hle. unfold onUpdatesAvailable.
  destruct (isEmpty (getPlatformTag X)); [right; eauto|].
  destruct (obj_isEmpty _); [right; eauto|].
  rewrite Hle. now left.
Qed.

(** From an idle window, a check for a newer version is the request
    followed by the slot on the network's answer. *)
Lemma updateCheck_newer net w updates newVersion :
  replies w = [] ->
  isEmpty (getPlatformTag X) = false ->
  value (toObject (value (toObject (value updates "platform"))
                     (getPlatformTag X))) "version" = JString newVersion ->
  le X (fromString X newVersion) (fromString X (FEATHER_VERSION X)) = false ->
  updateCheck X net w updates
  = onSignedHashesReceived X
      (emit (NetworkGet (arg "%1/files/releases/hashes-%2-plain.txt"
                           [websiteUrl X; newVersion])) w)
      (net (arg "%1/files/releases/hashes-%2-plain.txt"
              [websiteUrl X; newVersion]))
      (getPlatformTag X) newVersion.
Proof.
  intros Hidle Htag Hver Hle. unfold updateCheck.
  rewrite (onUpdatesAvailable_newer w updates newVersion Htag Hver Hle).
  destruct w as [b l t c m r tr]. cbn in Hidle. subst r. reflexivity.
Qed.

End HandlerCases.

(** ** The update check *)

(** The slot notifies nothing unless the fetch succeeded and the verifier
    returned a hash for the expected file name. *)
Lemma notified_only_from_hash
    (X : Externals) (w : World) (reply : QNetworkReply)
    (platformTag version : QString) :
  notified (trace (onSignedHashesReceived X w reply platformTag version))
  <> notified (trace w) ->
  exists h s,
    error reply = NoError
    /\ verifyParseSignedHashes X (readAll reply)
         (arg "feather-%1-%2.zip" [version; platformTag]) = Returns h s
    /\ h <> []
    /\ notified (trace (onSignedHashesReceived X w reply platformTag version))
       = notified (trace w)
         ++ [{| vu_version := version;
                vu_binaryFilename :=
                  arg "feather-%1-%2.zip" [version; platformTag];
                vu_hash := toHex h; vu_signer := s |}].
Proof.
  destruct (Z.eq_dec (error reply) NoError) as [E|E].
  - destruct (verifyParseSignedHashes X (readAll reply)
                (arg "feather-%1-%2.zip" [version; platformTag]))
      as [what s|h s] eqn:V.
    + rewrite (onSignedHashesReceived_throws X w reply _ _ what s E V).
      read_trace. congruence.
    + destruct h as [|x h].
      * rewrite (onSignedHashesReceived_empty X w reply _ _ s E V).
        read_trace. congruence.
      * rewrite (onSignedHashesReceived_hash X w reply _ _ (x :: h) s E V eq_refl).
        intros _. exists (x :: h), s. repeat split; try congruence.
        unfold onCheckUpdatesComplete. read_trace. reflexivity.
  - rewrite (onSignedHashesReceived_error X w reply _ _ E).
    read_trace. congruence.
Qed.

(** C1: a verified update reaches the notification boundary only when the
    fetch succeeded and the verifier, run on the fetched manifest for the
    expected binary file name, returned a hash, and then it carries that
    hash in hex and the verifier's signer; when the verifier throws or
    returns nothing, no verified update is produced and the update button
    and the dialogs stay as they were. *)
Theorem verified_update_only_after_verification
    (X : Externals) (w : World) (reply : QNetworkReply)
    (platformTag version : QString) :
  let binaryFilename :=
    ("feather-" ++ version ++ "-" ++ platformTag ++ ".zip")%string in
  let outcome := verifyParseSignedHashes X (readAll reply) binaryFilename in
  let w' := onSignedHashesReceived X w reply platformTag version in
  (notified (trace w') <> notified (trace w) ->
   exists h s,
     error reply = NoError /\ outcome = Returns h s /\ h <> [] /\
     notified (trace w')
     = notified (trace w)
       ++ [{| vu_version := version; vu_binaryFilename := binaryFilename;
              vu_hash := toHex h; vu_signer := s |}])
  /\
  ((exists what s, outcome = Throws what s) \/ (exists s, outcome = Returns [] s) ->
   notified (trace w') = notified (trace w)
   /\ m_statusUpdateAvailable w' = m_statusUpdateAvailable w
   /\ dialogs (trace w') = dialogs (trace w)).
Proof.
  cbv zeta. rewrite <- arg_binaryFilename.
  destruct (Z.eq_dec (error reply) NoError) as [E|E].
  - destruct (verifyParseSignedHashes X (readAll reply)
                (arg "feather-%1-%2.zip" [version; platformTag]))
      as [what s|h s] eqn:V.
    + rewrite (onSignedHashesReceived_throws X w reply _ _ what s E V).
      read_trace. split; [congruence|]. intros _. repeat split.
    + destruct h as [|x h].
      * rewrite (onSignedHashesReceived_empty X w reply _ _ s E V).
        read_trace. split; [congruence|]. intros _. repeat split.
      * rewrite (onSignedHashesReceived_hash X w reply _ _ (x :: h) s E V eq_refl).
        split.
        -- intros _. exists (x :: h), s. repeat split; try congruence.
           unfold onCheckUpdatesComplete. read_trace. reflexivity.
        -- intros [(what & s' & H)|(s' & H)]; discriminate H.
  - rewrite (onSignedHashesReceived_error X w reply _ _ E).
    read_trace. split; [congruence|]. intros _. repeat split.
Qed.

(** An idle window whose feed handler requests nothing ends the check
    where the handler left it. *)
Lemma updateCheck_no_request (X : Externals) net w updates :
  replies (onUpdatesAvailable X w updates) = [] ->
  updateCheck X net w updates = onUpdatesAvailable X w updates.
Proof.
  intros H. unfold updateCheck. rewrite H. cbn [finishAll].
  rewrite <- H. apply set_replies_same.
Qed.

(** C4: without a platform tag, or without an entry for the tag in the
    feed, the handler of the feed logs one warning and does nothing else:
    no request goes out, no reply is awaited, nothing is shown, and from an
    idle window the whole check ends there. *)
Theorem unsupported_or_missing_platform_aborts
    (X : Externals) (net : QString -> QNetworkReply) (w : World)
    (updates : QJsonObject) :
  getPlatformTag X = EmptyString
  \/ value (toObject (value updates "platform")) (getPlatformTag X) = Undefined ->
  let w' := onUpdatesAvailable X w updates in
  (exists msg, w' = emit (qWarning msg) w)
  /\ fetched (trace w') = fetched (trace w)
  /\ replies w' = replies w
  /\ dialogs (trace w') = dialogs (trace w)
  /\ notified (trace w') = notified (trace w)
  /\ (replies w = [] -> updateCheck X net w updates = w').
Proof.
  intros H. cbv zeta.
  assert (E : exists msg, onUpdatesAvailable X w updates = emit (qWarning msg) w).
  { unfold onUpdatesAvailable. destruct H as [H|H].
    - rewrite H. cbn [isEmpty]. eauto.
    - destruct (isEmpty (getPlatformTag X)); [eauto|].
      rewrite H. cbn [toObject obj_isEmpty]. eauto. }
  destruct E as [msg E]. rewrite E. read_trace.
  repeat split; [eauto|].
  intros Hidle. rewrite <- E. apply updateCheck_no_request.
  rewrite E. exact Hidle.
Qed.

(** C5: a reply that finished with an error is logged and dropped: the
    verifier is not run, no verified update is produced, the update button
    keeps its state and no dialog opens. *)
Theorem fetch_failure_aborts
    (X : Externals) (w : World) (reply : QNetworkReply)
    (platformTag version : QString) :
  error reply <> NoError ->
  let w' := onSignedHashesReceived X w reply platformTag version in
  w' = emit (qWarning ["Unable to fetch signed hashes: "; errorString reply]) w
  /\ verified (trace w') = verified (trace w)
  /\ notified (trace w') = notified (trace w)
  /\ dialogs (trace w') = dialogs (trace w)
  /\ fetched (trace w') = fetched (trace w)
  /\ m_statusUpdateAvailable w' = m_statusUpdateAvailable w.
Proof.
  intros H. cbv zeta.
  rewrite (onSignedHashesReceived_error X w reply _ _ H).
  read_trace. repeat split.
Qed.

(** C6: a feed that announces, for the platform of this build, a version
    newer than the running one makes the handler request exactly
    [<websiteUrl>/files/releases/hashes-<version>-plain.txt], and the reply
    waits with the platform tag and the version bound to it. *)
Theorem newer_version_fetches_hashes_url
    (X : Externals) (w : World) (updates : QJsonObject) (newVersion : QString) :
  getPlatformTag X <> EmptyString ->
  value (toObject (value (toObject (value updates "platform"))
                     (getPlatformTag X))) "version" = JString newVersion ->
  le X (fromString X newVersion) (fromString X (FEATHER_VERSION X)) = false ->
  let hashesUrl :=
    (websiteUrl X ++ "/files/releases/hashes-" ++ newVersion
     ++ "-plain.txt")%string in
  let w' := onUpdatesAvailable X w updates in
  trace w' = trace w ++ [NetworkGet hashesUrl]
  /\ fetched (trace w') = fetched (trace w) ++ [hashesUrl]
  /\ replies w'
     = replies w ++ [{| request_url := hashesUrl;
                        bound_platformTag := getPlatformTag X;
                        bound_version := newVersion |}].
Proof.
  intros Htag Hver Hle. cbv zeta.
  assert (Htag' : isEmpty (getPlatformTag X) = false)
    by (destruct (getPlatformTag X); [contradiction|reflexivity]).
  rewrite (onUpdatesAvailable_newer X w updates newVersion Htag' Hver Hle).
  rewrite arg_hashesUrl. unfold network_get. read_trace. repeat split.
Qed.

(** From an idle window, a check whose manifest verifies with a hash: the
    request, the verifier's run, the log line and the notification. *)
Lemma updateCheck_success (X : Externals) net w updates newVersion h s :
  replies w = [] ->
  getPlatformTag X <> EmptyString ->
  value (toObject (value (toObject (value updates "platform"))
                     (getPlatformTag X))) "version" = JString newVersion ->
  le X (fromString X newVersion) (fromString X (FEATHER_VERSION X)) = false ->
  let hashesUrl :=
    (websiteUrl X ++ "/files/releases/hashes-" ++ newVersion
     ++ "-plain.txt")%string in
  let binaryFilename :=
    ("feather-" ++ newVersion ++ "-" ++ getPlatformTag X ++ ".zip")%string in
  error (net hashesUrl) = NoError ->
  verifyParseSignedHashes X (readAll (net hashesUrl)) binaryFilename
  = Returns h s ->
  h <> [] ->
  updateCheck X net w updates
  = onCheckUpdatesComplete
      (emit (qInfo ["Update found: "; binaryFilename; toHex h;
                    "signed by:"; s])
         (emit (VerifyRun (readAll (net hashesUrl)) binaryFilename)
            (emit (NetworkGet hashesUrl) w)))
      newVersion binaryFilename (toHex h) s.
Proof.
  intros Hidle Htag Hver Hle. cbv zeta.
  rewrite <- arg_hashesUrl, <- arg_binaryFilename. intros E V Hh.
  assert (Htag' : isEmpty (getPlatformTag X) = false)
    by (destruct (getPlatformTag X); [contradiction|reflexivity]).
  rewrite (updateCheck_newer X net w updates newVersion Hidle Htag' Hver Hle).
  apply onSignedHashesReceived_hash; try assumption.
  destruct h; [contradiction|reflexivity].
Qed.

(** ** The slots of the update button *)

Lemma latest_last {A : Type} (l : list A) (x : A) : latest (l ++ [x]) = Some x.
Proof. unfold latest. now rewrite rev_app_distr. Qed.

Lemma same_notice_current (w w' : World) :
  same_notice w w' -> handlers_current w -> handlers_current w'.
Proof. unfold handlers_current. intros [Hc Hn] H. now rewrite Hc, Hn. Qed.

Section Slots.

Variable X : Externals.

Lemma runSlots_same (slots : list Slot) (w : World) :
  m_statusUpdateAvailable (fold_left (runSlot X) slots w)
  = m_statusUpdateAvailable w
  /\ notified (trace (fold_left (runSlot X) slots w)) = notified (trace w).
Proof.
  revert w. induction slots as [|[v b h s] slots IH]; intros w;
    [now split|].
  cbn [fold_left]. destruct (IH (runSlot X w (ShowUpdateCheck v b h s)))
    as [Hb Hn].
  rewrite Hb, Hn. unfold runSlot, onShowUpdateCheck. read_trace. now split.
Qed.

Lemma click_same (w : World) : same_notice w (click X w).
Proof.
  unfold same_notice, click.
  destruct (runSlots_same (clicked (m_statusUpdateAvailable w)) w) as [Hb Hn].
  now rewrite Hb, Hn.
Qed.

Lemma onUpdatesAvailable_same (w : World) (updates : QJsonObject) :
  same_notice w (onUpdatesAvailable X w updates).
Proof.
  unfold same_notice, onUpdatesAvailable.
  destruct (isEmpty _); [read_trace; now split|].
  destruct (obj_isEmpty _); [read_trace; now split|].
  destruct (le X _ _); [now split|].
  unfold network_get. read_trace. now split.
Qed.

Lemma onBalanceUpdated_same (w : World) (balance spendable_ : Z) :
  same_notice w (onBalanceUpdated X w balance spendable_).
Proof. now split. Qed.

Lemma addToRecentlyOpened_same (w : World) (keysFile : QString) :
  same_notice w (addToRecentlyOpened X w keysFile).
Proof. now split. Qed.

(** The slot on a finished reply keeps the button current: it either
    leaves slots and notifications alone or replaces the slots by the one
    of the update it has just notified. *)
Lemma onSignedHashesReceived_current w reply platformTag version :
  handlers_current w ->
  handlers_current (onSignedHashesReceived X w reply platformTag version).
Proof.
  intros H.
  destruct (Z.eq_dec (error reply) NoError) as [E|E].
  - destruct (verifyParseSignedHashes X (readAll reply)
                (arg "feather-%1-%2.zip" [version; platformTag]))
      as [what s|h s] eqn:V.
    + rewrite (onSignedHashesReceived_throws X w reply _ _ what s E V).
      apply (same_notice_current w); [|exact H].
      unfold same_notice. read_trace. now split.
    + destruct h as [|x h].
      * rewrite (onSignedHashesReceived_empty X w reply _ _ s E V).
        apply (same_notice_current w); [|exact H].
        unfold same_notice. read_trace. now split.
      * rewrite (onSignedHashesReceived_hash X w reply _ _ (x :: h) s E V eq_refl).
        unfold handlers_current, onCheckUpdatesComplete. read_trace.
        cbn [clicked app]. rewrite latest_last. reflexivity.
  - rewrite (onSignedHashesReceived_error X w reply _ _ E).
    apply (same_notice_current w); [|exact H].
    unfold same_notice. read_trace. now split.
Qed.

Lemma handle_current (w : World) (i : Input) :
  handlers_current w -> handlers_current (handle X w i).
Proof.
  intros H. destruct i as [updates|k reply| |balance spendable_|keysFile];
    cbn [handle].
  - exact (same_notice_current _ _ (onUpdatesAvailable_same w updates) H).
  - unfold replyFinished. destruct (nth_error (replies w) k); [|exact H].
    apply onSignedHashesReceived_current. exact H.
  - exact (same_notice_current _ _ (click_same w) H).
  - exact (same_notice_current _ _ (onBalanceUpdated_same w _ _) H).
  - exact (same_notice_current _ _ (addToRecentlyOpened_same w _) H).
Qed.

Lemma run_current (inputs : list Input) (w : World) :
  handlers_current w -> handlers_current (run X w inputs).
Proof.
  revert w. induction inputs as [|i inputs IH]; intros w H; [exact H|].
  apply IH, handle_current, H.
Qed.

End Slots.

(** C8: whatever slots the button carried, [onCheckUpdatesComplete] leaves
    exactly the slot of the update it was called with, and a click then
    opens one dialog, for that update; so along any sequence of signals,
    starting from a window whose slots are current, the button never has
    more than one slot and the slot is that of the latest verified
    update. *)
Theorem update_button_has_one_current_handler
    (X : Externals) (w : World) (inputs : list Input)
    (version binaryFilename hash signer : QString) :
  let w' := onCheckUpdatesComplete w version binaryFilename hash signer in
  (clicked (m_statusUpdateAvailable w')
   = [ShowUpdateCheck version binaryFilename hash signer]
   /\ dialogs (trace (click X w'))
      = dialogs (trace w)
        ++ [(version,
             ("https://featherwallet.org/files/releases/" ++ getPlatformTag X
              ++ "/" ++ binaryFilename)%string,
             hash, signer, getPlatformTag X)])
  /\ (handlers_current w ->
      handlers_current (run X w inputs)
      /\ List.length (clicked (m_statusUpdateAvailable (run X w inputs))) <= 1
      /\ forall u, latest (notified (trace (run X w inputs))) = Some u ->
                   clicked (m_statusUpdateAvailable (run X w inputs))
                   = [slotOf u]).
Proof.
  cbv zeta. split.
  - split; [reflexivity|].
    unfold click, onCheckUpdatesComplete.
    cbn [m_statusUpdateAvailable set_button clicked app fold_left runSlot].
    unfold onShowUpdateCheck. rewrite arg_downloadUrl.
    read_trace. reflexivity.
  - intros H. pose proof (run_current X inputs w H) as Hc.
    split; [exact Hc|]. unfold handlers_current in Hc. rewrite Hc.
    destruct (latest _) as [u|]; split; cbn; try lia.
    + intros u' [= <-]. reflexivity.
    + intros u' [=].
Qed.

(** ** The balance label *)

(** C9: with the hide-balance flag set, [onBalanceUpdated] writes
    [Balance: HIDDEN] on the label and hides the ticker, and the window it
    leaves is the same whatever the two amounts are. *)
Theorem hidden_balance_is_constant
    (X : Externals) (w : World) (balance spendable_ balance' spendable_' : Z) :
  hideBalance (config w) = true ->
  label_text (m_statusLabelBalance (onBalanceUpdated X w balance spendable_))
  = "Balance: HIDDEN"
  /\ m_balanceTickerWidget_hidden (onBalanceUpdated X w balance spendable_)
     = true
  /\ onBalanceUpdated X w balance spendable_
     = onBalanceUpdated X w balance' spendable_'.
Proof.
  intros H. unfold onBalanceUpdated. rewrite H. repeat split.
Qed.

(** ** The recently opened wallets *)

Section Recent.

Variable X : Externals.

(** The loop keeps the first five files that exist. *)
Lemma collect_firstn (files recent_ : list QString) :
  List.length recent_ < 5 ->
  collect X files recent_ (Z.of_nat (List.length recent_))
  = recent_ ++ firstn (5 - List.length recent_) (filter (fileExists X) files).
Proof.
  revert recent_. induction files as [|file rest IH]; intros recent_ Hlen.
  - cbn. now rewrite firstn_nil, app_nil_r.
  - cbn [collect filter]. destruct (fileExists X file).
    + destruct (Z.leb_spec 5 (Z.of_nat (List.length recent_) + 1)) as [Hge|Hlt].
      * assert (List.length recent_ = 4) as -> by lia. reflexivity.
      * replace (Z.of_nat (List.length recent_) + 1)%Z
          with (Z.of_nat (List.length (recent_ ++ [file])))
          by (rewrite length_app; cbn; lia).
        rewrite IH by (rewrite length_app; cbn; lia).
        rewrite length_app. cbn [List.length].
        replace (5 - List.length recent_)
          with (S (5 - (List.length recent_ + 1))) by lia.
        cbn [firstn]. now rewrite <- app_assoc.
    + destruct (Z.leb_spec 5 (Z.of_nat (List.length recent_))) as [Hge|Hlt];
        [lia|]. apply IH, Hlen.
Qed.

Lemma addToRecentlyOpened_list (w : World) (keysFile : QString) :
  recentlyOpenedWallets (config (addToRecentlyOpened X w keysFile))
  = firstn 5
      (filter (fileExists X)
         (keysFile
          :: (if contains (recentlyOpenedWallets (config w)) keysFile
              then removeOne keysFile (recentlyOpenedWallets (config w))
              else recentlyOpenedWallets (config w)))).
Proof.
  unfold addToRecentlyOpened, updateRecentlyOpenedMenu.
  cbn [config set_menu set_recent recentlyOpenedWallets].
  apply (collect_firstn _ []). cbn. lia.
Qed.

Lemma In_firstn_filter (f : QString -> bool) (n : nat) (l : list QString) x :
  In x (firstn n (filter f l)) -> In x l /\ f x = true.
Proof.
  intros H. apply filter_In.
  rewrite <- (firstn_skipn n (filter f l)). apply in_or_app. now left.
Qed.

Lemma NoDup_firstn_filter (f : QString -> bool) (n : nat) (l : list QString) :
  NoDup l -> NoDup (firstn n (filter f l)).
Proof.
  intros H. apply (NoDup_filter f) in H.
  rewrite <- (firstn_skipn n (filter f l)) in H.
  now apply NoDup_app_remove_r in H.
Qed.

Lemma In_removeOne (x y : QString) (l : list QString) :
  In y (removeOne x l) -> In y l.
Proof.
  induction l as [|z l IH]; cbn; [easy|].
  destruct (String.eqb z x); [now right|].
  intros [H|H]; [now left|right; now apply IH].
Qed.

Lemma NoDup_removeOne (x : QString) (l : list QString) :
  NoDup l -> NoDup (removeOne x l).
Proof.
  induction 1 as [|z l Hz Hl IH]; cbn; [constructor|].
  destruct (String.eqb z x); [exact Hl|].
  constructor; [|exact IH]. intros H. apply Hz. eapply In_removeOne, H.
Qed.

(** [removeOne] clears a path that occurs at most once. *)
Lemma removeOne_clears (x : QString) (l : list QString) :
  count_occ string_dec l x <= 1 -> ~ In x (removeOne x l).
Proof.
  induction l as [|z l IH]; cbn; [easy|].
  destruct (String.eqb_spec z x) as [->|Hne].
  - destruct (string_dec x x) as [_|F]; [|contradiction].
    intros H. apply (count_occ_not_In string_dec). lia.
  - destruct (string_dec z x) as [E|_]; [contradiction|].
    intros H [F|F]; [contradiction|]. now apply IH.
Qed.

Lemma contains_false (x : QString) (l : list QString) :
  contains l x = false -> ~ In x l.
Proof.
  unfold contains. intros H F.
  assert (E : existsb (String.eqb x) l = true)
    by (apply existsb_exists; exists x; split; [exact F|apply String.eqb_refl]).
  congruence.
Qed.

(** The added path is not in what is kept of the former list, when it
    occurred there at most once. *)
Lemma added_path_cleared (recent : list QString) (keysFile : QString) :
  count_occ string_dec recent keysFile <= 1 ->
  ~ In keysFile (if contains recent keysFile
                 then removeOne keysFile recent else recent).
Proof.
  intros H. destruct (contains recent keysFile) eqn:C.
  - now apply removeOne_clears.
  - now apply contains_false.
Qed.

Lemma NoDup_added (recent : list QString) (keysFile : QString) :
  NoDup recent ->
  NoDup (keysFile :: (if contains recent keysFile
                      then removeOne keysFile recent else recent)).
Proof.
  intros H. constructor.
  - apply added_path_cleared. now apply NoDup_count_occ.
  - destruct (contains recent keysFile); [|exact H].
    now apply NoDup_removeOne.
Qed.

Lemma addToRecentlyOpened_NoDup (w : World) (keysFile : QString) :
  NoDup (recentlyOpenedWallets (config w)) ->
  NoDup (recentlyOpenedWallets (config (addToRecentlyOpened X w keysFile))).
Proof.
  intros H. rewrite addToRecentlyOpened_list.
  apply NoDup_firstn_filter, NoDup_added, H.
Qed.

End Recent.

(** C10, as amended: after [addToRecentlyOpened] the stored list is the
    first five existing files of the added path followed by the former
    list without the first occurrence of that path; so it has at most five
    entries, every entry exists, the added path is first when it exists,
    and it occurs at most once provided it occurred at most once before;
    a list without repetitions stays without. *)
Theorem recently_opened_after_add
    (X : Externals) (w : World) (keysFile : QString) :
  let recent := recentlyOpenedWallets (config w) in
  let recent' :=
    recentlyOpenedWallets (config (addToRecentlyOpened X w keysFile)) in
  List.length recent' <= 5
  /\ Forall (fun file => fileExists X file = true) recent'
  /\ (fileExists X keysFile = true -> hd_error recent' = Some keysFile)
  /\ (count_occ string_dec recent keysFile <= 1 ->
      count_occ string_dec recent' keysFile <= 1)
  /\ (NoDup recent -> NoDup recent').
Proof.
  cbv zeta. split; [|split; [|split; [|split]]].
  - rewrite addToRecentlyOpened_list. apply firstn_le_length.
  - rewrite addToRecentlyOpened_list. apply Forall_forall. intros x Hx.
    now apply In_firstn_filter in Hx.
  - intros E. rewrite addToRecentlyOpened_list. cbn [filter]. rewrite E.
    reflexivity.
  - intros H. rewrite addToRecentlyOpened_list.
    pose proof (added_path_cleared _ _ H) as Hrest.
    cbn [filter]. destruct (fileExists X keysFile).
    + rewrite firstn_cons. cbn [count_occ].
      destruct (string_dec keysFile keysFile) as [_|F]; [|contradiction].
      match goal with
      | |- S (count_occ _ ?l _) <= 1 =>
          assert (N : ~ In keysFile l)
            by (intros F; apply In_firstn_filter in F; now apply Hrest);
          apply (count_occ_not_In string_dec) in N; lia
      end.
    + match goal with
      | |- count_occ _ ?l _ <= 1 =>
          assert (N : ~ In keysFile l)
            by (intros F; apply In_firstn_filter in F; now apply Hrest);
          apply (count_occ_not_In string_dec) in N; lia
      end.
  - apply addToRecentlyOpened_NoDup.
Qed.

(** ** Versions that are not newer *)

(** C3: on the spec's versions, the later of two versions is newer than
    the other and not the other way round, a version is not newer than
    itself, and any two versions compare; a candidate that is not newer
    than the running version, one that does not parse among them, makes
    the feed handler return without a request, a reply in flight, a
    verified update or a change of the update button, and from an idle
    window the check ends there. *)
Theorem isNewer_ordering_and_abort
    (X : Externals) (net : QString -> QNetworkReply) (w : World)
    (updates : QJsonObject) (a b : SemanticVersion.t) :
  let S := withSemanticVersion X in
  let candidate :=
    SemanticVersion.fromString
      (toString (value (toObject (value (toObject (value updates "platform"))
                                    (getPlatformTag S))) "version")) in
  let current := SemanticVersion.fromString (FEATHER_VERSION S) in
  let w' := onUpdatesAvailable S w updates in
  (SemanticVersion.greater a b ->
   SemanticVersion.isNewer a b = true /\ SemanticVersion.isNewer b a = false)
  /\ (a = b ->
      SemanticVersion.isNewer a b = false /\ SemanticVersion.isNewer b a = false)
  /\ (SemanticVersion.greater a b \/ a = b \/ SemanticVersion.greater b a)
  /\ (SemanticVersion.isNewer candidate current = false
      \/ candidate = SemanticVersion.Invalid ->
      fetched (trace w') = fetched (trace w)
      /\ replies w' = replies w
      /\ notified (trace w') = notified (trace w)
      /\ m_statusUpdateAvailable w' = m_statusUpdateAvailable w
      /\ (replies w = [] -> updateCheck S net w updates = w')).
Proof.
  intros S candidate current w'. split; [|split; [|split]].
  - intros H. apply isNewer_greater in H. split; [exact H|].
    now apply isNewer_asym.
  - intros <-. split; apply isNewer_irrefl.
  - apply greater_total.
  - intros H.
    assert (Hn : SemanticVersion.isNewer candidate current = false)
      by (destruct H as [H|H]; [exact H|rewrite H; apply isNewer_Invalid]).
    assert (Hle : SemanticVersion.le candidate current = true)
      by (apply negb_false_iff; exact Hn).
    assert (R : fetched (trace w') = fetched (trace w)
                /\ replies w' = replies w
                /\ notified (trace w') = notified (trace w)
                /\ m_statusUpdateAvailable w' = m_statusUpdateAvailable w).
    { subst w'.
      destruct (onUpdatesAvailable_not_newer S w updates Hle) as [E|[msg E]];
        rewrite E; read_trace; repeat split. }
    destruct R as (R1 & R2 & R3 & R4). repeat split; try assumption.
    intros Hidle. apply updateCheck_no_request. fold w'. now rewrite R2.
Qed.

(** ** The spec's verifier behind the slot *)

Section TrustedSigner.

Variable decode : QByteArray -> option Updater.SignedHashManifest.
Variable keyring : list QString.

(** The verifier returns exactly the entry of a manifest that decodes and
    is signed by a key of the keyring. *)
Lemma verifier_returns (armored : QByteArray) (name : QString)
    (h : QByteArray) (s : QString) :
  Updater.verifyParseSignedHashes decode keyring armored name = Returns h s
  <-> exists m e,
        decode armored = Some m
        /\ Updater.signature m = Some s
        /\ In s keyring
        /\ Updater.entry (Updater.entries m) name = Some e
        /\ h = Updater.bytes e.
Proof.
  unfold Updater.verifyParseSignedHashes. split.
  - destruct (decode armored) as [m|]; [|discriminate].
    destruct (Updater.signature m) as [signer|] eqn:Es; [|discriminate].
    destruct (contains keyring signer) eqn:Ek; [|discriminate].
    destruct (Updater.entry (Updater.entries m) name) as [e|] eqn:Ee;
      [|discriminate].
    intros [= <- <-]. exists m, e. repeat split; try assumption.
    unfold contains in Ek. apply existsb_exists in Ek.
    destruct Ek as (k & Hk & E). apply String.eqb_eq in E. now subst k.
  - intros (m & e & -> & -> & Hk & -> & ->).
    assert (contains keyring s = true) as ->; [|reflexivity].
    unfold contains. apply existsb_exists. exists s.
    split; [exact Hk|apply String.eqb_refl].
Qed.

(** With the spec's verifier in place, every verified update that the slot
    notifies comes from a manifest that decodes, is signed by a key of the
    keyring and lists the expected file name with the notified hash. *)
Corollary notified_update_is_signed
    (X : Externals) (w : World) (reply : QNetworkReply)
    (platformTag version : QString) :
  verifyParseSignedHashes X = Updater.verifyParseSignedHashes decode keyring ->
  let w' := onSignedHashesReceived X w reply platformTag version in
  notified (trace w') <> notified (trace w) ->
  exists m h s,
    decode (readAll reply) = Some m
    /\ Updater.signature m = Some s
    /\ In s keyring
    /\ Updater.entry (Updater.entries m)
         ("feather-" ++ version ++ "-" ++ platformTag ++ ".zip")%string
       = Some h
    /\ notified (trace w')
       = notified (trace w)
         ++ [{| vu_version := version;
                vu_binaryFilename :=
                  ("feather-" ++ version ++ "-" ++ platformTag ++ ".zip")%string;
                vu_hash := toHex (Updater.bytes h); vu_signer := s |}].
Proof.
  intros HX w' Hn. subst w'.
  destruct (notified_only_from_hash X w reply platformTag version Hn)
    as (h & s & E & V & Hh & N).
  rewrite HX, arg_binaryFilename in V. rewrite arg_binaryFilename in N.
  apply verifier_returns in V. destruct V as (m & e & D & Sg & K & En & ->).
  exists m, e, s. repeat split; assumption.
Qed.

(** The whole check on a manifest that the spec's verifier accepts: the
    window is left as by [onCheckUpdatesComplete] on the entry's hash in
    hex and the signer of the manifest. *)
Lemma updateCheck_valid_manifest
    (X : Externals) (net : QString -> QNetworkReply) (w : World)
    (updates : QJsonObject) (newVersion : QString)
    (m : Updater.SignedHashManifest) (h : Updater.Hash) (s : QString) :
  verifyParseSignedHashes X = Updater.verifyParseSignedHashes decode keyring ->
  replies w = [] ->
  getPlatformTag X <> EmptyString ->
  value (toObject (value (toObject (value updates "platform"))
                     (getPlatformTag X))) "version" = JString newVersion ->
  le X (fromString X newVersion) (fromString X (FEATHER_VERSION X)) = false ->
  let hashesUrl :=
    (websiteUrl X ++ "/files/releases/hashes-" ++ newVersion
     ++ "-plain.txt")%string in
  let binaryFilename :=
    ("feather-" ++ newVersion ++ "-" ++ getPlatformTag X ++ ".zip")%string in
  error (net hashesUrl) = NoError ->
  decode (readAll (net hashesUrl)) = Some m ->
  Updater.signature m = Some s ->
  In s keyring ->
  Updater.entry (Updater.entries m) binaryFilename = Some h ->
  updateCheck X net w updates
  = onCheckUpdatesComplete
      (emit (qInfo ["Update found: "; binaryFilename;
                    toHex (Updater.bytes h); "signed by:"; s])
         (emit (VerifyRun (readAll (net hashesUrl)) binaryFilename)
            (emit (NetworkGet hashesUrl) w)))
      newVersion binaryFilename (toHex (Updater.bytes h)) s.
Proof.
  intros HX Hidle Htag Hver Hle hashesUrl binaryFilename E D Sg K En.
  apply (updateCheck_success X net w updates newVersion (Updater.bytes h) s
           Hidle Htag Hver Hle E).
  - rewrite HX. apply verifier_returns. exists m, h. now repeat split.
  - discriminate.
Qed.

(** C2: with the spec's verifier in place, every manifest that decodes, is
    signed by a key of the keyring and has an entry for the expected file
    name makes one run of the check, from an idle window on a feed
    announcing a newer version for this platform and a fetch without
    error, produce exactly one verified update, whose hash is the hex
    encoding of that entry's hash and whose signer is the signer of the
    manifest. *)
Theorem valid_manifest_yields_one_update
    (X : Externals) (net : QString -> QNetworkReply) (w : World)
    (updates : QJsonObject) (newVersion : QString)
    (m : Updater.SignedHashManifest) (h : Updater.Hash) (s : QString) :
  verifyParseSignedHashes X = Updater.verifyParseSignedHashes decode keyring ->
  replies w = [] ->
  getPlatformTag X <> EmptyString ->
  value (toObject (value (toObject (value updates "platform"))
                     (getPlatformTag X))) "version" = JString newVersion ->
  le X (fromString X newVersion) (fromString X (FEATHER_VERSION X)) = false ->
  let hashesUrl :=
    (websiteUrl X ++ "/files/releases/hashes-" ++ newVersion
     ++ "-plain.txt")%string in
  let binaryFilename :=
    ("feather-" ++ newVersion ++ "-" ++ getPlatformTag X ++ ".zip")%string in
  error (net hashesUrl) = NoError ->
  decode (readAll (net hashesUrl)) = Some m ->
  Updater.signature m = Some s ->
  In s keyring ->
  Updater.entry (Updater.entries m) binaryFilename = Some h ->
  let w' := updateCheck X net w updates in
  notified (trace w')
  = notified (trace w)
    ++ [{| vu_version := newVersion; vu_binaryFilename := binaryFilename;
           vu_hash := toHex (Updater.bytes h); vu_signer := s |}]
  /\ fromHex (toHex (Updater.bytes h)) = Some (Updater.bytes h)
  /\ verified (trace w')
     = verified (trace w) ++ [(readAll (net hashesUrl), binaryFilename)].
Proof.
  intros HX Hidle Htag Hver Hle hashesUrl binaryFilename E D Sg K En w'.
  subst w'.
  rewrite (updateCheck_valid_manifest X net w updates newVersion m h s
             HX Hidle Htag Hver Hle E D Sg K En).
  fold hashesUrl binaryFilename.
  unfold onCheckUpdatesComplete. read_trace.
  repeat split. apply fromHex_toHex.
Qed.

(** C7, as amended: the expected file name is
    [feather-<version>-<platform>.zip]; a check that succeeds on a validly
    signed manifest requests the manifest once and hands the notification
    boundary the verified update, and no dialog is opened and no download
    URL built by then; the click on the update button that follows opens
    the dialog on the verified update together with the download URL
    [https://featherwallet.org/files/releases/<platform>/<file name>].
    With 1.2.0 running and 1.3.0-beta announced for linux these are
    [hashes-1.3.0-beta-plain.txt], [feather-1.3.0-beta-linux.zip] and
    [.../linux/feather-1.3.0-beta-linux.zip]. *)
Theorem update_names_and_download_url
    (X : Externals) (net : QString -> QNetworkReply) (w : World)
    (updates : QJsonObject) (newVersion : QString)
    (m : Updater.SignedHashManifest) (h : Updater.Hash) (s : QString) :
  verifyParseSignedHashes X = Updater.verifyParseSignedHashes decode keyring ->
  replies w = [] ->
  getPlatformTag X <> EmptyString ->
  value (toObject (value (toObject (value updates "platform"))
                     (getPlatformTag X))) "version" = JString newVersion ->
  le X (fromString X newVersion) (fromString X (FEATHER_VERSION X)) = false ->
  let hashesUrl :=
    (websiteUrl X ++ "/files/releases/hashes-" ++ newVersion
     ++ "-plain.txt")%string in
  let binaryFilename :=
    ("feather-" ++ newVersion ++ "-" ++ getPlatformTag X ++ ".zip")%string in
  error (net hashesUrl) = NoError ->
  decode (readAll (net hashesUrl)) = Some m ->
  Updater.signature m = Some s ->
  In s keyring ->
  Updater.entry (Updater.entries m) binaryFilename = Some h ->
  let w' := updateCheck X net w updates in
  let downloadUrl :=
    ("https://featherwallet.org/files/releases/" ++ getPlatformTag X ++ "/"
     ++ binaryFilename)%string in
  (fetched (trace w') = fetched (trace w) ++ [hashesUrl]
   /\ notified (trace w')
      = notified (trace w)
        ++ [{| vu_version := newVersion; vu_binaryFilename := binaryFilename;
               vu_hash := toHex (Updater.bytes h); vu_signer := s |}]
   /\ dialogs (trace w') = dialogs (trace w)
   /\ dialogs (trace (click X w'))
      = dialogs (trace w)
        ++ [(newVersion, downloadUrl, toHex (Updater.bytes h), s,
             getPlatformTag X)])
  /\ (FEATHER_VERSION X = "1.2.0" -> getPlatformTag X = "linux" ->
      newVersion = "1.3.0-beta" ->
      hashesUrl
      = (websiteUrl X ++ "/files/releases/hashes-1.3.0-beta-plain.txt")%string
      /\ binaryFilename = "feather-1.3.0-beta-linux.zip"
      /\ downloadUrl
         = "https://featherwallet.org/files/releases/linux/feather-1.3.0-beta-linux.zip").
Proof.
  intros HX Hidle Htag Hver Hle hashesUrl binaryFilename E D Sg K En w'
    downloadUrl.
  split.
  - subst w'.
    rewrite (updateCheck_valid_manifest X net w updates newVersion m h s
               HX Hidle Htag Hver Hle E D Sg K En).
    fold hashesUrl binaryFilename.
    unfold click, onCheckUpdatesComplete.
    cbn [m_statusUpdateAvailable set_button clicked app fold_left runSlot].
    unfold onShowUpdateCheck. rewrite arg_downloadUrl. fold downloadUrl.
    read_trace. repeat split.
  - intros _ Hlinux ->. subst hashesUrl binaryFilename downloadUrl.
    rewrite Hlinux. repeat split.
Qed.

End TrustedSigner.

(** ** The stored list along a session *)

Section RecentAlong.

Variable X : Externals.

Lemma fold_runSlot_config (slots : list Slot) (w : World) :
  config (fold_left (runSlot X) slots w) = config w.
Proof.
  revert w. induction slots as [|[v b h s] slots IH]; intros w;
    [reflexivity|].
  cbn [fold_left]. now rewrite IH.
Qed.

Lemma onSignedHashesReceived_config w reply platformTag version :
  config (onSignedHashesReceived X w reply platformTag version) = config w.
Proof.
  unfold onSignedHashesReceived.
  destruct (negb _); [reflexivity|].
  destruct (verifyParseSignedHashes X _ _) as [what s|h s]; [reflexivity|].
  destruct (ba_isEmpty h); reflexivity.
Qed.

Lemma onUpdatesAvailable_config w updates :
  config (onUpdatesAvailable X w updates) = config w.
Proof.
  unfold onUpdatesAvailable.
  destruct (isEmpty _); [reflexivity|].
  destruct (obj_isEmpty _); [reflexivity|].
  destruct (le X _ _); reflexivity.
Qed.

(** Only [addToRecentlyOpened] writes the stored list, and it keeps a list
    without repetitions without: a list that starts empty, or is cleared,
    never names a wallet twice. *)
Lemma run_recent_NoDup (inputs : list Input) (w : World) :
  NoDup (recentlyOpenedWallets (config w)) ->
  NoDup (recentlyOpenedWallets (config (run X w inputs))).
Proof.
  revert w. induction inputs as [|i inputs IH]; intros w H; [exact H|].
  apply IH. destruct i as [updates|k reply| |balance spendable_|keysFile];
    cbn [handle].
  - now rewrite onUpdatesAvailable_config.
  - unfold replyFinished. destruct (nth_error (replies w) k); [|exact H].
    now rewrite onSignedHashesReceived_config.
  - unfold click. now rewrite fold_runSlot_config.
  - exact H.
  - now apply addToRecentlyOpened_NoDup.
Qed.

End RecentAlong.

(** * The theorems at work on a concrete installation *)

(** On Feather 1.2.0 for Linux: the manifest [ab 01] verifies and is
    notified with hash [ab01]; an empty body does not decode, the verifier
    throws and nothing is notified. *)
Lemma verified_update_only_after_verification_demo :
  (exists h s,
     error (Demo.ok [xab; x01]) = NoError
     /\ verifyParseSignedHashes Demo.X (readAll (Demo.ok [xab; x01]))
          "feather-1.3.0-beta-linux.zip" = Returns h s
     /\ h <> []
     /\ notified (trace (onSignedHashesReceived Demo.X Demo.w0
                           (Demo.ok [xab; x01]) "linux" "1.3.0-beta"))
        = notified (trace Demo.w0)
          ++ [{| vu_version := "1.3.0-beta";
                 vu_binaryFilename := "feather-1.3.0-beta-linux.zip";
                 vu_hash := toHex h; vu_signer := s |}])
  /\ (notified (trace (onSignedHashesReceived Demo.X Demo.w0 (Demo.ok [])
                         "linux" "1.3.0-beta"))
      = notified (trace Demo.w0)
      /\ m_statusUpdateAvailable
           (onSignedHashesReceived Demo.X Demo.w0 (Demo.ok [])
              "linux" "1.3.0-beta")
         = m_statusUpdateAvailable Demo.w0
      /\ dialogs (trace (onSignedHashesReceived Demo.X Demo.w0 (Demo.ok [])
                           "linux" "1.3.0-beta"))
         = dialogs (trace Demo.w0)).
Proof.
  split.
  - apply (proj1 (verified_update_only_after_verification Demo.X Demo.w0
                    (Demo.ok [xab; x01]) "linux" "1.3.0-beta")).
    vm_compute. discriminate.
  - apply (proj2 (verified_update_only_after_verification Demo.X Demo.w0
                    (Demo.ok []) "linux" "1.3.0-beta")).
    left. exists "malformed manifest", EmptyString. reflexivity.
Defined.

(** The same installation, the whole check: the manifest the bytes
    [ab 01] decode to is signed by [featherwallet] and gives the expected
    file the hash [ab 01]; one verified update. *)
Lemma valid_manifest_yields_one_update_demo :
  let w' := updateCheck Demo.X (fun _ => Demo.ok [xab; x01]) Demo.w0 Demo.feed in
  notified (trace w')
  = notified (trace Demo.w0)
    ++ [{| vu_version := "1.3.0-beta";
           vu_binaryFilename := "feather-1.3.0-beta-linux.zip";
           vu_hash := "ab01"; vu_signer := "featherwallet" |}]
  /\ fromHex "ab01" = Some [xab; x01]
  /\ verified (trace w')
     = verified (trace Demo.w0)
       ++ [([xab; x01], "feather-1.3.0-beta-linux.zip")].
Proof.
  apply (valid_manifest_yields_one_update Demo.decode ["featherwallet"]
           Demo.X (fun _ => Demo.ok [xab; x01]) Demo.w0 Demo.feed
           "1.3.0-beta"
           {| Updater.signature := Some "featherwallet";
              Updater.entries :=
                [("feather-1.3.0-beta-linux.zip",
                  {| Updater.first := xab; Updater.rest := [x01] |});
                 ("feather-1.4.0-linux.zip",
                  {| Updater.first := xab; Updater.rest := [x01] |})] |}
           {| Updater.first := xab; Updater.rest := [x01] |}
           "featherwallet");
    try reflexivity; try discriminate.
  now left.
Defined.

(** Later and earlier versions, and a feed whose version does not parse. *)
Lemma isNewer_ordering_and_abort_demo :
  let a := SemanticVersion.Version 1 3 0 "beta" in
  let b := SemanticVersion.Version 1 2 0 "" in
  let w' := onUpdatesAvailable (withSemanticVersion Demo.X) Demo.w0
              (Demo.feedOf "latest") in
  (SemanticVersion.isNewer a b = true /\ SemanticVersion.isNewer b a = false)
  /\ (SemanticVersion.isNewer a a = false /\ SemanticVersion.isNewer a a = false)
  /\ (fetched (trace w') = fetched (trace Demo.w0)
      /\ replies w' = replies Demo.w0
      /\ notified (trace w') = notified (trace Demo.w0)
      /\ m_statusUpdateAvailable w' = m_statusUpdateAvailable Demo.w0
      /\ updateCheck (withSemanticVersion Demo.X) (fun _ => Demo.failed)
           Demo.w0 (Demo.feedOf "latest") = w').
Proof.
  destruct (isNewer_ordering_and_abort Demo.X (fun _ => Demo.failed) Demo.w0
              (Demo.feedOf "latest")
              (SemanticVersion.Version 1 3 0 "beta")
              (SemanticVersion.Version 1 2 0 "")) as (G & _ & _ & F).
  destruct (isNewer_ordering_and_abort Demo.X (fun _ => Demo.failed) Demo.w0
              (Demo.feedOf "latest")
              (SemanticVersion.Version 1 3 0 "beta")
              (SemanticVersion.Version 1 3 0 "beta")) as (_ & E & _ & _).
  split; [|split].
  - apply G. apply SemanticVersion.greater_minor. reflexivity.
  - apply E. reflexivity.
  - destruct (F (or_intror eq_refl)) as (F1 & F2 & F3 & F4 & F5).
    exact (conj F1 (conj F2 (conj F3 (conj F4 (F5 eq_refl))))).
Defined.

(** A build for no known platform, and a Linux build reading a feed that
    lists only Windows: one warning each, no request. *)
Lemma unsupported_or_missing_platform_aborts_demo :
  let Y := Demo.Xwith Demo.unsupported Demo.decode in
  let net := fun _ : QString => Demo.failed in
  let w1 := onUpdatesAvailable Y Demo.w0 Demo.feed in
  let w2 := onUpdatesAvailable Demo.X Demo.w0 Demo.windowsFeed in
  ((exists msg, w1 = emit (qWarning msg) Demo.w0)
   /\ fetched (trace w1) = fetched (trace Demo.w0)
   /\ replies w1 = replies Demo.w0
   /\ dialogs (trace w1) = dialogs (trace Demo.w0)
   /\ notified (trace w1) = notified (trace Demo.w0)
   /\ updateCheck Y net Demo.w0 Demo.feed = w1)
  /\ ((exists msg, w2 = emit (qWarning msg) Demo.w0)
      /\ fetched (trace w2) = fetched (trace Demo.w0)
      /\ replies w2 = replies Demo.w0
      /\ dialogs (trace w2) = dialogs (trace Demo.w0)
      /\ notified (trace w2) = notified (trace Demo.w0)
      /\ updateCheck Demo.X net Demo.w0 Demo.windowsFeed = w2).
Proof.
  split.
  - destruct (unsupported_or_missing_platform_aborts
                (Demo.Xwith Demo.unsupported Demo.decode)
                (fun _ => Demo.failed) Demo.w0 Demo.feed
                (or_introl eq_refl)) as (A & B & C & D & E & F).
    exact (conj A (conj B (conj C (conj D (conj E (F eq_refl)))))).
  - destruct (unsupported_or_missing_platform_aborts Demo.X
                (fun _ => Demo.failed) Demo.w0 Demo.windowsFeed
                (or_intror eq_refl)) as (A & B & C & D & E & F).
    exact (conj A (conj B (conj C (conj D (conj E (F eq_refl)))))).
Defined.

(** A reply that ends in [Not Found]. *)
Lemma fetch_failure_aborts_demo :
  let w' := onSignedHashesReceived Demo.X Demo.w0 Demo.failed
              "linux" "1.3.0-beta" in
  w' = emit (qWarning ["Unable to fetch signed hashes: "; "Not Found"]) Demo.w0
  /\ verified (trace w') = verified (trace Demo.w0)
  /\ notified (trace w') = notified (trace Demo.w0)
  /\ dialogs (trace w') = dialogs (trace Demo.w0)
  /\ fetched (trace w') = fetched (trace Demo.w0)
  /\ m_statusUpdateAvailable w' = m_statusUpdateAvailable Demo.w0.
Proof.
  apply (fetch_failure_aborts Demo.X Demo.w0 Demo.failed "linux" "1.3.0-beta").
  discriminate.
Defined.

(** Feather 1.2.0 on Linux reads a feed announcing 1.3.0-beta. *)
Lemma newer_version_fetches_hashes_url_demo :
  let w' := onUpdatesAvailable Demo.X Demo.w0 Demo.feed in
  let url :=
    (websiteUrl Demo.X ++ "/files/releases/hashes-" ++ "1.3.0-beta"
     ++ "-plain.txt")%string in
  trace w' = trace Demo.w0 ++ [NetworkGet url]
  /\ fetched (trace w') = fetched (trace Demo.w0) ++ [url]
  /\ replies w'
     = replies Demo.w0 ++ [{| request_url := url;
                              bound_platformTag := getPlatformTag Demo.X;
                              bound_version := "1.3.0-beta" |}].
Proof.
  apply (newer_version_fetches_hashes_url Demo.X Demo.w0 Demo.feed "1.3.0-beta");
    [discriminate|reflexivity|reflexivity].
Defined.

(** The scenario of the spec: 1.2.0 runs on Linux, the feed announces
    1.3.0-beta, the manifest verifies with hash [ab 01]. *)
Lemma update_names_and_download_url_demo :
  let net := fun _ : QString => Demo.ok [xab; x01] in
  let w' := updateCheck Demo.X net Demo.w0 Demo.feed in
  fetched (trace w')
  = ["https://featherwallet.org/files/releases/hashes-1.3.0-beta-plain.txt"]
  /\ notified (trace w')
     = [{| vu_version := "1.3.0-beta";
           vu_binaryFilename := "feather-1.3.0-beta-linux.zip";
           vu_hash := "ab01"; vu_signer := "featherwallet" |}]
  /\ dialogs (trace w') = []
  /\ dialogs (trace (click Demo.X w'))
     = [("1.3.0-beta",
         "https://featherwallet.org/files/releases/linux/feather-1.3.0-beta-linux.zip",
         "ab01", "featherwallet", "linux")].
Proof.
  destruct (update_names_and_download_url Demo.decode ["featherwallet"]
              Demo.X (fun _ => Demo.ok [xab; x01]) Demo.w0 Demo.feed
              "1.3.0-beta"
              {| Updater.signature := Some "featherwallet";
                 Updater.entries :=
                   [("feather-1.3.0-beta-linux.zip",
                     {| Updater.first := xab; Updater.rest := [x01] |});
                    ("feather-1.4.0-linux.zip",
                     {| Updater.first := xab; Updater.rest := [x01] |})] |}
              {| Updater.first := xab; Updater.rest := [x01] |}
              "featherwallet")
    as [(F & N & D0 & D) S]; try reflexivity; try discriminate.
  - now left.
  - destruct (S eq_refl eq_refl eq_refl) as (S1 & S2 & S3).
    exact (conj F (conj N (conj D0 D))).
Defined.

(** C7, as stated, fails in its scenario: 1.2.0 runs on Linux, the feed
    announces 1.3.0-beta, the one request for [hashes-1.3.0-beta-plain.txt]
    goes out and the manifest verifies with hash [ab 01].  The notification
    boundary is handed the version, the file name, the hash and the signer,
    and nothing else: the trace of the whole check has no download URL in
    it and no dialog.  The URL that ends in
    [/linux/feather-1.3.0-beta-linux.zip] is built by [onShowUpdateCheck],
    which runs when the update button is clicked. *)
Lemma download_url_is_built_at_the_click :
  let w' :=
    updateCheck Demo.X (fun _ => Demo.ok [xab; x01]) Demo.w0 Demo.feed in
  FEATHER_VERSION Demo.X = "1.2.0"
  /\ getPlatformTag Demo.X = "linux"
  /\ trace w'
     = [NetworkGet
          "https://featherwallet.org/files/releases/hashes-1.3.0-beta-plain.txt";
        VerifyRun [xab; x01] "feather-1.3.0-beta-linux.zip";
        qInfo ["Update found: "; "feather-1.3.0-beta-linux.zip"; "ab01";
               "signed by:"; "featherwallet"];
        CheckUpdatesComplete "1.3.0-beta" "feather-1.3.0-beta-linux.zip"
          "ab01" "featherwallet"]
  /\ dialogs (trace w') = []
  /\ dialogs (trace (click Demo.X w'))
     = [("1.3.0-beta",
         "https://featherwallet.org/files/releases/linux/feather-1.3.0-beta-linux.zip",
         "ab01", "featherwallet", "linux")].
Proof. repeat split. Defined.

(** Two verified updates in a row, 1.3.0-beta and then 1.4.0: one slot,
    for 1.4.0. *)
Lemma update_button_has_one_current_handler_demo :
  let inputs :=
    [UpdatesReceived Demo.feed; ReplyFinished 0 (Demo.ok [xab; x01]);
     UpdatesReceived (Demo.feedOf "1.4.0"); ReplyFinished 0 (Demo.ok [xcd])] in
  let w := run Demo.X Demo.w0 inputs in
  handlers_current w
  /\ List.length (clicked (m_statusUpdateAvailable w)) <= 1
  /\ clicked (m_statusUpdateAvailable w)
     = [ShowUpdateCheck "1.4.0" "feather-1.4.0-linux.zip" "cd" "featherwallet"].
Proof.
  destruct (update_button_has_one_current_handler Demo.X Demo.w0
              [UpdatesReceived Demo.feed; ReplyFinished 0 (Demo.ok [xab; x01]);
               UpdatesReceived (Demo.feedOf "1.4.0");
               ReplyFinished 0 (Demo.ok [xcd])]
              EmptyString EmptyString EmptyString EmptyString) as [_ H].
  destruct (H eq_refl) as (H1 & H2 & H3).
  split; [exact H1|]. split; [exact H2|].
  apply (H3 {| vu_version := "1.4.0";
               vu_binaryFilename := "feather-1.4.0-linux.zip";
               vu_hash := "cd"; vu_signer := "featherwallet" |}).
  reflexivity.
Defined.

(** Two different pairs of amounts, balance hidden. *)
Lemma hidden_balance_is_constant_demo :
  label_text (m_statusLabelBalance (onBalanceUpdated Demo.X Demo.w0 5000 3000))
  = "Balance: HIDDEN"
  /\ m_balanceTickerWidget_hidden (onBalanceUpdated Demo.X Demo.w0 5000 3000)
     = true
  /\ onBalanceUpdated Demo.X Demo.w0 5000 3000
     = onBalanceUpdated Demo.X Demo.w0 7 0.
Proof.
  apply (hidden_balance_is_constant Demo.X Demo.w0 5000 3000 7 0).
  reflexivity.
Defined.

(** Six wallets stored, one of them gone, and the second one opened
    again. *)
Lemma recently_opened_after_add_demo :
  let w := set_recent ["/1.keys"; "/2.keys"; "/gone.keys"; "/3.keys";
                       "/4.keys"; "/5.keys"] Demo.w0 in
  let recent' :=
    recentlyOpenedWallets (config (addToRecentlyOpened Demo.X w "/2.keys")) in
  recent' = ["/2.keys"; "/1.keys"; "/3.keys"; "/4.keys"; "/5.keys"]
  /\ List.length recent' <= 5
  /\ Forall (fun file => fileExists Demo.X file = true) recent'
  /\ hd_error recent' = Some "/2.keys"
  /\ count_occ string_dec recent' "/2.keys" <= 1
  /\ NoDup recent'.
Proof.
  destruct (recently_opened_after_add Demo.X
              (set_recent ["/1.keys"; "/2.keys"; "/gone.keys"; "/3.keys";
                           "/4.keys"; "/5.keys"] Demo.w0) "/2.keys")
    as (L & E & H & C & N).
  split; [reflexivity|]. split; [exact L|]. split; [exact E|].
  split; [exact (H eq_refl)|]. split.
  - apply C. vm_compute. lia.
  - apply N. cbn.
    repeat (constructor; [cbn; intuition discriminate|]). constructor.
Defined.

(** C10, as stated, fails: a stored list that names [/a.keys] twice still
    names it twice after [/a.keys] is added, since [removeOne] drops one
    occurrence only. *)
Lemma stored_duplicate_survives_add :
  let w := set_recent ["/a.keys"; "/a.keys"] Demo.w0 in
  recentlyOpenedWallets (config (addToRecentlyOpened Demo.X w "/a.keys"))
  = ["/a.keys"; "/a.keys"]
  /\ count_occ string_dec
       (recentlyOpenedWallets (config (addToRecentlyOpened Demo.X w "/a.keys")))
       "/a.keys" = 2.
Proof. split; reflexivity. Defined.

(** * Beyond the claims *)

(** ** Update checks that overlap *)

Section Overlap.

Variable X : Externals.




(** X2: feeds are not coalesced: each of [n] feeds that announce a newer
    version sends its own request for the same URL and leaves its own
    reply in flight, whatever is already in flight. *)
Theorem every_newer_feed_sends_a_request
    (w : World) (updates : QJsonObject) (newVersion : QString) (n : nat) :
  getPlatformTag X <> EmptyString ->
  value (toObject (value (toObject (value updates "platform"))
                     (getPlatformTag X))) "version" = JString newVersion ->
  le X (fromString X newVersion) (fromString X (FEATHER_VERSION X)) = false ->
  let hashesUrl :=
    (websiteUrl X ++ "/files/releases/hashes-" ++ newVersion
     ++ "-plain.txt")%string in
  let w' := run X w (repeat (UpdatesReceived updates) n) in
  fetched (trace w') = fetched (trace w) ++ repeat hashesUrl n
  /\ replies w'
     = replies w ++ repeat {| request_url := hashesUrl;
                              bound_platformTag := getPlatformTag X;
                              bound_version := newVersion |} n.
Proof.
  intros Htag Hver Hle hashesUrl.
  assert (Htag' : isEmpty (getPlatformTag X) = false)
    by (destruct (getPlatformTag X); [contradiction|reflexivity]).
  revert w. induction n as [|n IH]; intros w; cbv zeta.
  - cbn. now rewrite !app_nil_r.
  - cbn [repeat run fold_left handle].
    fold (run X (onUpdatesAvailable X w updates) (repeat (UpdatesReceived updates) n)).
    destruct (IH (onUpdatesAvailable X w updates)) as [F R].
    rewrite F, R.
    rewrite (onUpdatesAvailable_newer X w updates newVersion Htag' Hver Hle).
    rewrite arg_hashesUrl. fold hashesUrl. unfold network_get. read_trace.
    rewrite <- !app_assoc. split; reflexivity.
Qed.

End Overlap.

Section FinishOrder.

Variable X : Externals.



End FinishOrder.

(** ** The status line *)

Section StatusLineFacts.

Import StatusLine.

Variable isHwBacked : bool.
Variable isTrezor : bool.
Variable formatBytes : Z -> QString.
Variable default_timeout : Z.

(** The handlers of a window whose [setStatusText] is declared with
    [override = false]. *)
Let handle' := handle isHwBacked isTrezor formatBytes false default_timeout.
Let run' := run isHwBacked isTrezor formatBytes false default_timeout.

(** Unfolds the handlers of the status line down to the record. *)
Ltac status_unfold :=
  unfold handle', handle, onSynchronized, onBlockchainSync, onRefreshSync,
    onConnectionStatusChanged, onEndTransaction, onInitiateTransaction,
    onDeviceButtonRequest, onDeviceButtonPressed, txTimerTimeout, statusDots,
    overrideExpired, updateNetStats, setStatusText, settled, label_free in *.

Lemma handle_settled (w : Window) (s : Signal) :
  settled w -> settled (handle' w s).
Proof.
  destruct w as [lbl net icon txt ov con dots tmr shots spl].
  destruct s as [text override timeout|i| | | |wallet|wallet|h t|h t|status
                 |code| ]; status_unfold; cbn.
  - destruct override, ov, con; cbn; intuition congruence.
  - destruct (nth_error shots i); cbn; [|tauto].
    destruct con; cbn; intuition congruence.
  - destruct tmr; cbn; [|tauto]. intuition congruence.
  - destruct isHwBacked; cbn; intuition congruence.
  - destruct ov, isHwBacked; cbn; intuition congruence.
  - destruct wallet as [[[] b]|], ov, con; cbn; intuition congruence.
  - destruct wallet as [[[] b]|]; cbn; tauto.
  - destruct ov, con; cbn; intuition congruence.
  - destruct ov, con; cbn; intuition congruence.
  - destruct status, ov, con; cbn; intuition congruence.
  - destruct isTrezor, (code =? 1)%Z, con; cbn; tauto.
  - destruct con; cbn; tauto.
Qed.

Lemma handle_requested (w : Window) (s : Signal) :
  m_statusText (handle' w s) = requested (m_statusText w) [s].
Proof.
  destruct w as [lbl net icon txt ov con dots tmr shots spl].
  destruct s as [text override timeout|i| | | |wallet|wallet|h t|h t|status
                 |code| ]; status_unfold; cbn.
  - destruct override, ov, con; reflexivity.
  - destruct (nth_error shots i); cbn; [|reflexivity].
    destruct con; reflexivity.
  - destruct tmr; reflexivity.
  - destruct isHwBacked; reflexivity.
  - destruct ov, isHwBacked; reflexivity.
  - destruct wallet as [[[] b]|], ov, con; reflexivity.
  - destruct wallet as [[[] b]|]; reflexivity.
  - destruct ov, con; reflexivity.
  - destruct ov, con; reflexivity.
  - destruct status, ov, con; reflexivity.
  - destruct isTrezor, (code =? 1)%Z, con; reflexivity.
  - destruct con; reflexivity.
Qed.

Lemma requested_app (start : QString) (l1 l2 : list Signal) :
  requested start (l1 ++ l2) = requested (requested start l1) l2.
Proof.
  revert start. induction l1 as [|s l1 IH]; intros start; [reflexivity|].
  cbn [app requested]. apply IH.
Qed.

(** The transaction timer runs only during a construction: the code
    starts it in [onInitiateTransaction] and stops it in
    [onEndTransaction]. *)
Lemma handle_timer (w : Window) (s : Signal) :
  (m_txTimer w = true -> m_constructingTransaction w = true) ->
  m_txTimer (handle' w s) = true ->
  m_constructingTransaction (handle' w s) = true.
Proof.
  destruct w as [lbl net icon txt ov con dots tmr shots spl].
  destruct s as [text override timeout|i| | | |wallet|wallet|h t|h t|status
                 |code| ]; status_unfold; cbn.
  - destruct override, ov, con; cbn; intuition congruence.
  - destruct (nth_error shots i); cbn; [|tauto].
    destruct con; cbn; intuition congruence.
  - destruct tmr; cbn; [|tauto]. intuition congruence.
  - destruct isHwBacked; cbn; intuition congruence.
  - destruct ov, isHwBacked; cbn; intuition congruence.
  - destruct wallet as [[[] b]|], ov, con; cbn; intuition congruence.
  - destruct wallet as [[[] b]|]; cbn; tauto.
  - destruct ov, con; cbn; intuition congruence.
  - destruct ov, con; cbn; intuition congruence.
  - destruct status, ov, con; cbn; intuition congruence.
  - destruct isTrezor, (code =? 1)%Z, con; cbn; tauto.
  - destruct con; cbn; tauto.
Qed.

(** A free label shows the status text, or the text [start] that no
    handler has replaced yet. *)
Lemma handle_label (start : QString) (w : Window) (s : Signal) :
  (m_txTimer w = true -> m_constructingTransaction w = true) ->
  (label_free w ->
   m_statusLabelStatus w = m_statusText w \/ m_statusLabelStatus w = start) ->
  label_free (handle' w s) ->
  m_statusLabelStatus (handle' w s) = m_statusText (handle' w s)
  \/ m_statusLabelStatus (handle' w s) = start.
Proof.
  destruct w as [lbl net icon txt ov con dots tmr shots spl].
  destruct s as [text override timeout|i| | | |wallet|wallet|h t|h t|status
                 |code| ]; status_unfold; cbn.
  - destruct override, ov, con; cbn; intuition congruence.
  - destruct (nth_error shots i); cbn; [|tauto].
    destruct con; cbn; intuition congruence.
  - destruct tmr; cbn; [|tauto]. intuition congruence.
  - destruct isHwBacked; cbn; intuition congruence.
  - destruct ov, isHwBacked; cbn; intuition congruence.
  - destruct wallet as [[[] b]|], ov, con; cbn; intuition congruence.
  - destruct wallet as [[[] b]|]; cbn; tauto.
  - destruct ov, con; cbn; intuition congruence.
  - destruct ov, con; cbn; intuition congruence.
  - destruct status, ov, con; cbn; intuition congruence.
  - destruct isTrezor, (code =? 1)%Z, con; cbn; tauto.
  - destruct con; cbn; tauto.
Qed.

Lemma run_label (start : QString) (signals : list Signal) (w : Window) :
  (m_txTimer w = true -> m_constructingTransaction w = true) ->
  (label_free w ->
   m_statusLabelStatus w = m_statusText w \/ m_statusLabelStatus w = start) ->
  (m_txTimer (run' w signals) = true ->
   m_constructingTransaction (run' w signals) = true)
  /\ (label_free (run' w signals) ->
      m_statusLabelStatus (run' w signals) = m_statusText (run' w signals)
      \/ m_statusLabelStatus (run' w signals) = start).
Proof.
  revert w. induction signals as [|s signals IH]; intros w Ht Hl.
  - split; assumption.
  - unfold run', run in *. cbn [fold_left]. fold (handle' w s).
    apply IH; [now apply handle_timer|now apply handle_label].
Qed.

Lemma run_requested (signals : list Signal) (w : Window) :
  m_statusText (run' w signals) = requested (m_statusText w) signals.
Proof.
  revert w. induction signals as [|s signals IH]; intros w; [reflexivity|].
  unfold run', run in *. cbn [fold_left]. fold (handle' w s).
  rewrite IH, handle_requested.
  change (s :: signals) with ([s] ++ signals).
  now rewrite requested_app.
Qed.

(** X4: in a window whose transaction timer runs only during a
    construction, as the code starts and stops it, the status text kept is
    always the one asked for last without override, whatever overrides,
    timers and transactions came in between, and the timer keeps to
    constructions.  Whenever no override and no transaction holds the
    label, the label shows that text, or still the text it showed at the
    start; the latter only in a window whose label was free at the start
    and did not show the status text then, as after [initStatusBar],
    which writes [Idle]. *)
Theorem status_label_follows_last_request
    (w : Window) (signals : list Signal) :
  (m_txTimer w = true -> m_constructingTransaction w = true) ->
  let w' := run' w signals in
  m_statusText w' = requested (m_statusText w) signals
  /\ (m_txTimer w' = true -> m_constructingTransaction w' = true)
  /\ (label_free w' ->
      m_statusLabelStatus w' = requested (m_statusText w) signals
      \/ m_statusLabelStatus w' = m_statusLabelStatus w)
  /\ ((label_free w -> m_statusLabelStatus w = m_statusText w) ->
      label_free w' ->
      m_statusLabelStatus w' = requested (m_statusText w) signals).
Proof.
  intros Ht. cbv zeta.
  split; [apply run_requested|].
  destruct (run_label (m_statusLabelStatus w) signals w Ht) as [T L];
    [now right|].
  split; [exact T|]. split.
  - intros F. rewrite <- run_requested. now apply L.
  - intros Hs F. rewrite <- run_requested.
    destruct (run_label (m_statusText w) signals w Ht) as [_ L'].
    + intros Fw. left. now apply Hs.
    + destruct (L' F) as [E|E]; [exact E|].
      destruct (L F) as [E'|E']; [exact E'|].
      assert (G : settled (run' w signals)).
      { clear E E' F L L' T. revert w Ht Hs.
        induction signals as [|s signals IH]; intros w Ht Hs.
        - split; assumption.
        - unfold run', run in *. cbn [fold_left]. fold (handle' w s).
          destruct (handle_settled w s (conj Ht Hs)) as [A B].
          now apply IH. }
      now apply G.
Qed.

End StatusLineFacts.

Section StatusLineTimers.

Import QtText StatusLine.

Variable isHwBacked : bool.
Variable isTrezor : bool.
Variable formatBytes : Z -> QString.
Variable default_timeout : Z.

Let handle' := handle isHwBacked isTrezor formatBytes false default_timeout.
Let run' := run isHwBacked isTrezor formatBytes false default_timeout.

Lemma run_snoc (w : Window) (signals : list Signal) (s : Signal) :
  run' w (signals ++ [s]) = handle' (run' w signals) s.
Proof. unfold run', run. now rewrite fold_left_app. Qed.

Lemma repeat_snoc {A : Type} (x : A) (n : nat) :
  repeat x (S n) = repeat x n ++ [x].
Proof. induction n as [|n IH]; [reflexivity|]. cbn in *. now rewrite <- IH. Qed.

(** While the transaction timer runs, [k] ticks advance the dots by [k],
    four to a round. *)
Lemma ticks_advance (w : Window) (k : nat) :
  m_txTimer w = true ->
  (0 <= m_statusDots w < 4)%Z ->
  let w' := run' w (repeat TxTimerTimeout k) in
  m_txTimer w' = true
  /\ m_statusDots w' = ((m_statusDots w + Z.of_nat k) mod 4)%Z
  /\ (k <> 0 ->
      m_statusLabelStatus w'
      = ("Constructing transaction" ++ repeated "." (m_statusDots w'))%string).
Proof.
  intros Ht Hd. induction k as [|k IH]; cbv zeta.
  - cbn. rewrite Z.add_0_r, Z.mod_small by lia.
    split; [exact Ht|]. split; [reflexivity|].
    intros F. now contradiction F.
  - rewrite repeat_snoc, run_snoc.
    destruct IH as (IHt & IHd & _).
    set (w1 := run' w (repeat TxTimerTimeout k)) in *.
    assert (R : (0 <= m_statusDots w1 < 4)%Z)
      by (rewrite IHd; apply Z.mod_pos_bound; lia).
    unfold handle', handle. rewrite IHt.
    unfold txTimerTimeout, statusDots. cbn.
    assert (E : Cxx.rem (Cxx.int (m_statusDots w1 + 1)) 4
                = ((m_statusDots w + Z.of_nat (S k)) mod 4)%Z).
    { unfold Cxx.rem, Cxx.int.
      replace ((m_statusDots w1 + 1 + 2 ^ 31) mod 2 ^ 32 - 2 ^ 31)%Z
        with (m_statusDots w1 + 1)%Z
        by (rewrite Z.mod_small; lia).
      rewrite Z.rem_mod_nonneg by lia.
      rewrite IHd, Nat2Z.inj_succ.
      rewrite Zplus_mod_idemp_l. f_equal. lia. }
    rewrite E. repeat split; assumption.
Qed.

(** X5: from the start of a transaction's construction, the [k]-th tick of
    the transaction timer writes [Constructing transaction] followed by
    [k mod 4] dots: one, two, three, none, and round again. *)
Theorem constructing_dots_cycle (w : Window) (k : nat) :
  m_statusLabelStatus
    (run' (onInitiateTransaction isHwBacked w) (repeat TxTimerTimeout (S k)))
  = ("Constructing transaction"
     ++ repeated "." (Z.of_nat (S k mod 4)))%string.
Proof.
  destruct (ticks_advance (onInitiateTransaction isHwBacked w) (S k))
    as (_ & D & L).
  - unfold onInitiateTransaction. destruct isHwBacked; reflexivity.
  - unfold onInitiateTransaction. destruct isHwBacked; cbn; lia.
  - rewrite (L ltac:(discriminate)), D.
    replace (m_statusDots (onInitiateTransaction isHwBacked w)) with 0%Z
      by (unfold onInitiateTransaction; destruct isHwBacked; reflexivity).
    rewrite Z.add_0_l.
    change 4%Z with (Z.of_nat 4). now rewrite <- Nat2Z.inj_mod.
Qed.

(** A run of overrides: the label shows the last, the status text is
    untouched, one timer is pending for each. *)
Lemma overrides_run (w : Window) (overrides : list (QString * Z)) :
  let w' := run' w (map (fun o => SetStatusText (fst o) true (snd o))
                      overrides) in
  m_statusText w' = m_statusText w
  /\ m_constructingTransaction w' = m_constructingTransaction w
  /\ singleShots w' = singleShots w ++ map snd overrides
  /\ (overrides <> [] ->
      m_statusOverrideActive w' = true
      /\ m_statusLabelStatus w' = fst (last overrides (EmptyString, 0%Z))).
Proof.
  revert w. induction overrides as [|[t o] overrides IH]; intros w; cbv zeta.
  - cbn. rewrite app_nil_r.
    split; [reflexivity|]. split; [reflexivity|]. split; [reflexivity|].
    intros F. now contradiction F.
  - cbn [map fst snd]. unfold run', run in *. cbn [fold_left].
    destruct (IH (handle isHwBacked isTrezor formatBytes false default_timeout
                    w (SetStatusText t true o))) as (T & C & S & L).
    rewrite T, C, S. cbn. rewrite <- app_assoc.
    split; [reflexivity|]. split; [reflexivity|]. split; [reflexivity|].
    intros _. destruct overrides as [|p overrides].
    + split; reflexivity.
    + apply L. discriminate.
Qed.

(** X6: overrides do not wait for each other.  After any run of
    overrides the label shows the last one, and the first of their timers
    to fire, whichever it is, ends the override for all while the other
    timers are still pending: the label goes back to the status text,
    unless a transaction is being constructed, when the label keeps the
    text of the last override. *)
Theorem first_timer_ends_every_override
    (w : Window) (overrides : list (QString * Z)) (i : nat) :
  overrides <> [] ->
  i < List.length (singleShots w) + List.length overrides ->
  let w1 := run' w (map (fun o => SetStatusText (fst o) true (snd o))
                      overrides) in
  let w2 := handle' w1 (SingleShotTimeout i) in
  m_statusLabelStatus w1 = fst (last overrides (EmptyString, 0%Z))
  /\ m_statusLabelStatus w2
     = (if m_constructingTransaction w
        then fst (last overrides (EmptyString, 0%Z))
        else m_statusText w)
  /\ m_statusText w2 = m_statusText w
  /\ m_statusOverrideActive w2 = false
  /\ List.length (singleShots w2)
     = List.length (singleShots w) + List.length overrides - 1.
Proof.
  intros Hne Hi w1 w2.
  destruct (overrides_run w overrides) as (T & C & Sh & L).
  fold w1 in T, C, Sh, L. destruct (L Hne) as [Lo Ll].
  split; [exact Ll|].
  assert (Hlen : i < List.length (singleShots w1))
    by (rewrite Sh, length_app, length_map; exact Hi).
  subst w2. unfold handle', handle.
  destruct (nth_error (singleShots w1) i) as [t|] eqn:E;
    [|apply nth_error_None in E; lia].
  unfold overrideExpired, setStatusText. cbn.
  rewrite C, T.
  change (match singleShots w1 with [] => [] | _ :: l => skipn i l end)
    with (skipn (S i) (singleShots w1)).
  assert (Len : List.length (firstn i (singleShots w1)
                             ++ skipn (S i) (singleShots w1))
                = List.length (singleShots w) + List.length overrides - 1).
  { rewrite length_app, firstn_length_le, length_skipn by lia.
    rewrite Sh, length_app, length_map in *. lia. }
  destruct (m_constructingTransaction w); cbn; rewrite ?T;
    repeat split; try exact Ll; exact Len.
Qed.

End StatusLineTimers.

Section StatusLineSplash.

Import StatusLine.

Variable isTrezor : bool.
Variable formatBytes : Z -> QString.
Variable default_timeout : Z.

(** The handlers for a wallet that is backed by a hardware device. *)
Let handle' := handle true isTrezor formatBytes false default_timeout.
Let run' := run true isTrezor formatBytes false default_timeout.

Lemma handle_splash (w : Window) (s : Signal) :
  s <> EndTransaction ->
  m_constructingTransaction w = true ->
  splash_visible (m_splashDialog w) = true ->
  m_constructingTransaction (handle' w s) = true
  /\ splash_visible (m_splashDialog (handle' w s)) = true
  /\ ((forall code, s = DeviceButtonRequest code -> code <> 1%Z) ->
      splash_message (m_splashDialog (handle' w s))
      = splash_message (m_splashDialog w)
      \/ s = InitiateTransaction).
Proof.
  intros Hs Hc Hv.
  destruct w as [lbl net icon txt ov con dots tmr shots spl].
  cbn in Hc, Hv. subst con.
  destruct s as [text override timeout|i| | | |wallet|wallet|h t|h t|status
                 |code| ];
    unfold handle', handle, onSynchronized, onBlockchainSync, onRefreshSync,
      onConnectionStatusChanged, onInitiateTransaction, onDeviceButtonRequest,
      onDeviceButtonPressed, txTimerTimeout, statusDots, overrideExpired,
      updateNetStats, setStatusText; cbn.
  - destruct override, ov; cbn; auto.
  - destruct (nth_error shots i); cbn; auto.
  - destruct tmr; cbn; auto.
  - auto.
  - contradiction.
  - destruct wallet as [[[] b]|], ov; cbn; auto.
  - destruct wallet as [[[] b]|]; cbn; auto.
  - destruct ov; cbn; auto.
  - destruct ov; cbn; auto.
  - destruct status, ov; cbn; auto.
  - destruct isTrezor; cbn; auto.
    destruct (Z.eqb_spec code 1) as [->|Hne]; cbn; auto.
    repeat split; try assumption. intros H. now contradiction (H 1%Z eq_refl).
  - auto.
Qed.

(** X7: on a wallet backed by a hardware device the splash dialog that
    [onInitiateTransaction] opens stays open until [onEndTransaction]:
    no status update, timer, device button request or button press hides
    it; and unless the device asks for its PIN (request code 1) it keeps
    the message of the construction. *)
Theorem splash_stays_during_construction
    (w : Window) (signals : list Signal) :
  ~ In EndTransaction signals ->
  let w' := run' (onInitiateTransaction true w) signals in
  m_constructingTransaction w' = true
  /\ splash_visible (m_splashDialog w') = true
  /\ ((forall code, In (DeviceButtonRequest code) signals -> code <> 1%Z) ->
      splash_message (m_splashDialog w') = constructingMessage).
Proof.
  intros Hend. cbv zeta.
  assert (G : forall signals w0,
             ~ In EndTransaction signals ->
             m_constructingTransaction w0 = true ->
             splash_visible (m_splashDialog w0) = true ->
             m_constructingTransaction (run' w0 signals) = true
             /\ splash_visible (m_splashDialog (run' w0 signals)) = true
             /\ ((forall code, In (DeviceButtonRequest code) signals ->
                               code <> 1%Z) ->
                 splash_message (m_splashDialog w0) = constructingMessage ->
                 splash_message (m_splashDialog (run' w0 signals))
                 = constructingMessage)).
  { clear Hend w signals.
    induction signals as [|s signals IH]; intros w0 Hend Hc Hv.
    - repeat split; auto.
    - unfold run', run in *. cbn [fold_left]. fold (handle' w0 s).
      assert (Hs : s <> EndTransaction) by (intros ->; apply Hend; now left).
      destruct (handle_splash w0 s Hs Hc Hv) as (C1 & V1 & M1).
      destruct (IH (handle' w0 s)) as (C2 & V2 & M2); try assumption.
      { intros F. apply Hend. now right. }
      repeat split; try assumption.
      intros Hcode Hm. apply M2.
      + intros code Hin. apply Hcode. now right.
      + destruct M1 as [M1|M1].
        * intros code ->. apply Hcode. now left.
        * now rewrite M1.
        * subst s. reflexivity. }
  destruct (G signals (onInitiateTransaction true w) Hend eq_refl eq_refl)
    as (C & V & M).
  repeat split; try assumption. intros Hcode. now apply M.
Qed.

End StatusLineSplash.

Section SyncText.

Import QtText StatusLine.

Lemma allDigits_uint (d : Decimal.uint) :
  allDigits (DecimalString.NilEmpty.string_of_uint d) = true.
Proof. induction d; cbn; auto. Qed.

(** The decimal text of a number reads back as that number. *)
Lemma toInt_number (z : Z) : toInt (number z) = Some z.
Proof.
  unfold toInt, number.
  rewrite DecimalString.NilZero.isi.
  - cbn. now rewrite DecimalZ.of_to.
  - destruct z; cbn; try discriminate.
    intros [= F]. now apply DecimalPos.Unsigned.to_uint_nonnil in F.
  - destruct z; cbn; try discriminate.
    intros [= F]. now apply DecimalPos.Unsigned.to_uint_nonnil in F.
Qed.

(** A number that is not negative is written with digits alone. *)
Lemma allDigits_number (z : Z) : (0 <= z)%Z -> allDigits (number z) = true.
Proof.
  intros H. unfold number. destruct z as [|p|p]; [reflexivity| |lia].
  cbn. pose proof (DecimalPos.Unsigned.to_uint_nonnil p) as N.
  pose proof (allDigits_uint (Pos.to_uint p)) as D.
  unfold DecimalString.NilZero.string_of_uint.
  destruct (Pos.to_uint p); [contradiction|exact D..].
Qed.

(** A negative number is written with a minus sign. *)
Lemma allDigits_number_neg (z : Z) : (z < 0)%Z -> allDigits (number z) = false.
Proof. intros H. destruct z as [|p|p]; [lia|lia|reflexivity]. Qed.

(** X8: what the synchronisation lines show for the blocks that remain.
    With the height above the target it is a question mark.  With the
    target at or above the height and their difference below 2^31 it is
    exactly [target - height], in digits alone.  With a difference from
    2^31 up, which two [int]s can have, the subtraction wraps and the
    count shown is the negative [target - height - 2^32].  The line goes
    to the label whenever nothing holds the label. *)
Theorem sync_lines_show_the_blocks_left
    (w : Window) (height target : Z) :
  let blocks := blocksRemaining height target in
  ((target < height)%Z -> blocks = "?")
  /\ ((height <= target)%Z -> (target - height < 2 ^ 31)%Z ->
      toInt blocks = Some (target - height)%Z /\ allDigits blocks = true)
  /\ ((2 ^ 31 <= target - height < 2 ^ 32)%Z ->
      toInt blocks = Some (target - height - 2 ^ 32)%Z
      /\ allDigits blocks = false)
  /\ (label_free w ->
      m_statusLabelStatus (onBlockchainSync false 0%Z w height target)
      = ("Blockchain sync: " ++ blocks ++ " blocks remaining")%string
      /\ m_statusLabelStatus (onRefreshSync false 0%Z w height target)
         = ("Wallet sync: " ++ blocks ++ " blocks remaining")%string).
Proof.
  cbv zeta. unfold blocksRemaining. split; [|split; [|split]].
  - intros H. destruct (Z.leb_spec height target); [lia|reflexivity].
  - intros H1 H2. destruct (Z.leb_spec height target); [|lia].
    assert (E : Cxx.int (target - height) = (target - height)%Z)
      by (unfold Cxx.int; rewrite Z.mod_small; lia).
    rewrite E. split; [apply toInt_number|apply allDigits_number; lia].
  - intros H. destruct (Z.leb_spec height target); [|lia].
    assert (E : Cxx.int (target - height) = (target - height - 2 ^ 32)%Z).
    { unfold Cxx.int.
      assert (M : ((target - height + 2 ^ 31) mod 2 ^ 32
                   = target - height - 2 ^ 31)%Z)
        by (symmetry; apply (Z.mod_unique _ _ 1); lia).
      rewrite M. lia. }
    rewrite E. split; [apply toInt_number|apply allDigits_number_neg; lia].
  - intros [Ho Hc]. unfold onBlockchainSync, onRefreshSync, setStatusText.
    cbn. rewrite Ho, Hc. cbn. split; reflexivity.
Qed.

End SyncText.

(** ** Error texts *)

Section ErrorTexts.

Import QtText Transactions.

Lemma prefix_app_sep (p a b : QString) (c : ascii) :
  has_char c p = false ->
  String.prefix p (a ++ String c b) = String.prefix p a.
Proof.
  revert p. induction a as [|x a IH]; intros [|d p] H; cbn; try reflexivity.
  - cbn in H. apply orb_false_iff in H. destruct H as [H _].
    destruct (ascii_dec d c) as [->|_]; [|reflexivity].
    now rewrite Ascii.eqb_refl in H.
  - cbn in H. apply orb_false_iff in H. destruct H as [_ H].
    destruct (ascii_dec d x); [now apply IH|reflexivity].
Qed.

(** A text cut in two by a character that [sub] does not have contains
    [sub] exactly when one of the two parts does. *)
Lemma str_contains_app_sep (sub a b : QString) (c : ascii) :
  has_char c sub = false ->
  str_contains (a ++ String c b) sub
  = str_contains a sub || str_contains b sub.
Proof.
  intros H. induction a as [|x a IH].
  - cbn [append str_contains].
    destruct sub as [|d sub]; [reflexivity|].
    cbn in H. apply orb_false_iff in H. destruct H as [H _].
    cbn [String.prefix].
    destruct (ascii_dec d c) as [->|_]; [now rewrite Ascii.eqb_refl in H|].
    reflexivity.
  - cbn [append str_contains].
    change (String x (a ++ String c b)) with (String x a ++ String c b)%string.
    rewrite (prefix_app_sep sub (String x a) b c H), IH.
    destruct (String.prefix sub (String x a)); reflexivity.
Qed.

(** A hint that starts with a line feed and does not itself contain [sub]
    makes no difference to whether the text contains [sub]. *)
Lemma str_contains_hint (sub err rest : QString) :
  has_char (ascii_of_nat 10) sub = false ->
  str_contains rest sub = false ->
  str_contains (err ++ String (ascii_of_nat 10) rest) sub
  = str_contains err sub.
Proof.
  intros H R. rewrite (str_contains_app_sep sub err rest _ H), R.
  apply orb_false_r.
Qed.

Lemma str_contains_after (sub err hint rest : QString) :
  hint = String (ascii_of_nat 10) rest ->
  has_char (ascii_of_nat 10) sub = false ->
  str_contains rest sub = false ->
  str_contains (err ++ hint) sub = str_contains err sub.
Proof. intros ->. apply str_contains_hint. Qed.

Lemma append_assoc (a b c : QString) :
  ((a ++ b) ++ c)%string = (a ++ (b ++ c))%string.
Proof. induction a as [|x a IH]; cbn; [reflexivity|now rewrite IH]. Qed.

(** Looks through the hint [h] at the end of a tested text. *)
Ltac skip_hint h :=
  rewrite (fun sub err => str_contains_after sub err h _ eq_refl)
    by (vm_compute; reflexivity).

(** The tests of [displayWalletErrorMsg] could all be made on the text it
    was given. *)
Lemma walletErrorMsg_hints (err : QString) :
  walletErrorMsg err = (err ++ hintsFor err)%string.
Proof.
  unfold walletErrorMsg, hintsFor.
  destruct (str_contains err "No device found").
  + skip_hint hintNoDevice.
    destruct (str_contains err "Unable to open device").
    * repeat skip_hint hintInUse. repeat skip_hint hintNoDevice.
      destruct (str_contains err "SW_CLIENT_NOT_SUPPORTED");
        [|destruct (str_contains err "Wrong Device Status");
          [|destruct (str_contains err "Wrong Channel")]];
        now rewrite ?append_assoc, ?append_empty.
    * repeat skip_hint hintNoDevice.
      destruct (str_contains err "SW_CLIENT_NOT_SUPPORTED");
        [|destruct (str_contains err "Wrong Device Status");
          [|destruct (str_contains err "Wrong Channel")]];
        now rewrite ?append_assoc, ?append_empty.
  + destruct (str_contains err "Unable to open device").
    * repeat skip_hint hintInUse.
      destruct (str_contains err "SW_CLIENT_NOT_SUPPORTED");
        [|destruct (str_contains err "Wrong Device Status");
          [|destruct (str_contains err "Wrong Channel")]];
        now rewrite ?append_assoc, ?append_empty.
    * destruct (str_contains err "SW_CLIENT_NOT_SUPPORTED");
        [|destruct (str_contains err "Wrong Device Status");
          [|destruct (str_contains err "Wrong Channel")]];
        now rewrite ?append_assoc, ?append_empty.
Qed.

Lemma prefix_app (p s h : QString) :
  String.prefix p s = true -> String.prefix p (s ++ h) = true.
Proof.
  revert p. induction s as [|c s IH]; intros [|d p]; cbn; try easy.
  - now destruct h.
  - destruct (ascii_dec d c); [apply IH|easy].
Qed.

(** X9: the hints that [displayWalletErrorMsg] and
    [onCreateTransactionError] append never set each other off: the text
    shown is the text received (after the fixed heading of the second)
    followed by the hints that the received text alone calls for, so a
    text with none of the markers is shown unchanged. *)
Theorem error_hints_follow_the_received_text (err : QString) :
  displayWalletErrorMsg err
  = [QMessageBox_warning "Wallet error" (err ++ hintsFor err)]
  /\ onCreateTransactionError err
     = [QMessageBox_warning "Transaction failed"
          ("Error while creating transaction: " ++ err
           ++ (if str_contains err "failed to get random outs"
               then hintTooManyInputs else ""))].
Proof.
  split.
  - unfold displayWalletErrorMsg. now rewrite walletErrorMsg_hints.
  - unfold onCreateTransactionError. do 2 f_equal.
    change (arg "Error while creating transaction: %1" [err])
      with ("Error while creating transaction: " ++ (err ++ ""))%string.
    rewrite append_empty.
    change (str_contains ("Error while creating transaction: " ++ err)
              "failed to get random outs")
      with (str_contains err "failed to get random outs").
    destruct (str_contains err "failed to get random outs");
      [|now rewrite append_empty].
    now rewrite append_assoc.
Qed.

End ErrorTexts.

(** ** Constructed transactions *)

Section ConstructedTransactions.

Import QtText Transactions.

Variable baseAddress : QString -> QString.

Lemma set_contains_spec (set other : list QString) :
  set_contains set other = true <-> forall x, In x other -> In x set.
Proof.
  unfold set_contains. rewrite forallb_forall. split; intros H x Hx.
  - apply H in Hx. apply existsb_exists in Hx.
    destruct Hx as (y & Hy & E). apply String.eqb_eq in E. now subst y.
  - apply existsb_exists. exists x. split; [now apply H|apply String.eqb_refl].
Qed.

Lemma giveUp_proceeds (err : QString) :
  filter proceeds (giveUp err) = [].
Proof. reflexivity. Qed.


(** X11: a transaction that fails a check is given up in one way: its
    status is not Ok, or it is no transaction or more than one, or a
    destination is missing from its outputs; then the window logs, shows
    one warning whose text begins with [Can't create transaction: ],
    disposes of the transaction, and neither caches it nor opens a
    dialog, cancels or commits. *)
Theorem failed_transaction_is_given_up
    (ctx : Context) (dialog : TxConfResult) (tx : PendingTransaction)
    (address : list QString) :
  status tx = Status_NotOk \/ txCount tx <> 1%N
  \/ (exists a, In a address
                /\ ~ In (baseAddress a) (map baseAddress (outputs tx))) ->
  let events := onCreateTransactionSuccess baseAddress ctx dialog tx address in
  filter proceeds events = []
  /\ exists before text,
       events = before ++ [QMessageBox_warning "Wallet error" text;
                           disposeTransaction]
       /\ String.prefix "Can't create transaction: " text = true
       /\ forall e, In e before ->
                    (exists m, e = qCritical m) \/ (exists m, e = qDebug m)
                    \/ e = refresh.
Proof.
  intros H. cbv zeta. unfold onCreateTransactionSuccess.
  assert (G : forall err,
             String.prefix "Can't create transaction: " err = true ->
             String.prefix "Can't create transaction: "
               (walletErrorMsg err) = true).
  { intros err Hp. rewrite walletErrorMsg_hints. now apply prefix_app. }
  destruct (status tx) eqn:St.
  - destruct (N.eqb_spec (txCount tx) 0) as [E0|E0].
    { split; [reflexivity|]. eexists [_], _. split; [reflexivity|].
      split; [apply G; reflexivity|].
      intros e [<-|[]]. right; left. eauto. }
    destruct (N.ltb_spec 1 (txCount tx)) as [E1|E1].
    { split; [reflexivity|]. eexists [_], _. split; [reflexivity|].
      split; [apply G; reflexivity|].
      intros e [<-|[]]. right; left. eauto. }
    destruct (set_contains _ _) eqn:Es; cbn [negb].
    + exfalso. destruct H as [H|[H|(a & Ha & Hn)]]; [discriminate|lia|].
      apply Hn. apply (proj1 (set_contains_spec _ _) Es). now apply in_map.
    + split; [reflexivity|]. eexists [_; _], _. split; [reflexivity|].
      split; [apply G; reflexivity|].
      intros e [<-|[<-|[]]]; [right; right; reflexivity|right; left; eauto].
  - split.
    { destruct (connectionStatus ctx), (str_contains _ _); reflexivity. }
    eexists [_; _], _. split; [reflexivity|]. split.
    + apply G.
      destruct (connectionStatus ctx), (str_contains _ _); reflexivity.
    + intros e [<-|[<-|[]]]; [left; eauto|right; left; eauto].
Qed.

End ConstructedTransactions.

(** ** The donation reminder *)

Section DonationFacts.

Import Donation.

Variable donationBoundary : Z.
Variable donationAddress : QString.

(** One more opening passes a multiple of the boundary exactly when the
    quotient goes up. *)
Lemma div_succ (b c : Z) :
  (0 < b)%Z ->
  ((c + 1) / b - c / b)%Z = if ((c + 1) mod b =? 0)%Z then 1%Z else 0%Z.
Proof.
  intros Hb.
  pose proof (Z.div_mod c b ltac:(lia)) as D.
  pose proof (Z.mod_pos_bound c b Hb) as R.
  destruct (Z.eq_dec (c mod b + 1) b) as [E|E].
  - assert (Q : ((c + 1) / b = c / b + 1)%Z)
      by (symmetry; apply (Z.div_unique (c + 1) b (c / b + 1) 0); lia).
    assert (M : ((c + 1) mod b = 0)%Z)
      by (symmetry; apply (Z.mod_unique (c + 1) b (c / b + 1) 0); lia).
    rewrite Q, M. cbn. lia.
  - assert (Q : ((c + 1) / b = c / b)%Z)
      by (symmetry; apply (Z.div_unique (c + 1) b (c / b) (c mod b + 1)); lia).
    assert (M : ((c + 1) mod b = c mod b + 1)%Z)
      by (symmetry; apply (Z.mod_unique (c + 1) b (c / b) (c mod b + 1)); lia).
    rewrite Q, M. destruct (Z.eqb_spec (c mod b + 1) 0); lia.
Qed.

(** The remainder of C++ and the one of [mod] vanish together. *)
Lemma rem_zero (a b : Z) :
  (0 < b)%Z -> (Cxx.rem a b =? 0)%Z = (a mod b =? 0)%Z.
Proof.
  intros Hb. unfold Cxx.rem.
  destruct (Z.eqb_spec (Z.rem a b) 0) as [E|E],
           (Z.eqb_spec (a mod b) 0) as [F|F]; try reflexivity; exfalso.
  - apply F. apply Z.mod_divide; [lia|]. apply Z.rem_divide in E; [exact E|lia].
  - apply E. apply Z.rem_divide; [lia|]. apply Z.mod_divide in F; [exact F|lia].
Qed.

Lemma reminders_app (l1 l2 : list Event) :
  reminders (l1 ++ l2) = reminders l1 + reminders l2.
Proof.
  induction l1 as [|e l1 IH]; [reflexivity|].
  destruct e; cbn; now rewrite IH.
Qed.

(** One opening of an eligible wallet that has not opted out. *)
Lemma donationNag_counts (ctx : Context) (answer c : Z) :
  eligible ctx -> (0 < donationBoundary)%Z -> c <> (-1)%Z ->
  (- 2 ^ 31 <= c < 2 ^ 31 - 1)%Z ->
  fst (donationNag donationBoundary donationAddress ctx answer c) = (c + 1)%Z
  /\ Z.of_nat (reminders
                 (snd (donationNag donationBoundary donationAddress
                         ctx answer c)))
     = ((c + 1) / donationBoundary - c / donationBoundary)%Z.
Proof.
  intros (Hn & Hv & Hb) Hpos Hne Hc. unfold donationNag.
  rewrite Hn, Hv. destruct (N.eqb_spec (balanceAll ctx) 0); [contradiction|].
  destruct (Z.eqb_spec c (-1)); [contradiction|].
  assert (E : Cxx.int (c + 1) = (c + 1)%Z)
    by (unfold Cxx.int; rewrite Z.mod_small; lia).
  rewrite E. cbn [fst snd]. split; [reflexivity|].
  rewrite div_succ by lia. rewrite rem_zero by lia.
  destruct (Z.eqb_spec ((c + 1) mod donationBoundary) 0); [|reflexivity].
  cbn [reminders]. unfold donateButtonClicked.
  destruct (answer =? Yes)%Z; reflexivity.
Qed.

(** At -1 nothing moves. *)
Lemma openings_opted_out (ctx : Context) (answers : list Z) :
  openings donationBoundary donationAddress ctx answers (-1)
  = ((-1)%Z, []).
Proof.
  induction answers as [|answer answers IH]; [reflexivity|].
  cbn [openings].
  assert (E : donationNag donationBoundary donationAddress ctx answer (-1)
              = ((-1)%Z, [])).
  { unfold donationNag. destruct (networkType ctx); try reflexivity.
    destruct (viewOnly ctx); [reflexivity|].
    destruct (balanceAll ctx =? 0)%N; reflexivity. }
  rewrite E, IH. reflexivity.
Qed.

(** X12: for a main-net wallet with funds that is not view-only and whose
    stored counter is not -1, every opening of the window adds one to the
    stored counter, a negative counter stopping at -1, where it reads as
    opted out; and the reminder is shown exactly at the openings that
    bring the counter to a multiple of the boundary, whatever the user
    answers: over [n] openings from counter [c] that end at [last], that
    is the number of multiples of the boundary in [c+1 .. last].  The
    counter is an [int]. *)
Theorem reminder_at_every_boundary
    (ctx : Context) (answers : list Z) (c : Z) :
  eligible ctx -> (0 < donationBoundary)%Z -> c <> (-1)%Z ->
  (- 2 ^ 31 <= c)%Z ->
  (c + Z.of_nat (List.length answers) < 2 ^ 31)%Z ->
  let last :=
    if (c <? -1)%Z then Z.min (c + Z.of_nat (List.length answers)) (-1)
    else (c + Z.of_nat (List.length answers))%Z in
  fst (openings donationBoundary donationAddress ctx answers c) = last
  /\ Z.of_nat (reminders
                 (snd (openings donationBoundary donationAddress
                         ctx answers c)))
     = (last / donationBoundary - c / donationBoundary)%Z.
Proof.
  intros He Hb. revert c.
  induction answers as [|answer answers IH]; intros c Hne Hlo Hn; cbv zeta.
  - cbn. rewrite Z.add_0_r.
    destruct (Z.ltb_spec c (-1)).
    + rewrite Z.min_l by lia. split; [reflexivity|lia].
    + split; [reflexivity|lia].
  - cbn [openings List.length] in *.
    destruct (donationNag_counts ctx answer c He Hb Hne ltac:(lia)) as [F R].
    destruct (donationNag donationBoundary donationAddress ctx answer c)
      as [c1 ev1]. cbn [fst snd] in F, R. subst c1.
    destruct (Z.eq_dec (c + 1) (-1)) as [E1|E1].
    + rewrite E1, openings_opted_out. cbn [fst snd].
      rewrite app_nil_r, R, E1.
      destruct (Z.ltb_spec c (-1)); [|lia].
      rewrite Z.min_r by lia. split; reflexivity.
    + specialize (IH (c + 1)%Z E1 ltac:(lia) ltac:(lia)). cbv zeta in IH.
      destruct IH as [F' R'].
      destruct (openings donationBoundary donationAddress ctx answers (c + 1))
        as [c2 ev2]. cbn [fst snd] in *.
      rewrite reminders_app, Nat2Z.inj_add, R, R', F'.
      replace (c + 1 + Z.of_nat (List.length answers))%Z
        with (c + Z.of_nat (S (List.length answers)))%Z by lia.
      destruct (Z.ltb_spec c (-1)), (Z.ltb_spec (c + 1) (-1)); try lia;
        split; try reflexivity; lia.
Qed.

(** X13: the reminder never shows and the stored counter never moves,
    over any number of openings, once the counter is -1, and likewise for
    a wallet that is not on the main net, is view-only or holds nothing. *)
Theorem reminder_never_after_opt_out
    (ctx : Context) (answers : list Z) (c : Z) :
  c = (-1)%Z \/ networkType ctx <> MAINNET \/ viewOnly ctx = true
  \/ balanceAll ctx = 0%N ->
  openings donationBoundary donationAddress ctx answers c = (c, []).
Proof.
  intros H. induction answers as [|answer answers IH]; [reflexivity|].
  cbn [openings].
  assert (E : donationNag donationBoundary donationAddress ctx answer c
              = (c, [])).
  { unfold donationNag. destruct (networkType ctx) eqn:En; try reflexivity.
    destruct (viewOnly ctx) eqn:Ev; [reflexivity|].
    destruct (N.eqb_spec (balanceAll ctx) 0) as [Eb|Eb]; [reflexivity|].
    destruct (Z.eqb_spec c (-1)) as [Ec|Ec]; [reflexivity|].
    exfalso. destruct H as [H|[H|[H|H]]]; congruence. }
  rewrite E, IH. reflexivity.
Qed.

End DonationFacts.

(** ** The inactivity lock *)

Section LockFacts.

Import Lock.

Variable walletName : QString.
Variable walletPassword : QString.

(** What [verifyPassword] returns, read off the script. *)
Lemma verifyPassword_from_spec (incorrect sensitive : bool)
    (script : list PasswordAttempt) :
  let '(r, events, rest) :=
    verifyPassword_from walletName walletPassword incorrect sensitive script in
  exists ws tail,
    script = ws ++ tail
    /\ Forall (wrong walletPassword) ws
    /\ flags events = incorrect :: repeat true (List.length ws)
    /\ match r with
       | Some true =>
           exists a, tail = a :: rest /\ ret a <> Rejected
                     /\ password a = walletPassword
       | Some false => exists a, tail = a :: rest /\ ret a = Rejected
       | None => tail = [] /\ rest = []
       end.
Proof.
  revert incorrect. induction script as [|a script IH]; intros incorrect.
  - cbn. exists [], []. repeat split; constructor.
  - cbn [verifyPassword_from].
    destruct (Z.eqb_spec (ret a) Rejected) as [Er|Er].
    + exists [], (a :: script). repeat split; [constructor|]. now exists a.
    + destruct (String.eqb_spec (password a) walletPassword) as [Ep|Ep];
        cbn [negb].
      * exists [], (a :: script). repeat split; [constructor|]. now exists a.
      * specialize (IH true).
        destruct (verifyPassword_from walletName walletPassword true
                    sensitive script) as [[r events] rest].
        destruct IH as (ws & tail & Hs & Hw & Hf & Hr).
        exists (a :: ws), tail. repeat split.
        -- cbn. now rewrite Hs.
        -- constructor; [now split|exact Hw].
        -- cbn. now rewrite Hf.
        -- exact Hr.
Qed.

(** X14: [verifyPassword] returns true only when the wallet's password
    was entered, after nothing but wrong passwords, and false only when a
    dialog was cancelled; each wrong password opens one more dialog, the
    first without and all later ones with the incorrect-password notice;
    what follows the deciding dialog in the script is left unused. *)
Theorem verifyPassword_needs_the_password
    (sensitive : bool) (script : list PasswordAttempt) :
  let '(r, events, rest) :=
    verifyPassword walletName walletPassword sensitive script in
  exists ws tail,
    script = ws ++ tail
    /\ Forall (wrong walletPassword) ws
    /\ flags events = false :: repeat true (List.length ws)
    /\ match r with
       | Some true =>
           exists a, tail = a :: rest /\ ret a <> Rejected
                     /\ password a = walletPassword
       | Some false => exists a, tail = a :: rest /\ ret a = Rejected
       | None => tail = [] /\ rest = []
       end.
Proof. apply verifyPassword_from_spec. Qed.

(** X15: the inactivity lock.  The window locks only when the lock is
    enabled, no transaction is being constructed and the last activity is
    older than the timeout; a window that locked shows its tabs, status
    bar and menu again, and restarts its timer, only if the wallet's
    password was entered before any dialog was cancelled, and otherwise
    keeps them hidden, closing itself when a dialog is cancelled; and
    activity at time [t] keeps the window unlocked up to [t] plus the
    timeout. *)
Theorem lock_opens_only_with_the_password
    (cfg : Config) (constructing : bool) (now : Z)
    (script : list PasswordAttempt) (w : Window) :
  let '(w', events) :=
    checkUserActivity walletName walletPassword cfg constructing now script w in
  ((inactivityLockEnabled cfg = false \/ constructing = true
    \/ inactive cfg now w = false) -> w' = w /\ events = [])
  /\ (inactivityLockEnabled cfg = true -> constructing = false ->
      inactive cfg now w = true ->
      ((exists ws a rest,
          script = ws ++ a :: rest /\ Forall (wrong walletPassword) ws
          /\ ret a <> Rejected /\ password a = walletPassword)
       /\ tabWidget_visible w' = true /\ statusBar_visible w' = true
       /\ menuBar_visible w' = true /\ m_checkUserActivity w' = true
       /\ closed w' = closed w)
      \/ (tabWidget_visible w' = false /\ statusBar_visible w' = false
          /\ menuBar_visible w' = false /\ m_checkUserActivity w' = false
          /\ ((exists ws a rest,
                 script = ws ++ a :: rest /\ Forall (wrong walletPassword) ws
                 /\ ret a = Rejected)
              /\ closed w' = true /\ enabled w' = false
              \/ Forall (wrong walletPassword) script
                 /\ closed w' = closed w)))
  /\ (forall t, (0 <= inactivityLockTimeout cfg * 60 < 2 ^ 31)%Z ->
                (now <= t + inactivityLockTimeout cfg * 60)%Z ->
                checkUserActivity walletName walletPassword cfg constructing
                  now script (userActivity t w)
                = (userActivity t w, [])).
Proof.
  unfold checkUserActivity, verifyPassword.
  pose proof (verifyPassword_from_spec false false script) as V.
  destruct (verifyPassword_from walletName walletPassword false false script)
    as [[r dialogs] rest].
  destruct V as (ws & tail & Hs & Hw & _ & Hr).
  destruct (inactivityLockEnabled cfg) eqn:Ee; cbn [negb].
  2:{ split; [now split|]. split; [discriminate|].
      intros t _ _. reflexivity. }
  destruct constructing.
  { split; [now split|]. split; [discriminate|].
    intros t _ _. reflexivity. }
  assert (A : forall t, (0 <= inactivityLockTimeout cfg * 60 < 2 ^ 31)%Z ->
                        (now <= t + inactivityLockTimeout cfg * 60)%Z ->
                        inactive cfg now (userActivity t w) = false).
  { intros t Ht Hn. unfold inactive, userActivity. cbn.
    assert (E : Cxx.int (inactivityLockTimeout cfg * 60)
                = (inactivityLockTimeout cfg * 60)%Z)
      by (unfold Cxx.int; rewrite Z.mod_small; lia).
    rewrite E. apply Z.ltb_ge. lia. }
  destruct (inactive cfg now w) eqn:Ei.
  2:{ split; [now split|]. split; [discriminate|].
      intros t Ht Hn. now rewrite (A t Ht Hn). }
  destruct r as [[|]|].
  - split; [intros [F|[F|F]]; discriminate|]. split.
    + intros _ _ _. left. destruct Hr as (a & -> & Ha & Hp).
      split; [now exists ws, a, rest|]. now cbn.
    + intros t Ht Hn. now rewrite (A t Ht Hn).
  - split; [intros [F|[F|F]]; discriminate|]. split.
    + intros _ _ _. right. cbn. repeat split. left.
      destruct Hr as (a & -> & Ha). split; [now exists ws, a, rest|].
      now split.
    + intros t Ht Hn. now rewrite (A t Ht Hn).
  - split; [intros [F|[F|F]]; discriminate|]. split.
    + intros _ _ _. right. cbn. repeat split. right.
      destruct Hr as [-> ->]. rewrite app_nil_r in Hs. subst ws.
      now split.
    + intros t Ht Hn. now rewrite (A t Ht Hn).
Qed.

End LockFacts.

(** ** The menu of recently opened wallets *)

Section RecentMenuFacts.

Import RecentMenu.

Variable X : Externals.
Variable defaultRecent : list QString.

Lemma fold_runSlot_menu (slots : list Slot) (w : World) :
  menuRecently_open (fold_left (runSlot X) slots w) = menuRecently_open w.
Proof.
  revert w. induction slots as [|[v b h s] slots IH]; intros w;
    [reflexivity|].
  cbn [fold_left]. now rewrite IH.
Qed.

Lemma onSignedHashesReceived_menu w reply platformTag version :
  menuRecently_open (onSignedHashesReceived X w reply platformTag version)
  = menuRecently_open w.
Proof.
  unfold onSignedHashesReceived.
  destruct (negb _); [reflexivity|].
  destruct (verifyParseSignedHashes X _ _) as [what s|h s]; [reflexivity|].
  destruct (ba_isEmpty h); reflexivity.
Qed.

Lemma onUpdatesAvailable_menu w updates :
  menuRecently_open (onUpdatesAvailable X w updates) = menuRecently_open w.
Proof.
  unfold onUpdatesAvailable.
  destruct (isEmpty _); [reflexivity|].
  destruct (obj_isEmpty _); [reflexivity|].
  destruct (le X _ _); reflexivity.
Qed.

Lemma updateRecentlyOpenedMenu_mirrors (w : World) :
  mirrors (updateRecentlyOpenedMenu w).
Proof. reflexivity. Qed.

Lemma step_rebuilds (w : World) (s : Step) :
  rebuilds s = true -> mirrors (step X defaultRecent w s).
Proof.
  destruct s as [|[updates|k reply| |balance spendable_|keysFile]|keysFile|];
    try discriminate; intros _; apply updateRecentlyOpenedMenu_mirrors.
Qed.

Lemma step_menu (w : World) (s : Step) :
  rebuilds s = false ->
  menuRecently_open (step X defaultRecent w s) = menuRecently_open w.
Proof.
  destruct s as [|[updates|k reply| |balance spendable_|keysFile]|keysFile|];
    try discriminate; intros _; cbn [step handle].
  - apply onUpdatesAvailable_menu.
  - unfold replyFinished. destruct (nth_error (replies w) k); [|reflexivity].
    now rewrite onSignedHashesReceived_menu.
  - unfold click. apply fold_runSlot_menu.
  - reflexivity.
  - reflexivity.
  - reflexivity.
Qed.

Lemma step_config (w : World) (s : Step) :
  rebuilds s = false -> elsewhere s = false ->
  config (step X defaultRecent w s) = config w.
Proof.
  destruct s as [|[updates|k reply| |balance spendable_|keysFile]|keysFile|];
    try discriminate; intros _ _; cbn [step handle].
  - apply (onUpdatesAvailable_config X).
  - unfold replyFinished. destruct (nth_error (replies w) k); [|reflexivity].
    now rewrite (onSignedHashesReceived_config X).
  - unfold click. apply (fold_runSlot_config X).
  - reflexivity.
Qed.

Lemma steps_app (w : World) (l1 l2 : list Step) :
  steps X defaultRecent w (l1 ++ l2)
  = steps X defaultRecent (steps X defaultRecent w l1) l2.
Proof. unfold steps. apply fold_left_app. Qed.

Lemma steps_menu (l : list Step) (w : World) :
  Forall (fun t => rebuilds t = false) l ->
  menuRecently_open (steps X defaultRecent w l) = menuRecently_open w.
Proof.
  intros H. revert w. induction H as [|s l Hs _ IH]; intros w; [reflexivity|].
  unfold steps in *. cbn [fold_left]. now rewrite IH, step_menu.
Qed.

Lemma steps_config (l : list Step) (w : World) :
  Forall (fun t => rebuilds t = false) l ->
  Forall (fun t => elsewhere t = false) l ->
  config (steps X defaultRecent w l) = config w.
Proof.
  intros H. revert w. induction H as [|s l Hs _ IH]; intros w He;
    [reflexivity|].
  inversion He as [|? ? Es El]; subst.
  unfold steps in *. cbn [fold_left]. now rewrite IH, step_config.
Qed.

Lemma opens_mirror (l : list QString) :
  opens (map (fun walletPath =>
                Action (fileName_from EmptyString walletPath) walletPath) l
         ++ [Separator; ClearRecentlyOpenAction]) = l.
Proof. induction l as [|x l IH]; [reflexivity|]. cbn. now rewrite IH. Qed.

(** X16: the menu of recently opened wallets shows the stored list as it
    was when this window last rebuilt the menu, that is after it last
    added its wallet or cleared the history: one action for each wallet
    stored then, in order, each opening the wallet it stands for, then the
    separator and the clearing action.  Update checks, clicks, balance
    updates and what other windows write to the shared configuration
    leave the menu as it is; so the menu shows the list that is stored as
    long as no other window has written since. *)
Theorem recent_menu_shows_the_list_of_its_last_rebuild
    (before : list Step) (s : Step) (after : list Step) (w : World) :
  rebuilds s = true ->
  Forall (fun t => rebuilds t = false) after ->
  let w1 := steps X defaultRecent w (before ++ [s]) in
  let w2 := steps X defaultRecent w (before ++ s :: after) in
  mirrors w1
  /\ menuRecently_open w2 = menuRecently_open w1
  /\ opens (menuRecently_open w2) = recentlyOpenedWallets (config w1)
  /\ (Forall (fun t => elsewhere t = false) after -> mirrors w2).
Proof.
  intros Hs Ha. cbv zeta.
  assert (M : mirrors (steps X defaultRecent w (before ++ [s]))).
  { rewrite steps_app. unfold steps at 1. cbn [fold_left].
    now apply step_rebuilds. }
  assert (E : steps X defaultRecent w (before ++ s :: after)
              = steps X defaultRecent
                  (steps X defaultRecent w (before ++ [s])) after).
  { rewrite <- steps_app, <- app_assoc. reflexivity. }
  rewrite E. split; [exact M|]. split; [now apply steps_menu|]. split.
  - rewrite steps_menu by exact Ha. rewrite M. apply opens_mirror.
  - intros He. unfold mirrors.
    rewrite steps_menu, steps_config by assumption. exact M.
Qed.

End RecentMenuFacts.

(** ** Exports and imports *)

Section FilesFacts.

Import QtText Files.

Variable homePath : QString.

Lemma endsWith_refl (s : QString) : endsWith s s = true.
Proof. destruct s; cbn [endsWith]; now rewrite String.eqb_refl. Qed.

Lemma endsWith_app (pre suffix : QString) :
  endsWith (pre ++ suffix) suffix = true.
Proof.
  induction pre as [|c pre IH]; [apply endsWith_refl|].
  cbn [String.append endsWith]. rewrite IH. now destruct (String.eqb _ _).
Qed.

Lemma endsWith_spec (s suffix : QString) :
  endsWith s suffix = true -> exists pre, s = (pre ++ suffix)%string.
Proof.
  induction s as [|c s IH]; cbn [endsWith].
  - destruct (String.eqb_spec EmptyString suffix) as [E|E]; [|discriminate].
    intros _. now exists EmptyString.
  - destruct (String.eqb_spec (String c s) suffix) as [E|E].
    + intros _. now exists EmptyString.
    + intros H. destruct (IH H) as [pre ->]. now exists (String c pre).
Qed.

(** What [withSuffix] returns ends with the suffix, and is the name itself
    if that did so. *)
Lemma withSuffix_spec (fn suffix : QString) :
  endsWith (withSuffix fn suffix) suffix = true
  /\ (exists pre, withSuffix fn suffix = (pre ++ suffix)%string)
  /\ (withSuffix fn suffix = fn
      \/ withSuffix fn suffix = (fn ++ suffix)%string)
  /\ (endsWith fn suffix = true -> withSuffix fn suffix = fn)
  /\ withSuffix (withSuffix fn suffix) suffix = withSuffix fn suffix.
Proof.
  assert (E : endsWith (withSuffix fn suffix) suffix = true).
  { unfold withSuffix. destruct (endsWith fn suffix) eqn:H; cbn [negb];
      [exact H|apply endsWith_app]. }
  split; [exact E|]. split; [now apply endsWith_spec|].
  split; [|split].
  - unfold withSuffix. destruct (endsWith fn suffix); cbn [negb]; auto.
  - unfold withSuffix. now intros ->.
  - unfold withSuffix at 1. now rewrite E.
Qed.

Lemma withSuffix_suffixed (chosen suffix : QString) :
  isEmpty chosen = false -> suffixed chosen suffix (withSuffix chosen suffix).
Proof.
  intros N. destruct (withSuffix_spec chosen suffix) as (_ & A & B & C & D).
  split; [now intros ->|]. auto.
Qed.

(** X17: The three exports write to no file when the dialog returns no
    name (and the history export when there is no wallet), and otherwise
    to one file, whose name ends with the suffix of the export: the chosen
    name if it has the suffix, which is not added twice, and the chosen
    name with the suffix added if not. *)
Theorem exports_write_to_a_suffixed_file (hasWallet : bool)
    (walletName : QString) (now : Z) (chosen : QString) (r : bool)
    (errorString : QString) :
  Forall (suffixed chosen ".csv")
    (written (onExportHistoryCSV homePath hasWallet chosen))
  /\ Forall (suffixed chosen "_keyImages")
       (written (exportKeyImages homePath walletName now chosen r
                   errorString))
  /\ Forall (suffixed chosen "_outputs")
       (written (exportOutputs homePath walletName now chosen r errorString))
  /\ (List.length (written (onExportHistoryCSV homePath hasWallet chosen))
      = if hasWallet && negb (isEmpty chosen) then 1 else 0)%nat
  /\ (List.length
        (written (exportKeyImages homePath walletName now chosen r
                    errorString))
      = if isEmpty chosen then 0 else 1)%nat
  /\ (List.length
        (written (exportOutputs homePath walletName now chosen r
                    errorString))
      = if isEmpty chosen then 0 else 1)%nat.
Proof.
  unfold onExportHistoryCSV, exportKeyImages, exportOutputs.
  destruct (isEmpty chosen) eqn:N.
  - destruct hasWallet; cbn; repeat split; apply Forall_nil.
  - pose proof (withSuffix_suffixed chosen ".csv" N) as A.
    pose proof (withSuffix_suffixed chosen "_keyImages" N) as B.
    pose proof (withSuffix_suffixed chosen "_outputs" N) as C.
    destruct hasWallet; cbn [negb andb written List.length];
      destruct r; cbn [negb written List.length];
      repeat split; try apply Forall_nil;
      (apply Forall_cons; [assumption|apply Forall_nil]).
Qed.

Variable addressValid : QString -> bool.

Lemma importRows_spec (rows : list (QString * QString)) (inserts : Z) :
  (0 <= inserts)%Z ->
  (inserts + Z.of_nat (List.length rows) < 2 ^ 31)%Z ->
  let valid := filter (fun row => addressValid (snd row)) rows in
  importRows addressValid rows inserts
  = (map (fun row => AddressBook_addRow (snd row) EmptyString (fst row))
       valid,
     (inserts + Z.of_nat (List.length valid))%Z).
Proof.
  revert inserts. induction rows as [|[key value] rows IH];
    intros inserts H0 H1; cbv zeta.
  - cbn. now rewrite Z.add_0_r.
  - cbn [importRows filter snd]. cbn [List.length] in H1.
    destruct (addressValid value).
    + assert (E : Cxx.int (inserts + 1) = (inserts + 1)%Z).
      { unfold Cxx.int. rewrite Z.mod_small; lia. }
      rewrite E, IH by lia. cbv zeta. cbn [map fst snd List.length].
      f_equal. lia.
    + apply IH; lia.
Qed.

Lemma added_app (a b : list Event) : added (a ++ b) = added a ++ added b.
Proof.
  induction a as [|e a IH]; [reflexivity|].
  destruct e; cbn; now rewrite ?IH.
Qed.

Lemma added_addRows (rows : list (QString * QString)) :
  added (map (fun row => AddressBook_addRow (snd row) EmptyString (fst row))
           rows) = rows.
Proof.
  induction rows as [|[k v] rows IH]; [reflexivity|]. cbn. now rewrite IH.
Qed.

Lemma arg_imported (inserts : QString) :
  arg "Total contacts imported: %1" [inserts]
  = ("Total contacts imported: " ++ inserts)%string.
Proof. rewrite <- (append_empty inserts) at 2. reflexivity. Qed.

Lemma below_filter (f : QString * QString -> bool) (key : QString)
    (entries : list (QString * QString)) :
  QMap.below key entries = true -> QMap.below key (filter f entries) = true.
Proof.
  unfold QMap.below. rewrite !forallb_forall. intros H e He.
  apply H. apply filter_In in He. tauto.
Qed.

Lemma ascending_filter (f : QString * QString -> bool)
    (entries : list (QString * QString)) :
  QMap.ascending entries = true -> QMap.ascending (filter f entries) = true.
Proof.
  induction entries as [|[key value] entries IH]; [reflexivity|].
  cbn [QMap.ascending filter]. intros H.
  apply andb_true_iff in H. destruct H as [B A].
  destruct (f (key, value)); [|now apply IH].
  cbn [QMap.ascending]. apply andb_true_iff.
  split; [now apply below_filter|now apply IH].
Qed.

Lemma below_not_in (key : QString) (entries : list (QString * QString)) :
  QMap.below key entries = true -> ~ In key (map fst entries).
Proof.
  unfold QMap.below. rewrite forallb_forall. intros H Hin.
  apply in_map_iff in Hin. destruct Hin as (e & <- & He).
  specialize (H e He).
  assert (R : String.compare (fst e) (fst e) = Eq).
  { clear. induction (fst e) as [|c t IH]; [reflexivity|].
    cbn. unfold Ascii.compare. now rewrite N.compare_refl. }
  now rewrite R in H.
Qed.

Lemma ascending_NoDup (entries : list (QString * QString)) :
  QMap.ascending entries = true -> NoDup (map fst entries).
Proof.
  induction entries as [|[key value] entries IH]; [constructor|].
  cbn [QMap.ascending map fst]. intros H.
  apply andb_true_iff in H. destruct H as [B A].
  constructor; [now apply below_not_in|now apply IH].
Qed.

(** X18: an import of contacts from a chosen file adds exactly the
    entries of the map [readCSV] returns whose address is valid, each
    under its name: in the order of the map, which is by ascending name,
    so that no name is added twice; and it ends with the message that
    tells their number, provided the map has fewer than 2^31 entries. *)
Theorem import_adds_the_valid_entries_and_counts_them (chosen : QString)
    (contacts : QMap.t) :
  isEmpty chosen = false ->
  (Z.of_nat (List.length (QMap.entries contacts)) < 2 ^ 31)%Z ->
  let valid :=
    filter (fun row => addressValid (snd row)) (QMap.entries contacts) in
  let events := importContacts homePath addressValid chosen contacts in
  added events = valid
  /\ QMap.ascending (added events) = true
  /\ NoDup (map fst (added events))
  /\ latest events
     = Some (QMessageBox_information "Contacts imported"
               ("Total contacts imported: "
                ++ number (Z.of_nat (List.length valid)))).
Proof.
  intros N H. cbv zeta. unfold importContacts. rewrite N.
  rewrite importRows_spec by lia. cbv zeta. rewrite Z.add_0_l.
  assert (A : added
                (QFileDialog_getOpenFileName "Import CSV file" homePath
                   "CSV Files (*.csv)"
                 :: map (fun row =>
                           AddressBook_addRow (snd row) EmptyString (fst row))
                      (filter (fun row => addressValid (snd row))
                         (QMap.entries contacts))
                 ++ [QMessageBox_information "Contacts imported"
                       (arg "Total contacts imported: %1"
                          [number
                             (Z.of_nat
                                (List.length
                                   (filter
                                      (fun row => addressValid (snd row))
                                      (QMap.entries contacts))))])])
              = filter (fun row => addressValid (snd row))
                  (QMap.entries contacts)).
  { cbn [added]. rewrite added_app, added_addRows. cbn. apply app_nil_r. }
  rewrite A.
  pose proof (ascending_filter (fun row => addressValid (snd row)) _
                (QMap.ordered contacts)) as S.
  split; [reflexivity|]. split; [exact S|].
  split; [now apply ascending_NoDup|].
  unfold latest. rewrite app_comm_cons, rev_app_distr. cbn [rev app].
  now rewrite arg_imported.
Qed.

End FilesFacts.

(** ** The hardware device and the keys *)

Section DeviceFacts.

Import Device.

Variable isLedger : bool.
Variable isTrezor : bool.
Variable darkScheme : bool.

Let paired := hardwareDevicePairedIcon isLedger isTrezor darkScheme.
Let unpaired := hardwareDeviceUnpairedIcon isLedger isTrezor darkScheme.

Lemma reconnectLoop_decisive (before : list Answer) (a : Answer)
    (after : list Answer) (w : Window) :
  Forall (fun b => decisive b = false) before ->
  decisive a = true ->
  reconnectLoop isLedger isTrezor darkScheme (before ++ a :: after) w
  = (if (button a =? Yes)%Z then set_deviceError false paired w else w,
     flat_map asked before
     ++ (if (button a =? Yes)%Z
         then asked a ++ [Wallet_startRefresh]
         else asked a ++ [menuWalletCloseClicked])).
Proof.
  intros Hb Ha. induction Hb as [|b before Hb _ IH].
  - cbn [app flat_map reconnectLoop]. unfold decisive, asked in *.
    destruct (button a =? Yes)%Z eqn:Y.
    + assert (N : (button a =? No)%Z = false).
      { apply Z.eqb_eq in Y. rewrite Y. reflexivity. }
      rewrite N, orb_false_r in Ha. cbn [andb] in Ha. now rewrite Ha.
    + cbn [andb orb] in Ha. now rewrite Ha.
  - cbn [app flat_map reconnectLoop]. rewrite IH.
    unfold decisive in Hb. unfold asked.
    destruct (button b =? Yes)%Z; cbn [andb orb] in Hb.
    + apply orb_false_iff in Hb. destruct Hb as [Hr _]. now rewrite Hr.
    + now rewrite Hb.
Qed.

(** X19: When the connection to the device is lost and no question about
    it is open, the questions go on until the first answer that settles
    them, and later answers are not asked for: a Yes whose reconnection
    succeeds leaves the paired icon, a refresh and the window ready for
    the next error; a No closes the wallet with the unpaired icon and the
    flag still set.  Every Yes before it was followed by one attempt to
    reconnect, every other answer by none. *)
Theorem device_questions_end_at_the_first_settling_answer
    (before : list Answer) (a : Answer) (after : list Answer) (w : Window) :
  m_showDeviceError w = false ->
  Forall (fun b => decisive b = false) before ->
  decisive a = true ->
  onDeviceError isLedger isTrezor darkScheme (before ++ a :: after) w
  = (if (button a =? Yes)%Z
     then set_deviceError false paired w
     else set_deviceError true unpaired w,
     flat_map asked before
     ++ (if (button a =? Yes)%Z
         then asked a ++ [Wallet_startRefresh]
         else asked a ++ [menuWalletCloseClicked])).
Proof.
  intros F Hb Ha. unfold onDeviceError. rewrite F.
  rewrite reconnectLoop_decisive by assumption.
  destruct (button a =? Yes)%Z; reflexivity.
Qed.

(** X20: After the questions about a lost connection have ended, a
    further device error is treated by how they ended: after a successful
    reconnection it asks again, starting with the question; after a No,
    which closed the wallet, it asks nothing and changes nothing. *)
Theorem device_error_after_the_questions_ended
    (before : list Answer) (a : Answer) (after script : list Answer)
    (w : Window) :
  m_showDeviceError w = false ->
  Forall (fun b => decisive b = false) before ->
  decisive a = true ->
  let w1 :=
    fst (onDeviceError isLedger isTrezor darkScheme (before ++ a :: after)
           w) in
  if (button a =? Yes)%Z then
    exists events,
      snd (onDeviceError isLedger isTrezor darkScheme script w1)
      = QMessageBox_question "Hardware device"
          "Lost connection to hardware device. Attempt to reconnect?"
        :: events
  else onDeviceError isLedger isTrezor darkScheme script w1 = (w1, []).
Proof.
  intros F Hb Ha. cbv zeta.
  assert (E : fst (onDeviceError isLedger isTrezor darkScheme
                     (before ++ a :: after) w)
              = if (button a =? Yes)%Z then set_deviceError false paired w
                else set_deviceError true unpaired w).
  { unfold onDeviceError. rewrite F.
    rewrite reconnectLoop_decisive by assumption.
    now destruct (button a =? Yes)%Z. }
  rewrite E. clear E.
  destruct (button a =? Yes)%Z.
  - unfold onDeviceError. cbn [set_deviceError m_showDeviceError].
    destruct script as [|c script]; cbn [reconnectLoop].
    + now eexists.
    + destruct (button c =? Yes)%Z.
      * destruct (reconnects c); [now eexists|].
        destruct (reconnectLoop _ _ _ script _). now eexists.
      * destruct (button c =? No)%Z; [now eexists|].
        destruct (reconnectLoop _ _ _ script _). now eexists.
  - unfold onDeviceError. cbn [set_deviceError m_showDeviceError].
    reflexivity.
Qed.

(** X21: However often the corruption of the keys is signalled, the
    warning is shown and the send button disabled at most once, and
    exactly once if the warning was not shown before; afterwards the
    window remembers it, and what it knows of the device is as before. *)
Theorem key_warning_is_shown_once (n : nat) (w : Window) :
  let '(w', events) := keysCorruptedTimes (S n) w in
  events
  = (if m_criticalWarningShown w then []
     else [QMessageBox_warning "Critical error" keysCorruptedText;
           SendWidget_disableSendButton])
  /\ m_criticalWarningShown w' = true
  /\ m_showDeviceError w' = m_showDeviceError w
  /\ m_statusBtnHwDevice_icon w' = m_statusBtnHwDevice_icon w.
Proof.
  assert (K : forall k v, m_criticalWarningShown v = true ->
                          keysCorruptedTimes k v = (v, [])).
  { induction k as [|k IH]; intros v Hv; [reflexivity|].
    cbn [keysCorruptedTimes]. unfold onKeysCorrupted. rewrite Hv.
    cbn [negb]. now rewrite IH. }
  cbn [keysCorruptedTimes]. unfold onKeysCorrupted.
  destruct (m_criticalWarningShown w) eqn:S0; cbn [negb].
  - rewrite K by exact S0. now repeat split.
  - rewrite K by reflexivity. now repeat split.
Qed.

End DeviceFacts.

(** * The further properties at work *)


(** The feed for 1.3.0-beta received twice: two requests, two replies in
    flight. *)
Lemma every_newer_feed_sends_a_request_demo :
  let w' := run Demo.X Demo.w0 (repeat (UpdatesReceived Demo.feed) 2) in
  fetched (trace w')
  = ["https://featherwallet.org/files/releases/hashes-1.3.0-beta-plain.txt";
     "https://featherwallet.org/files/releases/hashes-1.3.0-beta-plain.txt"]
  /\ replies w'
     = [Scenario.inFlight "1.3.0-beta"; Scenario.inFlight "1.3.0-beta"].
Proof.
  destruct (every_newer_feed_sends_a_request Demo.X Demo.w0 Demo.feed
              "1.3.0-beta" 2) as [F R].
  - intros E. discriminate E.
  - reflexivity.
  - reflexivity.
  - exact (conj F R).
Defined.


(** From the window as [initStatusBar] leaves it: an override, a
    synchronisation, a transaction and the timer of the override end on
    the text asked for last; the byte counter and a button press alone
    leave [Idle] on the label. *)
Lemma status_label_follows_last_request_demo :
  let w :=
    StatusLine.run false false Scenario.formatBytes false 0%Z
      StatusLine.initial
      [StatusLine.SetStatusText "Address copied" true 1000%Z;
       StatusLine.Synchronized None; StatusLine.InitiateTransaction;
       StatusLine.TxTimerTimeout; StatusLine.EndTransaction;
       StatusLine.SingleShotTimeout 0] in
  let idle :=
    StatusLine.run false false Scenario.formatBytes false 0%Z
      StatusLine.initial
      [StatusLine.UpdateBytesTimeout None; StatusLine.DeviceButtonPressed] in
  (StatusLine.m_statusText w = "Synchronized"
   /\ StatusLine.m_statusLabelStatus w = "Synchronized")
  /\ (StatusLine.m_statusText idle = EmptyString
      /\ StatusLine.m_statusLabelStatus idle = "Idle")
  /\ StatusLine.m_statusLabelStatus
       (StatusLine.run false false Scenario.formatBytes false 0%Z
          Scenario.connecting [StatusLine.Synchronized None])
     = "Synchronized".
Proof.
  destruct (status_label_follows_last_request false false
              Scenario.formatBytes 0%Z StatusLine.initial
              [StatusLine.SetStatusText "Address copied" true 1000%Z;
               StatusLine.Synchronized None; StatusLine.InitiateTransaction;
               StatusLine.TxTimerTimeout; StatusLine.EndTransaction;
               StatusLine.SingleShotTimeout 0]) as (T & _ & L & _).
  { intros E. discriminate E. }
  destruct (status_label_follows_last_request false false
              Scenario.formatBytes 0%Z StatusLine.initial
              [StatusLine.UpdateBytesTimeout None;
               StatusLine.DeviceButtonPressed]) as (T' & _ & L' & _).
  { intros E. discriminate E. }
  destruct (status_label_follows_last_request false false
              Scenario.formatBytes 0%Z Scenario.connecting
              [StatusLine.Synchronized None]) as (_ & _ & _ & S).
  { intros E. discriminate E. }
  split; [split; [exact T|]|split; [split; [exact T'|]|]].
  - destruct (L (conj eq_refl eq_refl)) as [E|E]; [exact E|].
    vm_compute in E. discriminate E.
  - destruct (L' (conj eq_refl eq_refl)) as [E|E]; [|exact E].
    vm_compute in E. discriminate E.
  - exact (S (fun _ => eq_refl) (conj eq_refl eq_refl)).
Defined.

(** Two overrides, and the timer of the second fires first; the same
    during the construction of a transaction. *)
Lemma first_timer_ends_every_override_demo :
  let overrides :=
    [StatusLine.SetStatusText "Address copied" true 1000%Z;
     StatusLine.SetStatusText "Saved" true 3000%Z] in
  let w1 :=
    StatusLine.run false false Scenario.formatBytes false 0%Z
      Scenario.connecting overrides in
  let w2 :=
    StatusLine.handle false false Scenario.formatBytes false 0%Z w1
      (StatusLine.SingleShotTimeout 1) in
  let c2 :=
    StatusLine.handle false false Scenario.formatBytes false 0%Z
      (StatusLine.run false false Scenario.formatBytes false 0%Z
         (StatusLine.onInitiateTransaction false Scenario.connecting)
         overrides)
      (StatusLine.SingleShotTimeout 1) in
  (StatusLine.m_statusLabelStatus w1 = "Saved"
   /\ StatusLine.m_statusLabelStatus w2 = "Connecting to node"
   /\ StatusLine.m_statusOverrideActive w2 = false
   /\ StatusLine.singleShots w2 = [1000%Z])
  /\ (StatusLine.m_statusLabelStatus c2 = "Saved"
      /\ StatusLine.m_statusText c2 = "Connecting to node"
      /\ StatusLine.m_statusOverrideActive c2 = false).
Proof.
  destruct (first_timer_ends_every_override false false Scenario.formatBytes
              0%Z Scenario.connecting
              [("Address copied", 1000%Z); ("Saved", 3000%Z)] 1)
    as (A & B & _ & C & _).
  { discriminate. }
  { repeat constructor. }
  destruct (first_timer_ends_every_override false false Scenario.formatBytes
              0%Z (StatusLine.onInitiateTransaction false Scenario.connecting)
              [("Address copied", 1000%Z); ("Saved", 3000%Z)] 1)
    as (_ & B' & T' & C' & _).
  { discriminate. }
  { repeat constructor. }
  exact (conj (conj A (conj B (conj C eq_refl))) (conj B' (conj T' C'))).
Defined.

(** A Trezor asks to confirm (code 2) while the transaction is
    constructed. *)
Lemma splash_stays_during_construction_demo :
  let w' :=
    StatusLine.run true true Scenario.formatBytes false 0%Z
      (StatusLine.onInitiateTransaction true Scenario.connecting)
      [StatusLine.SetStatusText "Synchronized" false 0%Z;
       StatusLine.TxTimerTimeout; StatusLine.DeviceButtonRequest 2;
       StatusLine.DeviceButtonPressed] in
  StatusLine.m_constructingTransaction w' = true
  /\ StatusLine.splash_visible (StatusLine.m_splashDialog w') = true
  /\ StatusLine.splash_message (StatusLine.m_splashDialog w')
     = "Constructing transaction: action may be required on device.".
Proof.
  destruct (splash_stays_during_construction true Scenario.formatBytes 0%Z
              Scenario.connecting
              [StatusLine.SetStatusText "Synchronized" false 0%Z;
               StatusLine.TxTimerTimeout; StatusLine.DeviceButtonRequest 2;
               StatusLine.DeviceButtonPressed]) as (A & B & C).
  - intros [E|[E|[E|[E|[]]]]]; discriminate E.
  - split; [exact A|]. split; [exact B|]. apply C.
    intros code [E|[E|[E|[E|[]]]]]; try discriminate E.
    injection E as <-. discriminate.
Defined.

(** 150 blocks left, a height beyond the target, and a difference of
    2^31. *)
Lemma sync_lines_show_the_blocks_left_demo :
  StatusLine.blocksRemaining 100 250 = "150"
  /\ QtText.toInt (StatusLine.blocksRemaining 100 250) = Some 150%Z
  /\ StatusLine.m_statusLabelStatus
       (StatusLine.onBlockchainSync false 0%Z StatusLine.initial 100 250)
     = "Blockchain sync: 150 blocks remaining"
  /\ StatusLine.blocksRemaining 250 100 = "?"
  /\ QtText.toInt (StatusLine.blocksRemaining (-1) 2147483647)
     = Some (-2147483648)%Z.
Proof.
  destruct (sync_lines_show_the_blocks_left StatusLine.initial 100 250)
    as (_ & N & _ & L).
  destruct (sync_lines_show_the_blocks_left StatusLine.initial 250 100)
    as (Q & _).
  destruct (sync_lines_show_the_blocks_left StatusLine.initial (-1)
              2147483647) as (_ & _ & O & _).
  destruct (N ltac:(discriminate) eq_refl) as [N1 _].
  destruct (L (conj eq_refl eq_refl)) as [L1 _].
  assert (R : (2 ^ 31 <= 2147483647 - -1 < 2 ^ 32)%Z)
    by (split; [discriminate|reflexivity]).
  destruct (O R) as [O1 _].
  split; [reflexivity|]. split; [exact N1|]. split; [exact L1|].
  split; [exact (Q eq_refl)|exact O1].
Defined.


(** The split payment is given up: nothing is cached, shown or
    committed. *)
Lemma failed_transaction_is_given_up_demo :
  filter Transactions.proceeds
    (Transactions.onCreateTransactionSuccess Scenario.baseAddress
       Scenario.wallet Scenario.accepted Scenario.splitPayment ["4Dest"])
  = [].
Proof.
  destruct (failed_transaction_is_given_up Scenario.baseAddress
              Scenario.wallet Scenario.accepted Scenario.splitPayment
              ["4Dest"]) as [A _].
  - right; left. discriminate.
  - exact A.
Defined.

(** With the boundary at 3, seven openings from counter 1 reach 8 and show
    the reminder at 3 and at 6; three openings from counter -2 stop at
    -1. *)
Lemma reminder_at_every_boundary_demo :
  let answers :=
    [Scenario.No; Donation.Yes; Scenario.No; Scenario.No; Scenario.No;
     Scenario.No; Scenario.No] in
  (fst (Donation.openings 3 "4Donate" Scenario.funded answers 1) = 8%Z
   /\ Z.of_nat (Donation.reminders
                  (snd (Donation.openings 3 "4Donate" Scenario.funded
                          answers 1))) = 2%Z)
  /\ (fst (Donation.openings 3 "4Donate" Scenario.funded
             [Scenario.No; Scenario.No; Scenario.No] (-2)) = (-1)%Z
      /\ Z.of_nat (Donation.reminders
                     (snd (Donation.openings 3 "4Donate" Scenario.funded
                             [Scenario.No; Scenario.No; Scenario.No] (-2))))
         = 0%Z).
Proof.
  assert (E : Donation.eligible Scenario.funded).
  { split; [reflexivity|]. split; [reflexivity|discriminate]. }
  split.
  - apply (reminder_at_every_boundary 3 "4Donate" Scenario.funded
             [Scenario.No; Donation.Yes; Scenario.No; Scenario.No;
              Scenario.No; Scenario.No; Scenario.No] 1 E);
      [reflexivity|discriminate|discriminate|reflexivity].
  - apply (reminder_at_every_boundary 3 "4Donate" Scenario.funded
             [Scenario.No; Scenario.No; Scenario.No] (-2) E);
      [reflexivity|discriminate|discriminate|reflexivity].
Defined.

(** After the opt-out the counter stays at -1. *)
Lemma reminder_never_after_opt_out_demo :
  Donation.openings 3 "4Donate" Scenario.funded [Donation.Yes; Scenario.No]
    (-1)
  = ((-1)%Z, []).
Proof.
  apply (reminder_never_after_opt_out 3 "4Donate" Scenario.funded
           [Donation.Yes; Scenario.No] (-1)).
  left. reflexivity.
Defined.

(** This window opens [/dir/1.keys], an update feed arrives, and another
    window then opens [/2.keys]: the menu still shows the one wallet, the
    stored list has two. *)
Lemma recent_menu_shows_the_list_of_its_last_rebuild_demo :
  let w2 :=
    RecentMenu.steps Demo.X [] Demo.w0
      [RecentMenu.ClearHistory;
       RecentMenu.Arrives (WalletOpened "/dir/1.keys");
       RecentMenu.Arrives (UpdatesReceived Demo.feed);
       RecentMenu.OtherWindowOpened "/2.keys"] in
  menuRecently_open w2
  = [Action "1.keys" "/dir/1.keys"; Separator; ClearRecentlyOpenAction]
  /\ RecentMenu.opens (menuRecently_open w2) = ["/dir/1.keys"]
  /\ recentlyOpenedWallets (config w2) = ["/2.keys"; "/dir/1.keys"].
Proof.
  destruct (recent_menu_shows_the_list_of_its_last_rebuild Demo.X []
              [RecentMenu.ClearHistory]
              (RecentMenu.Arrives (WalletOpened "/dir/1.keys"))
              [RecentMenu.Arrives (UpdatesReceived Demo.feed);
               RecentMenu.OtherWindowOpened "/2.keys"]
              Demo.w0) as (_ & M & O & _).
  - reflexivity.
  - repeat constructor.
  - exact (conj M (conj O eq_refl)).
Defined.

(** Of three contacts, the two with a valid address are added. *)
Lemma import_adds_the_valid_entries_and_counts_them_demo :
  let events :=
    Files.importContacts "/home/u" Scenario.addressValid
      "/home/u/contacts.csv" Scenario.contacts in
  Files.added events = [("alice", "4A"); ("carol", "4C")]
  /\ latest events
     = Some (Files.QMessageBox_information "Contacts imported"
               "Total contacts imported: 2").
Proof.
  destruct (import_adds_the_valid_entries_and_counts_them "/home/u"
              Scenario.addressValid "/home/u/contacts.csv" Scenario.contacts)
    as (A & _ & _ & L).
  - reflexivity.
  - reflexivity.
  - exact (conj A L).
Defined.

(** A reconnection that fails and one that works: two questions, two
    attempts, and the answer after them is not asked for. *)
Lemma device_questions_end_at_the_first_settling_answer_demo :
  Device.onDeviceError true false false
    [Scenario.yesFails; Scenario.yesWorks; Scenario.no] Scenario.paired
  = (Scenario.paired,
     [Device.QMessageBox_question "Hardware device"
        "Lost connection to hardware device. Attempt to reconnect?";
      Device.Wallet_reconnectDevice;
      Device.QMessageBox_question "Hardware device"
        "Lost connection to hardware device. Attempt to reconnect?";
      Device.Wallet_reconnectDevice;
      Device.Wallet_startRefresh]).
Proof.
  apply (device_questions_end_at_the_first_settling_answer true false false
           [Scenario.yesFails] Scenario.yesWorks [Scenario.no]
           Scenario.paired).
  - reflexivity.
  - repeat constructor.
  - reflexivity.
Defined.

(** After a No closed the wallet, a further device error asks nothing. *)
Lemma device_error_after_the_questions_ended_demo :
  let w1 :=
    fst (Device.onDeviceError true false false
           [Scenario.yesFails; Scenario.no] Scenario.paired) in
  Device.onDeviceError true false false [Scenario.yesWorks] w1 = (w1, []).
Proof.
  apply (device_error_after_the_questions_ended true false false
           [Scenario.yesFails] Scenario.no [] [Scenario.yesWorks]
           Scenario.paired).
  - reflexivity.
  - repeat constructor.
  - reflexivity.
Defined.

(** Locked after ten minutes without activity, a typing error and then
    the password show the window again; activity at second 1500 would have
    kept it unlocked at second 2000. *)
Lemma lock_opens_only_with_the_password_demo :
  let '(w', events) :=
    Lock.checkUserActivity "wallet" "hunter2" Scenario.lockAfterTen false
      2000 [Scenario.typo; Scenario.right] Scenario.shown in
  (Lock.tabWidget_visible w' = true /\ Lock.flags events = [false; true])
  /\ Lock.checkUserActivity "wallet" "hunter2" Scenario.lockAfterTen false
       2000 [Scenario.typo; Scenario.right]
       (Lock.userActivity 1500 Scenario.shown)
     = (Lock.userActivity 1500 Scenario.shown, []).
Proof.
  pose proof (lock_opens_only_with_the_password "wallet" "hunter2"
                Scenario.lockAfterTen false 2000
                [Scenario.typo; Scenario.right] Scenario.shown) as H.
  hnf in H. destruct H as (_ & U & K). hnf.
  split.
  - destruct (U eq_refl eq_refl eq_refl) as [(_ & V & _)|(V & _)].
    + exact (conj V eq_refl).
    + discriminate V.
  - apply (K 1500%Z).
    + split; [discriminate|reflexivity].
    + discriminate.
Defined.
